(** * OmniChat: the message-orchestration core

    A shallow embedding of [omni_chat/core/orchestrator.py] (the prompt
    builder, the response interpreter, the tool dispatcher and the
    orchestration loop) and of the tool catalog of
    [omni_chat/core/memory_db.py], with the properties the specification
    states about them.

    Conventions of the embedding.
    - A Python [str] is a [string]: the UTF-8 bytes of its text.
    - Python objects that travel through the orchestrator (decoded JSON,
      parameters, tool results) are [value]s.
    - Exceptions are the instances of [Exception], the class both handlers
      of the orchestrator name; [KeyboardInterrupt] and [SystemExit] are
      signals of the interpreter and have no counterpart here.
    - Stateful code runs in the monad [M]: a state holding the Python list
      objects, the adapter cache and the outside world, with exceptions. *)

From Stdlib Require Import ZArith String Ascii List Bool Lia DecimalString.
From stdpp Require Import base option list gmap strings.

Open Scope string_scope.
Open Scope Z_scope.

(** ** Python values *)

(** A [float] read from a decimal literal [m * 10^e]; Python rounds it to
    binary64, which only matters here for its truth value. *)
Inductive pyfloat :=
| FDec (m e : Z)
| FNan
| FInf (negative : bool).

#[warnings="-register-all"] Inductive value :=
| PNone
| PBool (b : bool)
| PInt (n : Z)
| PFloat (f : pyfloat)
| PStr (s : string)
| PList (l : list value)
| PDict (d : list (string * value)).

(** [type(v).__name__] *)
Definition type_name (v : value) : string :=
  match v with
  | PNone => "NoneType"
  | PBool _ => "bool"
  | PInt _ => "int"
  | PFloat _ => "float"
  | PStr _ => "str"
  | PList _ => "list"
  | PDict _ => "dict"
  end.

(** A decimal literal rounds to [0.0] exactly when its magnitude is at most
    [2^-1075], half of the least subnormal. *)
Definition float_is_zero (f : pyfloat) : bool :=
  match f with
  | FDec m e =>
      if 0 <=? e then m =? 0
      else Z.abs m * 2 ^ 1075 <=? 10 ^ (- e)
  | FNan | FInf _ => false
  end.

(** [bool(v)]: the truth value the tests [not v] and [if v] use. *)
Definition truthy (v : value) : bool :=
  match v with
  | PNone => false
  | PBool b => b
  | PInt n => negb (n =? 0)
  | PFloat f => negb (float_is_zero f)
  | PStr s => negb (String.eqb s "")
  | PList l => match l with [] => false | _ => true end
  | PDict d => match d with [] => false | _ => true end
  end.

(** Lists and dicts are the unhashable values. *)
Definition hashable (v : value) : bool :=
  match v with
  | PList _ | PDict _ => false
  | _ => true
  end.

(** ** Exceptions *)

(** An exception object: its class, the classes above it up to
    [Exception], and [str(e)]. *)
Record exn := Exn {
  exc_class : string;
  exc_bases : list string;
  exc_msg : string
}.

Definition isinstance (e : exn) (cls : string) : bool :=
  String.eqb (exc_class e) cls || existsb (String.eqb cls) (exc_bases e).

Inductive outcome (A : Type) :=
| Ret (a : A)
| Raise (e : exn).
Arguments Ret {A} a.
Arguments Raise {A} e.

Definition obind {A B} (o : outcome A) (f : A -> outcome B) : outcome B :=
  match o with
  | Ret a => f a
  | Raise e => Raise e
  end.

Definition apostrophe : string := String (ascii_of_nat 39) EmptyString.
Definition dquote : string := String (ascii_of_nat 34) EmptyString.

(** [repr] of a short ASCII word: the word between apostrophes. *)
Definition quoted (s : string) : string := apostrophe +:+ s +:+ apostrophe.

Definition KeyError (key : string) : exn :=
  Exn "KeyError" ["LookupError"; "Exception"] (quoted key).
Definition AttributeError (v : value) (attr : string) : exn :=
  Exn "AttributeError" ["Exception"]
      (quoted (type_name v) +:+ " object has no attribute " +:+ quoted attr).
Definition TypeError (msg : string) : exn :=
  Exn "TypeError" ["Exception"] msg.
Definition ValueError (msg : string) : exn :=
  Exn "ValueError" ["Exception"] msg.
Definition JSONDecodeError (msg : string) : exn :=
  Exn "JSONDecodeError" ["ValueError"; "Exception"] msg.

(** ** Strings *)

Definition is_upper (c : ascii) : bool :=
  let n := nat_of_ascii c in (65 <=? n)%nat && (n <=? 90)%nat.

Definition lower_ascii (c : ascii) : ascii :=
  if is_upper c then ascii_of_nat (nat_of_ascii c + 32) else c.

(** [s.lower()] on the ASCII letters. Letters outside ASCII are left as
    they are: none of them lower-cases to a letter of [reply] or
    [tool_call], so the two comparisons of the interpreter are exact;
    a role or a type name echoed back keeps the case of such letters. *)
Fixpoint lower (s : string) : string :=
  match s with
  | EmptyString => EmptyString
  | String c s' => String (lower_ascii c) (lower s')
  end.

(** [sep.join(parts)] *)
Fixpoint join (sep : string) (parts : list string) : string :=
  match parts with
  | [] => EmptyString
  | [p] => p
  | p :: rest => p +:+ sep +:+ join sep rest
  end.

(** [s.startswith(p)] *)
Fixpoint starts_with (p s : string) : bool :=
  match p, s with
  | EmptyString, _ => true
  | String a p', String b s' => Ascii.eqb a b && starts_with p' s'
  | String _ _, EmptyString => false
  end.

(** [needle in haystack] for two strings *)
Fixpoint is_infix (needle haystack : string) : bool :=
  starts_with needle haystack ||
  match haystack with
  | EmptyString => false
  | String _ rest => is_infix needle rest
  end.

(** [s.split(sep)[-1]]: what follows the last [sep] in [s]. *)
Fixpoint last_segment_go (sep : ascii) (s acc : string) : string :=
  match s with
  | EmptyString => String.rev acc
  | String c s' =>
      if Ascii.eqb c sep then last_segment_go sep s' EmptyString
      else last_segment_go sep s' (String c acc)
  end.
Definition last_segment (sep : ascii) (s : string) : string :=
  last_segment_go sep s EmptyString.

(** [str(n)] for an [int] *)
Definition str_of_Z (n : Z) : string := NilZero.string_of_int (Z.to_int n).

(** A text with every apostrophe turned into a double quote: JSON texts
    are written with apostrophes below. *)
Fixpoint dq (s : string) : string :=
  match s with
  | EmptyString => EmptyString
  | String c s' =>
      String (if Ascii.eqb c (ascii_of_nat 39) then ascii_of_nat 34 else c) (dq s')
  end.

(** ** Python dicts with [str] keys

    A dict keeps its keys in insertion order; assigning to a key that is
    present replaces the value where it stands. *)
Module Dict.
Section Ops.
Context {V : Type}.
Definition t := list (string * V).

Fixpoint get (d : t) (k : string) : option V :=
  match d with
  | [] => None
  | (k', v) :: d' => if String.eqb k' k then Some v else get d' k
  end.

Definition mem (d : t) (k : string) : bool :=
  match get d k with Some _ => true | None => false end.

Fixpoint set (d : t) (k : string) (v : V) : t :=
  match d with
  | [] => [(k, v)]
  | (k', v') :: d' =>
      if String.eqb k' k then (k', v) :: d' else (k', v') :: set d' k v
  end.

Definition keys (d : t) : list string := map fst d.

(** [d.update(other)] *)
Definition update (d other : t) : t :=
  fold_left (fun acc kv => set acc (fst kv) (snd kv)) other d.

(** [d.get(k, dflt)] *)
Definition get_default (d : t) (k : string) (dflt : V) : V :=
  match get d k with Some v => v | None => dflt end.
End Ops.
Arguments t : clear implicits.
End Dict.

Definition getitem (d : Dict.t value) (k : string) : outcome value :=
  match Dict.get d k with
  | Some v => Ret v
  | None => Raise (KeyError k)
  end.

(** ** [json.loads]

    The decoder of Python's standard library, on which the interpreter
    relies: the JSON grammar with Python's three extra literals, strict
    control characters, and later duplicates of a key replacing earlier
    ones. A [JSONDecodeError] carries the kind of the error; the position
    Python adds to the message is left out, and so are the limits of the
    implementation on nesting depth and on the digits of an integer. *)
Module Json.

Inductive token :=
| TLBrace | TRBrace | TLBrack | TRBrack | TColon | TComma
| TString (s : string)
| TWord (w : string).

(** A piece of a string literal: a byte of the text, or the code unit of
    a [\uXXXX] escape. *)
Inductive piece :=
| Raw (c : ascii)
| Uni (code : N).

Inductive lexmode :=
| LIdle
| LStr (acc : list piece)
| LEsc (acc : list piece)
| LHex (acc : list piece) (digits : list N)
| LWord (acc : string).

Definition chr (n : N) : ascii := ascii_of_N n.
Definition ord (c : ascii) : N := N_of_ascii c.

Definition utf8 (c : N) : string :=
  (if c <? 128 then String (chr c) EmptyString
   else if c <? 2048 then
     String (chr (192 + c / 64)) (String (chr (128 + c mod 64)) EmptyString)
   else if c <? 65536 then
     String (chr (224 + c / 4096))
       (String (chr (128 + (c / 64) mod 64))
          (String (chr (128 + c mod 64)) EmptyString))
   else
     String (chr (240 + c / 262144))
       (String (chr (128 + (c / 4096) mod 64))
          (String (chr (128 + (c / 64) mod 64))
             (String (chr (128 + c mod 64)) EmptyString))))%N.

Definition is_high (c : N) : bool := ((55296 <=? c) && (c <=? 56319))%N.
Definition is_low (c : N) : bool := ((56320 <=? c) && (c <=? 57343))%N.

(** The text of a string literal; an escaped high surrogate directly
    followed by an escaped low surrogate is one code point. *)
Fixpoint decode_pieces (ps : list piece) : string :=
  match ps with
  | [] => EmptyString
  | Raw c :: r => String c (decode_pieces r)
  | Uni hi :: r =>
      match r with
      | Uni lo :: r' =>
          if is_high hi && is_low lo
          then utf8 (65536 + (hi - 55296) * 1024 + (lo - 56320))%N +:+ decode_pieces r'
          else utf8 hi +:+ decode_pieces r
      | _ => utf8 hi +:+ decode_pieces r
      end
  end.

Definition hex_val (c : ascii) : option N :=
  let n := ord c in
  (if (48 <=? n) && (n <=? 57) then Some (n - 48)
   else if (65 <=? n) && (n <=? 70) then Some (n - 55)
   else if (97 <=? n) && (n <=? 102) then Some (n - 87)
   else None)%N.

Definition is_ws (c : ascii) : bool :=
  let n := ord c in ((n =? 32) || (n =? 9) || (n =? 10) || (n =? 13))%N.

Definition is_digit (c : ascii) : bool :=
  let n := ord c in ((48 <=? n) && (n <=? 57))%N.

(** Characters of a number or of a literal name. *)
Definition is_word_char (c : ascii) : bool :=
  let n := ord c in
  (is_digit c || ((65 <=? n) && (n <=? 90)) || ((97 <=? n) && (n <=? 122))
   || (n =? 43) || (n =? 45) || (n =? 46))%N.

Definition punct (c : ascii) : option token :=
  match ord c with
  | 123%N => Some TLBrace
  | 125%N => Some TRBrace
  | 91%N => Some TLBrack
  | 93%N => Some TRBrack
  | 58%N => Some TColon
  | 44%N => Some TComma
  | _ => None
  end.

(** The character after a backslash; [None] stands for [u]. *)
Definition escape (c : ascii) : outcome (option ascii) :=
  match ord c with
  | 34%N | 92%N | 47%N => Ret (Some c)
  | 98%N => Ret (Some (chr 8))
  | 102%N => Ret (Some (chr 12))
  | 110%N => Ret (Some (chr 10))
  | 114%N => Ret (Some (chr 13))
  | 116%N => Ret (Some (chr 9))
  | 117%N => Ret None
  | _ => Raise (JSONDecodeError "Invalid \escape")
  end.

Definition idle_step (c : ascii) (acc : list token)
  : outcome (lexmode * list token) :=
  if is_ws c then Ret (LIdle, acc)
  else if (ord c =? 34)%N then Ret (LStr [], acc)
  else match punct c with
       | Some t => Ret (LIdle, t :: acc)
       | None =>
           if is_word_char c then Ret (LWord (String c EmptyString), acc)
           else Raise (JSONDecodeError "Expecting value")
       end.

Fixpoint lex (s : string) (mode : lexmode) (acc : list token)
  : outcome (list token) :=
  match s with
  | EmptyString =>
      match mode with
      | LIdle => Ret (rev acc)
      | LWord w => Ret (rev (TWord (String.rev w) :: acc))
      | _ => Raise (JSONDecodeError "Unterminated string starting at")
      end
  | String c s' =>
      match mode with
      | LIdle =>
          match idle_step c acc with
          | Ret (m, a) => lex s' m a
          | Raise e => Raise e
          end
      | LWord w =>
          if is_word_char c then lex s' (LWord (String c w)) acc
          else match idle_step c (TWord (String.rev w) :: acc) with
               | Ret (m, a) => lex s' m a
               | Raise e => Raise e
               end
      | LStr ps =>
          if (ord c =? 34)%N then lex s' LIdle (TString (decode_pieces (rev ps)) :: acc)
          else if (ord c =? 92)%N then lex s' (LEsc ps) acc
          else if (ord c <? 32)%N
               then Raise (JSONDecodeError "Invalid control character at")
               else lex s' (LStr (Raw c :: ps)) acc
      | LEsc ps =>
          match escape c with
          | Ret (Some c') => lex s' (LStr (Raw c' :: ps)) acc
          | Ret None => lex s' (LHex ps []) acc
          | Raise e => Raise e
          end
      | LHex ps ds =>
          match hex_val c with
          | None => Raise (JSONDecodeError "Invalid \uXXXX escape")
          | Some d =>
              match ds with
              | [d2; d1; d0] =>
                  lex s' (LStr (Uni (((d0 * 16 + d1) * 16 + d2) * 16 + d)%N :: ps)) acc
              | _ => lex s' (LHex ps (d :: ds)) acc
              end
          end
      end
  end.

(** The digits at the head of [s], read onto [acc]: the number, how many
    digits were read, and the rest. *)
Fixpoint span_digits (s : string) (acc : Z) (n : Z) : Z * Z * string :=
  match s with
  | String c s' =>
      if is_digit c then span_digits s' (acc * 10 + Z.of_N (ord c - 48)) (n + 1)
      else (acc, n, s)
  | EmptyString => (acc, n, s)
  end.

Definition head_is (c : N) (s : string) : bool :=
  match s with
  | String c' _ => (ord c' =? c)%N
  | EmptyString => false
  end.

Definition tail (s : string) : string :=
  match s with
  | String _ s' => s'
  | EmptyString => EmptyString
  end.

Definition not_a_number : outcome value :=
  Raise (JSONDecodeError "Expecting value").

(** An optional minus sign, an integer part without leading zero, an
    optional fraction and an optional exponent: an [int] when it has
    neither fraction nor exponent, a [float] otherwise. *)
Definition number (w : string) : outcome value :=
  let neg := head_is 45 w in
  let s1 := if neg then tail w else w in
  let sign := if neg then -1 else 1 in
  let '(ip, ni, s2) := span_digits s1 0 0 in
  if (ni =? 0) || (head_is 48 s1 && (1 <? ni)) then not_a_number
  else
    let has_frac := head_is 46 s2 in
    let '(m, nf, s3) := if has_frac then span_digits (tail s2) ip 0 else (ip, 0, s2) in
    if has_frac && (nf =? 0) then not_a_number
    else
      let has_exp := head_is 101 s3 || head_is 69 s3 in
      let s4 := if has_exp then tail s3 else s3 in
      let eneg := head_is 45 s4 in
      let s5 := if has_exp && (eneg || head_is 43 s4) then tail s4 else s4 in
      let '(ex, ne, s6) := if has_exp then span_digits s5 0 0 else (0, 0, s5) in
      if has_exp && (ne =? 0) then not_a_number
      else match s6 with
           | String _ _ => not_a_number
           | EmptyString =>
               if has_frac || has_exp
               then Ret (PFloat (FDec (sign * m) ((if eneg then - ex else ex) - nf)))
               else Ret (PInt (sign * ip))
           end.

Definition word_value (w : string) : outcome value :=
  if String.eqb w "true" then Ret (PBool true)
  else if String.eqb w "false" then Ret (PBool false)
  else if String.eqb w "null" then Ret PNone
  else if String.eqb w "NaN" then Ret (PFloat FNan)
  else if String.eqb w "Infinity" then Ret (PFloat (FInf false))
  else if String.eqb w "-Infinity" then Ret (PFloat (FInf true))
  else number w.

(** An array or an object under construction. *)
Inductive frame :=
| FArr (rev_items : list value)
| FObj (d : Dict.t value) (key : string).

Inductive pmode :=
| MValue (may_close : bool)
| MKey (may_close : bool)
| MColon
| MAfter
| MDone (v : value).

(** A finished value goes into the innermost open container. *)
Definition complete (v : value) (stack : list frame) : list frame * pmode :=
  match stack with
  | [] => ([], MDone v)
  | FArr items :: st => (FArr (v :: items) :: st, MAfter)
  | FObj d k :: st => (FObj (Dict.set d k v) k :: st, MAfter)
  end.

Definition expecting (what : string) : outcome value :=
  Raise (JSONDecodeError ("Expecting " +:+ what)).

Fixpoint parse (ts : list token) (stack : list frame) (mode : pmode)
  : outcome value :=
  match ts with
  | [] =>
      match mode with
      | MDone v => Ret v
      | _ => expecting "value"
      end
  | t :: ts' =>
      let continue '(st, m) := parse ts' st m in
      match mode, t, stack with
      | MValue _, TString s, _ => continue (complete (PStr s) stack)
      | MValue _, TWord w, _ =>
          match word_value w with
          | Ret v => continue (complete v stack)
          | Raise e => Raise e
          end
      | MValue _, TLBrack, _ => parse ts' (FArr [] :: stack) (MValue true)
      | MValue _, TLBrace, _ => parse ts' (FObj [] EmptyString :: stack) (MKey true)
      | MValue true, TRBrack, FArr _ :: st => continue (complete (PList []) st)
      | MValue _, _, _ => expecting "value"
      | MKey _, TString k, FObj d _ :: st => parse ts' (FObj d k :: st) MColon
      | MKey true, TRBrace, FObj d _ :: st => continue (complete (PDict d) st)
      | MKey _, _, _ => expecting "property name enclosed in double quotes"
      | MColon, TColon, _ => parse ts' stack (MValue false)
      | MColon, _, _ => expecting "':' delimiter"
      | MAfter, TComma, FArr _ :: _ => parse ts' stack (MValue false)
      | MAfter, TRBrack, FArr items :: st => continue (complete (PList (rev items)) st)
      | MAfter, TComma, FObj _ _ :: _ => parse ts' stack (MKey false)
      | MAfter, TRBrace, FObj d _ :: st => continue (complete (PDict d) st)
      | MAfter, _, _ => expecting "',' delimiter"
      | MDone _, _, _ => Raise (JSONDecodeError "Extra data")
      end
  end.

Definition loads (s : string) : outcome value :=
  match lex s LIdle [] with
  | Ret ts => parse ts [] (MValue false)
  | Raise e => Raise e
  end.

End Json.

(** ** The tool catalog ([memory_db.py]) *)

(** A tool as [MemoryDB.get_tools] returns it: a dict with exactly the
    keys [name], [description], [example], [side_effects], [adapter]. *)
Module Tool.
Record t := Make {
  name : string;
  description : string;
  example : string;
  side_effects : bool;
  adapter : string
}.
End Tool.

Module MemoryDB.

(** Rows of the tables [adapters] and [tools]; a nullable column holds an
    [option]. Row identifiers are SQLite's, taken as unbounded. *)
Record adapter_row := {
  a_id : Z;
  a_name : string;
  a_class_name : string;
  a_description : option string
}.

Record tool_row := {
  t_id : Z;
  t_adapter_id : Z;
  t_name : string;
  t_full_name : string;
  t_short_desc : option string;
  t_example : option string;
  t_side_effects : option bool
}.

(** The catalog: both tables in row order, each with the counter of its
    [AUTOINCREMENT] column (the row of [sqlite_sequence]), which is at
    least every identifier of the table. *)
Record db := {
  adapters : list adapter_row;
  adapters_seq : Z;
  tools : list tool_row;
  tools_seq : Z
}.

(** After [_init_db] on a new file. *)
Definition empty : db :=
  {| adapters := []; adapters_seq := 0; tools := []; tools_seq := 0 |}.

(** [SELECT id FROM adapters WHERE name = ?] with [fetchone()] *)
Definition select_adapter (d : db) (name : string) : option adapter_row :=
  find (fun r => String.eqb (a_name r) name) (adapters d).

(** [SELECT id FROM tools WHERE full_name = ?] with [fetchone()] *)
Definition select_tool (d : db) (full_name : string) : option tool_row :=
  find (fun r => String.eqb (t_full_name r) full_name) (tools d).

(** [fetchone()[0]] *)
Definition first_column {R} (id : R -> Z) (row : option R) : outcome Z :=
  match row with
  | Some r => Ret (id r)
  | None => Raise (TypeError "'NoneType' object is not subscriptable")
  end.

(** [INSERT OR IGNORE INTO adapters]: the row is dropped when [name],
    which is [UNIQUE], is already there. The identifier is drawn before
    the conflict is seen, so the counter advances even then. *)
Definition insert_or_ignore_adapter (d : db) (name class_name : string)
    (description : option string) : db :=
  match select_adapter d name with
  | Some _ =>
      {| adapters := adapters d;
         adapters_seq := adapters_seq d + 1;
         tools := tools d;
         tools_seq := tools_seq d |}
  | None =>
      let id := adapters_seq d + 1 in
      {| adapters := adapters d ++
           [{| a_id := id; a_name := name; a_class_name := class_name;
               a_description := description |}];
         adapters_seq := id;
         tools := tools d;
         tools_seq := tools_seq d |}
  end.

Definition register_adapter (d : db) (name class_name description : string)
  : outcome Z * db :=
  let d' := insert_or_ignore_adapter d name class_name (Some description) in
  (first_column a_id (select_adapter d' name), d').

(** [INSERT OR IGNORE INTO tools]: the row is dropped when [full_name],
    which is [UNIQUE], is already there, and the counter advances all the
    same. The foreign key on [adapter_id] is not checked on this
    connection. *)
Definition insert_or_ignore_tool (d : db) (adapter_id : Z) (name full_name : string)
    (short_desc example : option string) (side_effects : option bool) : db :=
  match select_tool d full_name with
  | Some _ =>
      {| adapters := adapters d;
         adapters_seq := adapters_seq d;
         tools := tools d;
         tools_seq := tools_seq d + 1 |}
  | None =>
      let id := tools_seq d + 1 in
      {| adapters := adapters d;
         adapters_seq := adapters_seq d;
         tools := tools d ++
           [{| t_id := id; t_adapter_id := adapter_id; t_name := name;
               t_full_name := full_name; t_short_desc := short_desc;
               t_example := example; t_side_effects := side_effects |}];
         tools_seq := id |}
  end.

(** The name a tool is registered under: the one given, or
    [f"{adapter_id}.{name}"]. *)
Definition effective_full_name (adapter_id : Z) (name : string)
    (full_name : option string) : string :=
  match full_name with
  | None => str_of_Z adapter_id +:+ "." +:+ name
  | Some f => f
  end.

(** The arguments have the types of the signature, so no [NOT NULL]
    constraint can fail; [fetchone()] finds the row that was inserted or
    the one that made the insertion a no-op. *)
Definition register_tool (d : db) (adapter_id : Z) (name short_desc example : string)
    (side_effects : bool) (full_name : option string) : outcome Z * db :=
  let full_name := effective_full_name adapter_id name full_name in
  let d' := insert_or_ignore_tool d adapter_id name full_name
              (Some short_desc) (Some example) (Some side_effects) in
  (first_column t_id (select_tool d' full_name), d').

(** [get_tools]: every tool joined with its adapter, in the row order of
    [tools]. *)
Definition get_tools (d : db) : list Tool.t :=
  flat_map (fun t =>
    map (fun a =>
      {| Tool.name := t_full_name t;
         Tool.description := default EmptyString (t_short_desc t);
         Tool.example := default EmptyString (t_example t);
         Tool.side_effects := default false (t_side_effects t);
         Tool.adapter := a_name a |})
      (List.filter (fun a => a_id a =? t_adapter_id t) (adapters d)))
    (tools d).

(** How many rows of [tools] carry [full_name]. *)
Definition count_full_name (d : db) (full_name : string) : nat :=
  length (List.filter (fun r => String.eqb (t_full_name r) full_name) (tools d)).

(** The [UNIQUE] constraint on [tools.full_name]. *)
Definition unique_full_names (d : db) : Prop :=
  NoDup (map t_full_name (tools d)).

End MemoryDB.

(** ** Callables and their signatures *)

(** [inspect.Parameter.kind] *)
Inductive kind :=
| POSITIONAL_ONLY
| POSITIONAL_OR_KEYWORD
| VAR_POSITIONAL
| KEYWORD_ONLY
| VAR_KEYWORD.

(** [inspect.Parameter]; [default = None] is [Parameter.empty]. *)
Record Param := {
  p_name : string;
  p_default : option value;
  p_kind : kind
}.

Definition is_named (p : Param) : bool :=
  match p_kind p with
  | POSITIONAL_OR_KEYWORD | KEYWORD_ONLY => true
  | _ => false
  end.

Definition is_variadic (p : Param) : bool :=
  match p_kind p with
  | VAR_POSITIONAL | VAR_KEYWORD => true
  | _ => false
  end.

Definition is_var_keyword (p : Param) : bool :=
  match p_kind p with
  | VAR_KEYWORD => true
  | _ => false
  end.

(** The keyword arguments of a call that no keyword-bindable parameter
    takes. *)
Definition extra_keywords (sig : list Param) (kwargs : Dict.t value) : Dict.t value :=
  List.filter
    (fun kv => negb (existsb (fun p => is_named p && String.eqb (p_name p) (fst kv)) sig))
    kwargs.

(** How Python binds the parameters of a callable that is called with
    keyword arguments only, as in [method( **valid_params)]: the
    arguments each parameter receives, in the order of the signature. A
    positional-only parameter cannot be passed by keyword; [*args] is
    empty; the [**kwargs] slot takes the keywords no parameter takes. *)
Fixpoint bind_each (sig : list Param) (kwargs extras : Dict.t value)
  : outcome (Dict.t value) :=
  match sig with
  | [] => Ret []
  | p :: rest =>
      let missing :=
        Raise (TypeError ("missing 1 required "
                          +:+ match p_kind p with
                              | KEYWORD_ONLY => "keyword-only"
                              | _ => "positional"
                              end
                          +:+ " argument: " +:+ quoted (p_name p))) in
      let arg :=
        match p_kind p with
        | POSITIONAL_ONLY =>
            match p_default p with Some d => Ret d | None => missing end
        | POSITIONAL_OR_KEYWORD | KEYWORD_ONLY =>
            match Dict.get kwargs (p_name p), p_default p with
            | Some v, _ => Ret v
            | None, Some d => Ret d
            | None, None => missing
            end
        | VAR_POSITIONAL => Ret (PList [])
        | VAR_KEYWORD => Ret (PDict extras)
        end in
      obind arg (fun v =>
      obind (bind_each rest kwargs extras) (fun bound =>
      Ret ((p_name p, v) :: bound)))
  end.

Definition is_positional_only (name : string) (p : Param) : bool :=
  match p_kind p with
  | POSITIONAL_ONLY => String.eqb (p_name p) name
  | _ => false
  end.

(** Without a [**kwargs] slot a keyword that no parameter takes is an
    error. The messages are Python's without the name of the function
    in front. *)
Definition bind_call (sig : list Param) (kwargs : Dict.t value)
  : outcome (Dict.t value) :=
  let extras := extra_keywords sig kwargs in
  match extras with
  | (k, _) :: _ =>
      if existsb is_var_keyword sig then bind_each sig kwargs extras
      else if existsb (is_positional_only k) sig then
        Raise (TypeError ("got some positional-only arguments passed as keyword arguments: "
                          +:+ quoted k))
      else Raise (TypeError ("got an unexpected keyword argument " +:+ quoted k))
  | [] => bind_each sig kwargs extras
  end.

(** ** Values used as containers

    [params] comes from the model and need not be a dict: the three
    operations the dispatcher applies to it, on any value. *)

Definition not_iterable (v : value) : exn :=
  TypeError ("argument of type " +:+ quoted (type_name v) +:+ " is not iterable").

(** [name in v] *)
Definition contains (v : value) (name : string) : outcome bool :=
  match v with
  | PDict d => Ret (Dict.mem d name)
  | PList l =>
      Ret (existsb (fun x => match x with PStr s => String.eqb s name | _ => false end) l)
  | PStr s => Ret (is_infix name s)
  | _ => Raise (not_iterable v)
  end.

(** [v[name]] *)
Definition subscript (v : value) (name : string) : outcome value :=
  match v with
  | PDict d => getitem d name
  | PList _ => Raise (TypeError "list indices must be integers or slices, not str")
  | PStr _ => Raise (TypeError "string indices must be integers, not 'str'")
  | _ => Raise (TypeError (quoted (type_name v) +:+ " object is not subscriptable"))
  end.

(** The code points of a text: each starts at a byte that is not a
    UTF-8 continuation byte. *)
Definition is_continuation (c : ascii) : bool :=
  let n := N_of_ascii c in ((128 <=? n) && (n <? 192))%N.

Fixpoint code_points_go (s cur : string) : list string :=
  match s with
  | EmptyString => [String.rev cur]
  | String c s' =>
      if is_continuation c then code_points_go s' (String c cur)
      else String.rev cur :: code_points_go s' (String c EmptyString)
  end.

Definition code_points (s : string) : list string :=
  match s with
  | EmptyString => []
  | String c s' => code_points_go s' (String c EmptyString)
  end.

(** What iterating over [v] yields, when [v] can be iterated over. *)
Definition iterate (v : value) : option (list value) :=
  match v with
  | PList l => Some l
  | PStr s => Some (map PStr (code_points s))
  | PDict d => Some (map PStr (Dict.keys d))
  | _ => None
  end.

Definition bad_element (why : string) : exn :=
  ValueError ("dictionary update sequence element " +:+ why).

(** [d.update(seq)] for a sequence of pairs, followed by the use of the
    result as keyword arguments: every element has to be a pair, its
    first component hashable, and in the end every key a [str]. *)
Fixpoint update_from_pairs (d : Dict.t value) (seq : list value) (str_keys : bool)
  : outcome (Dict.t value) :=
  match seq with
  | [] => if str_keys then Ret d else Raise (TypeError "keywords must be strings")
  | x :: seq' =>
      match iterate x with
      | None =>
          Raise (TypeError "cannot convert dictionary update sequence element to a sequence")
      | Some [k; v] =>
          match k with
          | PStr key => update_from_pairs (Dict.set d key v) seq' str_keys
          | _ =>
              if hashable k then update_from_pairs d seq' false
              else Raise (TypeError ("unhashable type: " +:+ quoted (type_name k)))
          end
      | Some _ => Raise (bad_element "has the wrong length; 2 is required")
      end
  end.

(** [d.update(v)] *)
Definition update_with (d : Dict.t value) (v : value) : outcome (Dict.t value) :=
  match v with
  | PDict other => Ret (Dict.update d other)
  | _ =>
      match iterate v with
      | Some seq => update_from_pairs d seq true
      | None => Raise (TypeError (quoted (type_name v) +:+ " object is not iterable"))
      end
  end.

(** ** The orchestrator and its collaborators ([orchestrator.py]) *)

Section Types.

(** Whatever lies outside the orchestrator and may change while it runs:
    the model service, the services behind the tools, the clock. *)
Context {World : Type}.

Definition effect (A : Type) := World -> outcome A * World.

(** An attribute of an adapter object: a bound method, with the
    signature [inspect.signature] reports and its body as a function of the
    arguments its parameters receive, or anything else. *)
Inductive attribute :=
| Method (sig : list Param) (run : Dict.t value -> effect value)
| Data (v : value).

(** An adapter object: [getattr] tells which attributes it has. *)
Record Adapter := { getattr : string -> option attribute }.

(** An adapter class: calling it runs [__init__]. *)
Record AdapterClass := { construct : effect Adapter }.

(** A module, as far as [getattr(module, class_name, None)] sees it. *)
Definition pymodule := string -> option AdapterClass.

(** [LLM_client]: any object with a [generate_response] method. *)
Record LLMClient := { generate_response : string -> effect string }.

(** The parts of the Python runtime the orchestrator calls and this
    development does not define. *)
Record Runtime := {
  (** [repr(v)] *)
  py_repr : value -> string;
  (** [json.dumps] on prompts, which hold strings, booleans, lists and
      dicts only *)
  json_dumps : value -> string;
  (** [datetime.now().isoformat()] *)
  datetime_now : World -> string;
  (** [importlib.import_module] *)
  import_module : string -> effect pymodule
}.

(** A conversation message: a dict with the keys [role] and [content]. *)
Definition message := Dict.t value.

(** A reference to a Python list object. *)
Definition loc := nat.

(** Calls that leave the orchestrator, in the order they happen: the
    model is asked, an answer is interpreted, the dispatcher is entered,
    the body of an operation is run on the arguments its parameters
    received. The trace is kept to state how often collaborators are
    called; the code does not read it. *)
Inductive event :=
| EvGenerate (prompt : string)
| EvInterpret (raw : string)
| EvDispatch (tool_name : string) (params : value)
| EvInvoke (tool_name : string) (args : Dict.t value).

Record State := {
  world : World;
  lists : gmap loc (list message);
  _tool_cache : Dict.t Adapter;
  trace : list event
}.

Definition M (A : Type) := State -> outcome A * State.

(** The orchestrator object; its adapter cache is part of the [State]. *)
Record Orchestrator := {
  LLM_client : LLMClient;
  memory_db : MemoryDB.db;
  tools : list Tool.t;
  _tool_mapping : Dict.t Tool.t
}.

(** The dict the interpreter returns: [action] is [reply] with a [text],
    or [tool_call] with [tool], [params] and [confirm]. *)
Inductive action :=
| Reply (text : value)
| ToolCall (tool : string) (params confirm : value).

End Types.

Arguments effect : clear implicits.
Arguments attribute : clear implicits.
Arguments Adapter : clear implicits.
Arguments AdapterClass : clear implicits.
Arguments pymodule : clear implicits.
Arguments LLMClient : clear implicits.
Arguments Runtime : clear implicits.
Arguments State : clear implicits.
Arguments M : clear implicits.
Arguments Orchestrator : clear implicits.

Section Orchestrator.

Context {World : Type}.
Variable rt : Runtime World.
Variable self : Orchestrator World.

#[local] Abbreviation M := (M World).
#[local] Abbreviation State := (State World).
#[local] Abbreviation effect := (effect World).
#[local] Abbreviation Adapter := (Adapter World).
#[local] Abbreviation AdapterClass := (AdapterClass World).
#[local] Abbreviation LLMClient := (LLMClient World).
#[local] Abbreviation Orchestrator := (Orchestrator World).

(** [str(v)], and [v] inside an f-string *)
Definition str (v : value) : string :=
  match v with
  | PStr s => s
  | _ => py_repr rt v
  end.

(** The monad: [ret] returns, [raise] raises, [bind] runs one computation
    after another and stops at the first exception; the state an
    exception leaves behind is kept. *)
Definition ret {A} (a : A) : M A := fun s => (Ret a, s).

Definition raise {A} (e : exn) : M A := fun s => (Raise e, s).

Definition bind {A B} (m : M A) (f : A -> M B) : M B :=
  fun s =>
    match m s with
    | (Ret a, s') => f a s'
    | (Raise e, s') => (Raise e, s')
    end.

(** [try: m except Exception as e: handler e] *)
Definition try_except {A} (m : M A) (handler : exn -> M A) : M A :=
  fun s =>
    match m s with
    | (Ret a, s') => (Ret a, s')
    | (Raise e, s') => handler e s'
    end.

(** [try: m except cls as e: handler e] *)
Definition try_except_only {A} (cls : string) (m : M A) (handler : exn -> M A) : M A :=
  try_except m (fun e => if isinstance e cls then handler e else raise e).

(** A computation that does not touch the state. *)
Definition lift {A} (o : outcome A) : M A := fun s => (o, s).

(** A call that leaves the orchestrator: it may change the world and
    nothing else. *)
Definition external {A} (f : effect A) : M A :=
  fun s =>
    let '(o, w) := f (world s) in
    (o, {| world := w; lists := lists s; _tool_cache := _tool_cache s;
           trace := trace s |}).

(** [e] happens now. *)
Definition record (e : event) : M unit :=
  fun s =>
    (Ret tt, {| world := world s; lists := lists s; _tool_cache := _tool_cache s;
                trace := (trace s ++ [e])%list |}).

(** The content of the list object at [l]. *)
Definition read_list (l : loc) : M (list message) :=
  fun s => (Ret (lists s !!! l), s).

(** [l.append(msg)] *)
Definition append (l : loc) (msg : message) : M unit :=
  fun s =>
    (Ret tt, {| world := world s;
                lists := <[l := ((lists s !!! l) ++ [msg])%list]> (lists s);
                _tool_cache := _tool_cache s; trace := trace s |}).

(** [self._tool_cache.get(adapter_name)] *)
Definition cached_adapter (adapter_name : string) : M (option Adapter) :=
  fun s => (Ret (Dict.get (_tool_cache s) adapter_name), s).

(** [self._tool_cache[adapter_name] = a] *)
Definition cache_adapter (adapter_name : string) (a : Adapter) : M unit :=
  fun s =>
    (Ret tt, {| world := world s; lists := lists s;
                _tool_cache := Dict.set (_tool_cache s) adapter_name a;
                trace := trace s |}).

(** [datetime.now().isoformat()] *)
Definition now : M string :=
  fun s => (Ret (datetime_now rt (world s)), s).

Notation "'do' x <- m ;; k" := (bind m (fun x => k))
  (at level 10, x name, m at level 99, k at level 200).
Notation "'exec' m ;; k" := (bind m (fun _ => k))
  (at level 10, m at level 99, k at level 200).

(** *** [build_prompt] *)

Definition default_system : string := dq
"You are a helpful assistant with access to tools. 
        Always respond with valid JSON in one of these formats:
        
        For a normal response:
        {'type': 'reply', 'text': 'Your response here'}
        
        For a tool call:
        {
            'type': 'tool_call',
            'tool': 'adapter.tool_name',
            'params': {'param1': value1, 'param2': value2},
            'confirm': false
        }
        ".

(** [{"role": msg["role"].lower(), "text": str(msg["content"])}] *)
Definition format_message (msg : message) : outcome value :=
  obind (getitem msg "role") (fun role =>
  obind (match role with
         | PStr r => Ret (PStr (lower r))
         | _ => Raise (AttributeError role "lower")
         end) (fun role =>
  obind (getitem msg "content") (fun content =>
  Ret (PDict [("role", role); ("text", PStr (str content))])))).

Fixpoint format_messages (messages : list message) : outcome (list value) :=
  match messages with
  | [] => Ret []
  | msg :: rest =>
      obind (format_message msg) (fun m =>
      obind (format_messages rest) (fun ms => Ret (m :: ms)))
  end.

Definition format_tool (tool : Tool.t) : value :=
  PDict [("name", PStr (Tool.name tool));
         ("description", PStr (Tool.description tool));
         ("example", PStr (Tool.example tool));
         ("side_effects", PBool (Tool.side_effects tool))].

Definition build_prompt (messages : list message) (tools : list Tool.t)
    (system : option string) (examples : option value) : M value :=
  do formatted_messages <- lift (format_messages messages) ;;
  let system := match system with None => default_system | Some s => s end in
  let formatted_tools := map format_tool tools in
  do current_time <- now ;;
  let prompt :=
    [("system", PStr system);
     ("tools", PList formatted_tools);
     ("messages", PList formatted_messages);
     ("current_time", PStr current_time)] in
  match examples with
  | Some ex => if truthy ex then ret (PDict (Dict.set prompt "examples" ex))
               else ret (PDict prompt)
  | None => ret (PDict prompt)
  end.

(** *** The orchestrator object *)

(** [{tool["name"]: tool for tool in tools}] *)
Definition mapping_of (tools : list Tool.t) : Dict.t Tool.t :=
  fold_left (fun m tool => Dict.set m (Tool.name tool) tool) tools [].

(** [__init__] with [_load_tools]; the adapter cache starts empty, see
    [fresh]. *)
Definition init (client : LLMClient) (db : MemoryDB.db) : Orchestrator :=
  let tools := MemoryDB.get_tools db in
  {| LLM_client := client; memory_db := db; tools := tools;
     _tool_mapping := mapping_of tools |}.

(** The state right after [__init__], with the list objects the caller
    holds. *)
Definition fresh (w : World) (lists : gmap loc (list message)) : State :=
  {| world := w; lists := lists; _tool_cache := []; trace := [] |}.

(** *** [_handle_model_response] *)

(** [return {"action": "reply", "text": text}] *)
Definition reply (text : string) : outcome action := Ret (Reply (PStr text)).

Definition unknown_tool_text (tool_name : string) : string :=
  "Error: Unknown tool '" +:+ tool_name +:+ "'. Available tools: "
  +:+ join ", " (Dict.keys (_tool_mapping self)).

(** Besides the [JSONDecodeError] it handles, the method raises where
    Python does: [get] on a value that is not a dict, [lower] on a value
    that is not a string, the membership test on an unhashable value. *)
Definition _handle_model_response (response : string) : outcome action :=
  match Json.loads response with
  | Raise e =>
      if isinstance e "JSONDecodeError"
      then reply ("Invalid JSON response from model: " +:+ exc_msg e
                  +:+ ". Please try again.")
      else Raise e
  | Ret (PDict data) =>
      match Dict.get_default data "type" (PStr EmptyString) with
      | PStr type =>
          let rtype := lower type in
          if String.eqb rtype "reply" then
            Ret (Reply (Dict.get_default data "text" (PStr EmptyString)))
          else if String.eqb rtype "tool_call" then
            let tool_name := Dict.get_default data "tool" (PStr EmptyString) in
            if negb (truthy tool_name) then
              reply "Error: No tool specified in tool call"
            else
              match tool_name with
              | PStr name =>
                  if negb (Dict.mem (_tool_mapping self) name)
                  then reply (unknown_tool_text name)
                  else Ret (ToolCall name
                              (Dict.get_default data "params" (PDict []))
                              (Dict.get_default data "confirm" (PBool false)))
              | _ =>
                  if hashable tool_name
                  then reply (unknown_tool_text (str tool_name))
                  else Raise (TypeError ("unhashable type: "
                                         +:+ quoted (type_name tool_name)))
              end
          else
            reply ("Error: Invalid response type '" +:+ rtype
                   +:+ "'. Expected 'reply' or 'tool_call'.")
      | other => Raise (AttributeError other "lower")
      end
  | Ret other => Raise (AttributeError other "get")
  end.

(** *** [_load_adapter_class] *)

Definition adapter_module_path (adapter_name : string) : string :=
  "omni_chat.adapters." +:+ adapter_name +:+ "_adapter".

(** The class is looked up under the name the catalog stores for the
    adapter; [None] when the catalog has no such adapter, when the import
    fails with an [ImportError], or when the module has no such class.
    What the method prints is not modelled. *)
Definition _load_adapter_class (adapter_name : string) : M (option AdapterClass) :=
  match MemoryDB.select_adapter (memory_db self) adapter_name with
  | None => ret None
  | Some result =>
      let class_name := MemoryDB.a_class_name result in
      let path := adapter_module_path adapter_name in
      try_except_only "ImportError"
        (do module <- external (import_module rt path) ;;
         ret (module class_name))
        (fun _ => ret None)
  end.

(** *** [_execute_tool] *)

Definition error_only (msg : string) : value := PDict [("error", PStr msg)].

(** What the handler of the dispatcher returns for the exception [e]. *)
Definition structured_error (e : exn) (tool_name : string) (params : value) : value :=
  PDict [("error", PStr (exc_msg e));
         ("exception_type", PStr (exc_class e));
         ("tool", PStr tool_name);
         ("params", params)].

(** The loop over [sig.parameters.items()]: the keyword arguments of the
    call, or the name of the parameter at which the loop returns. *)
Fixpoint bind_params (sig : list Param) (params : value) (valid_params : Dict.t value)
  : outcome (string + Dict.t value) :=
  match sig with
  | [] => Ret (inr valid_params)
  | param :: rest =>
      let param_name := p_name param in
      obind (contains params param_name) (fun supplied =>
      if supplied : bool then
        obind (subscript params param_name) (fun v =>
        bind_params rest params (Dict.set valid_params param_name v))
      else
        match p_default param with
        | Some d => bind_params rest params (Dict.set valid_params param_name d)
        | None =>
            match p_kind param with
            | VAR_POSITIONAL => bind_params rest params valid_params
            | VAR_KEYWORD =>
                obind (update_with valid_params params) (fun all => Ret (inr all))
            | _ => Ret (inl param_name)
            end
        end)
  end.

(** [method( **valid_params)] *)
Definition call (tool_name : string) (sig : list Param)
    (run : Dict.t value -> effect value) (valid_params : Dict.t value) : M value :=
  do args <- lift (bind_call sig valid_params) ;;
  exec record (EvInvoke tool_name args) ;;
  external (run args).

(** The adapter object for [adapter_name], from the cache or made now and
    cached; [None] when its class cannot be loaded. *)
Definition resolve_adapter (adapter_name : string) : M (option Adapter) :=
  do cached <- cached_adapter adapter_name ;;
  match cached with
  | Some adapter => ret (Some adapter)
  | None =>
      do adapter_class <- _load_adapter_class adapter_name ;;
      match adapter_class with
      | None => ret None
      | Some cls =>
          do adapter <- external (construct cls) ;;
          exec cache_adapter adapter_name adapter ;;
          ret (Some adapter)
      end
  end.

(** The body of the [try] block of [_execute_tool]. *)
Definition execute_body (tool_name adapter_name : string) (params : value) : M value :=
  do adapter <- resolve_adapter adapter_name ;;
  match adapter with
  | None => ret (error_only ("Could not load adapter: " +:+ adapter_name))
  | Some adapter =>
      let method_name := last_segment "." tool_name in
      match getattr adapter method_name with
      | None =>
          ret (error_only ("Adapter '" +:+ adapter_name +:+ "' has no method '"
                           +:+ method_name +:+ "'"))
      | Some (Data v) =>
          raise (TypeError (py_repr rt v +:+ " is not a callable object"))
      | Some (Method sig run) =>
          do bound <- lift (bind_params sig params []) ;;
          match bound with
          | inl param_name =>
              ret (error_only ("Missing required parameter: " +:+ param_name))
          | inr valid_params => call tool_name sig run valid_params
          end
      end
  end.

(** [params] is what the model sent under that key: any value. *)
Definition _execute_tool (tool_name : string) (params : value) : M value :=
  exec record (EvDispatch tool_name params) ;;
  match Dict.get (_tool_mapping self) tool_name with
  | None => ret (error_only ("Unknown tool: " +:+ tool_name))
  | Some tool_info =>
      let adapter_name := Tool.adapter tool_info in
      try_except (execute_body tool_name adapter_name params)
        (fun e => ret (structured_error e tool_name params))
  end.

(** *** [process_message] *)

(** [prompt = build_prompt(context, self.tools)] and
    [self.LLM_client.generate_response(json.dumps(prompt))] *)
Definition ask_model (context : loc) : M string :=
  do messages <- read_list context ;;
  do prompt <- build_prompt messages (tools self) None None ;;
  let request := json_dumps rt prompt in
  exec record (EvGenerate request) ;;
  external (generate_response (LLM_client self) request).

(** [self._handle_model_response(response)] *)
Definition interpret (response : string) : M action :=
  exec record (EvInterpret response) ;;
  lift (_handle_model_response response).

(** [response["text"]] *)
Definition text_of (response : action) : outcome value :=
  match response with
  | Reply text => Ret text
  | ToolCall _ _ _ => Raise (KeyError "text")
  end.

(** The [while] loop, entered with [response] and [count]. [fuel] bounds
    the number of times the loop test is evaluated; [None] means it ran
    out. *)
Fixpoint tool_loop (fuel : nat) (context : loc) (response : action) (count : Z)
  : M (option action) :=
  match fuel with
  | O => ret None
  | S fuel' =>
      match response with
      | ToolCall tool_name params confirm =>
          if count <? 3 then
            do tool_result <- _execute_tool tool_name params ;;
            let tool_call_msg :=
              "Called " +:+ tool_name +:+ " with params: " +:+ str params in
            exec append context
                 [("role", PStr "assistant"); ("content", PStr tool_call_msg)] ;;
            exec append context
                 [("role", PStr "system"); ("content", PStr (str tool_result))] ;;
            do response <- ask_model context ;;
            do response <- interpret response ;;
            tool_loop fuel' context response (count + 1)
          else ret (Some response)
      | Reply _ => ret (Some response)
      end
  end.

(** [process_message] with [fuel] for its loop. The result is [None] only
    when the loop ran out of fuel. What is returned is the [text] of the
    last answer as it is, so a value of any type. *)
Definition process_message_fuel (fuel : nat) (context : loc) : M (option value) :=
  do messages <- read_list context ;;
  match messages with
  | [] => ret (Some (PStr "Error: No context provided"))
  | _ :: _ =>
      do response <- ask_model context ;;
      try_except
        (do response <- interpret response ;;
         do final <- tool_loop fuel context response 0 ;;
         match final with
         | None => ret None
         | Some response =>
             do text <- lift (text_of response) ;;
             ret (Some text)
         end)
        (fun e => ret (Some (PStr ("Error processing request: " +:+ exc_msg e))))
  end.

(** Four evaluations of the loop test are all the loop can make, see
    [tool_loop_fuel]. *)
Definition process_message (context : loc) : M (option value) :=
  process_message_fuel 4 context.

End Orchestrator.

(** ** Observations on a run *)

Definition is_dispatch (e : event) : bool :=
  match e with EvDispatch _ _ => true | _ => false end.

Definition is_invoke (e : event) : bool :=
  match e with EvInvoke _ _ => true | _ => false end.

(** How often [_execute_tool] was entered. *)
Definition dispatches (t : list event) : nat := length (List.filter is_dispatch t).

(** How often the body of a tool operation was run. *)
Definition invocations (t : list event) : nat := length (List.filter is_invoke t).

(** [a] and [b] are equal when case is ignored. *)
Definition equal_ignoring_case (a b : string) : Prop := lower a = lower b.

(** ** The parameter binding as the specification words it

    Every declared parameter receives the value supplied for it, or else
    its default; a declared parameter with neither stops the call; the
    catch-all keyword slot receives the params that are bound to no
    declared name. Declared are the parameters other than the two
    variadic slots. *)

Definition declared (sig : list Param) (name : string) : bool :=
  existsb (fun p => negb (is_variadic p) && String.eqb (p_name p) name) sig.

Definition unbound_params (sig : list Param) (params : Dict.t value) : Dict.t value :=
  List.filter (fun kv => negb (declared sig (fst kv))) params.

Fixpoint spec_bind (all sig : list Param) (params : Dict.t value)
  : string + Dict.t value :=
  match sig with
  | [] => inr []
  | p :: rest =>
      let received :=
        match p_kind p with
        | VAR_POSITIONAL => inr (PList [])
        | VAR_KEYWORD => inr (PDict (unbound_params all params))
        | _ =>
            match Dict.get params (p_name p), p_default p with
            | Some v, _ => inr v
            | None, Some d => inr d
            | None, None => inl (p_name p)
            end
        end in
      match received, spec_bind all rest params with
      | inl missing, _ => inl missing
      | inr _, inl missing => inl missing
      | inr v, inr bound => inr ((p_name p, v) :: bound)
      end
  end.


(** What the dispatcher does between reading the signature and running
    the body: the loop over the parameters, then Python's binding of the
    keyword arguments. *)
Definition received (sig : list Param) (params : value)
  : outcome (string + Dict.t value) :=
  obind (bind_params sig params []) (fun bound =>
  match bound with
  | inl missing => Ret (inl missing)
  | inr valid_params =>
      obind (bind_call sig valid_params) (fun args => Ret (inr args))
  end).







(** ** How a step may change the state *)

Section Steps.
Context {World : Type}.

(** From [s] to [s'] no list object changed, no tool was dispatched and
    at most [n] tool operations were run. *)
Definition calm (n : nat) (s s' : State World) : Prop :=
  lists s' = lists s
  /\ exists new, trace s' = (trace s ++ new)%list
                 /\ dispatches new = 0%nat /\ (invocations new <= n)%nat.

Definition keeps {A} (n : nat) (m : M World A) : Prop :=
  forall s, calm n s (snd (m s)).

(** From [s] to [s'] the events [new] happened, the messages [added] were
    appended to the list object at [context], and no other list object
    changed. *)
Definition advanced (context : loc) (new : list event) (added : list message)
    (s s' : State World) : Prop :=
  trace s' = (trace s ++ new)%list
  /\ lists s' !!! context = ((lists s !!! context) ++ added)%list
  /\ forall l : loc, l <> context -> lists s' !!! l = lists s !!! l.

End Steps.

(** The messages one round of the loop appends: the call, as the
    assistant, and its result, as the system. *)
Inductive tool_exchange : list message -> Prop :=
| exchange_none : tool_exchange []
| exchange_more (call result : string) (rest : list message) :
    tool_exchange rest ->
    tool_exchange ([("role", PStr "assistant"); ("content", PStr call)]
                   :: [("role", PStr "system"); ("content", PStr result)]
                   :: rest).


(** ** Where the dispatcher can fail *)

Section Failures.
Context {World : Type} (rt : Runtime World) (self : Orchestrator World).

(** The [try] block of [_execute_tool], entered in the state [s] for the
    tool [tool_name] of the adapter [adapter_name], fails with [e]: the
    import of the module of the adapter raises something other than an
    [ImportError], the constructor of the adapter raises, the attribute
    is not callable, [params] cannot be read as a mapping, the bound
    arguments do not fit the signature, or the operation raises. *)
Inductive fails (tool_name adapter_name : string) (params : value) (s : State World)
  : exn -> Prop :=
| import_fails (row : MemoryDB.adapter_row) (e : exn) (w : World) :
    Dict.get (_tool_cache s) adapter_name = None ->
    MemoryDB.select_adapter (memory_db self) adapter_name = Some row ->
    import_module rt (adapter_module_path adapter_name) (world s) = (Raise e, w) ->
    isinstance e "ImportError" = false ->
    fails tool_name adapter_name params s e
| constructor_fails (row : MemoryDB.adapter_row) (module : pymodule World)
    (cls : AdapterClass World) (e : exn) (w w' : World) :
    Dict.get (_tool_cache s) adapter_name = None ->
    MemoryDB.select_adapter (memory_db self) adapter_name = Some row ->
    import_module rt (adapter_module_path adapter_name) (world s) = (Ret module, w) ->
    module (MemoryDB.a_class_name row) = Some cls ->
    construct cls w = (Raise e, w') ->
    fails tool_name adapter_name params s e
| attribute_is_not_callable (adapter : Adapter World) (s1 : State World) (v : value) :
    resolve_adapter rt self adapter_name s = (Ret (Some adapter), s1) ->
    getattr adapter (last_segment "." tool_name) = Some (Data v) ->
    fails tool_name adapter_name params s
      (TypeError (py_repr rt v +:+ " is not a callable object"))
| params_fail (adapter : Adapter World) (s1 : State World) (sig : list Param)
    (run : Dict.t value -> effect World value) (e : exn) :
    resolve_adapter rt self adapter_name s = (Ret (Some adapter), s1) ->
    getattr adapter (last_segment "." tool_name) = Some (Method sig run) ->
    bind_params sig params [] = Raise e ->
    fails tool_name adapter_name params s e
| call_fails (adapter : Adapter World) (s1 : State World) (sig : list Param)
    (run : Dict.t value -> effect World value) (valid_params : Dict.t value) (e : exn) :
    resolve_adapter rt self adapter_name s = (Ret (Some adapter), s1) ->
    getattr adapter (last_segment "." tool_name) = Some (Method sig run) ->
    bind_params sig params [] = Ret (inr valid_params) ->
    bind_call sig valid_params = Raise e ->
    fails tool_name adapter_name params s e
| operation_fails (adapter : Adapter World) (s1 : State World) (sig : list Param)
    (run : Dict.t value -> effect World value) (valid_params args : Dict.t value)
    (e : exn) (w : World) :
    resolve_adapter rt self adapter_name s = (Ret (Some adapter), s1) ->
    getattr adapter (last_segment "." tool_name) = Some (Method sig run) ->
    bind_params sig params [] = Ret (inr valid_params) ->
    bind_call sig valid_params = Ret args ->
    run args (world s1) = (Raise e, w) ->
    fails tool_name adapter_name params s e.

End Failures.
(** ** A concrete installation

    A calendar adapter after the one of the repository and a laboratory
    adapter whose operations exercise the dispatcher, both registered the
    way [ToolAdapter.register] does it: the adapter first, then each tool
    under the full name [adapter.tool]. The model answers from a
    script. *)
Module Demo.

(** The outside world: the answers the model is going to give. *)
Definition World := list string.

Fixpoint repr (v : value) : string :=
  match v with
  | PNone => "None"
  | PBool true => "True"
  | PBool false => "False"
  | PInt n => str_of_Z n
  | PFloat _ => "<float>"
  | PStr s => quoted s
  | PList l => "[" +:+ join ", " (map repr l) +:+ "]"
  | PDict d =>
      "{" +:+ join ", " (map (fun kv => quoted (fst kv) +:+ ": " +:+ repr (snd kv)) d)
      +:+ "}"
  end.

Definition ModuleNotFoundError (path : string) : exn :=
  Exn "ModuleNotFoundError" ["ImportError"; "Exception"]
      ("No module named " +:+ quoted path).

Definition RuntimeError (msg : string) : exn :=
  Exn "RuntimeError" ["Exception"] msg.

Definition pure {A} (a : A) : effect World A := fun w => (Ret a, w).
Definition fail {A} (e : exn) : effect World A := fun w => (Raise e, w).

(** [CalendarAdapter.list_events(self, days: str = "7")], with an empty
    calendar; [name] is a data attribute of the adapter. *)
Definition calendar : Adapter World :=
  {| getattr := fun attr =>
       if String.eqb attr "list_events" then
         Some (Method [{| p_name := "days"; p_default := Some (PStr "7");
                          p_kind := POSITIONAL_OR_KEYWORD |}]
                      (fun _ => pure (PList [])))
       else if String.eqb attr "name" then Some (Data (PStr "google_calendar"))
       else None |}.

(** [def op(self, a, b=2)], [def collect(self, a, **kwargs)],
    [def boom(self)] and [def strict(self, a, /)]: the first two return
    the arguments their parameters received. *)
Definition lab : Adapter World :=
  {| getattr := fun attr =>
       if String.eqb attr "op" then
         Some (Method [{| p_name := "a"; p_default := None;
                          p_kind := POSITIONAL_OR_KEYWORD |};
                       {| p_name := "b"; p_default := Some (PInt 2);
                          p_kind := POSITIONAL_OR_KEYWORD |}]
                      (fun args => pure (PDict args)))
       else if String.eqb attr "collect" then
         Some (Method [{| p_name := "a"; p_default := None;
                          p_kind := POSITIONAL_OR_KEYWORD |};
                       {| p_name := "kwargs"; p_default := None;
                          p_kind := VAR_KEYWORD |}]
                      (fun args => pure (PDict args)))
       else if String.eqb attr "boom" then
         Some (Method [] (fun _ => fail (RuntimeError "service unavailable")))
       else if String.eqb attr "strict" then
         Some (Method [{| p_name := "a"; p_default := None;
                          p_kind := POSITIONAL_ONLY |}]
                      (fun args => pure (PDict args)))
       else None |}.

Definition modules (path : string) : effect World (pymodule World) :=
  if String.eqb path "omni_chat.adapters.google_calendar_adapter" then
    pure (fun cls => if String.eqb cls "CalendarAdapter"
                     then Some {| construct := pure calendar |} else None)
  else if String.eqb path "omni_chat.adapters.lab_adapter" then
    pure (fun cls => if String.eqb cls "LabAdapter"
                     then Some {| construct := pure lab |} else None)
  else fail (ModuleNotFoundError path).

Definition runtime : Runtime World :=
  {| py_repr := repr;
     json_dumps := repr;
     datetime_now := fun _ => "2025-06-01T09:00:00";
     import_module := modules |}.

(** The model reads its next answer from the script and says [done] when
    the script is over. *)
Definition scripted : LLMClient World :=
  {| generate_response := fun _ w =>
       match w with
       | answer :: rest => (Ret answer, rest)
       | [] => (Ret (dq "{'type': 'reply', 'text': 'done'}"), [])
       end |}.


(** [register] of an adapter with one tool per name in [tool_names]. *)
Definition register (name class_name : string) (tool_names : list string)
    (d : MemoryDB.db) : MemoryDB.db :=
  let '(id, d) := MemoryDB.register_adapter d name class_name "an adapter" in
  match id with
  | Raise _ => d
  | Ret adapter_id =>
      fold_left (fun d tool =>
        snd (MemoryDB.register_tool d adapter_id tool "a tool" "{}" false
               (Some (name +:+ "." +:+ tool))))
        tool_names d
  end.

Definition catalog : MemoryDB.db :=
  register "lab" "LabAdapter" ["op"; "collect"; "boom"; "strict"; "absent"]
    (register "google_calendar" "CalendarAdapter" ["list_events"; "name"]
       MemoryDB.empty).

Definition orchestrator : Orchestrator World := init scripted catalog.

(** The caller's context is the list object at [context]. *)
Definition context : loc := 0%nat.

Definition user_says (text : string) : message :=
  [("role", PStr "user"); ("content", PStr text)].

Definition start (history : list message) (script : World) : State World :=
  fresh script {[ context := history ]}.

Definition history (s : State World) : list message := lists s !!! context.

End Demo.

(** Scenarios on the concrete installation. *)
Module Cases.
Import Demo.

Definition question : list message := [user_says "What's on my calendar tomorrow?"].

Definition list_events : string :=
  dq "{'type': 'tool_call', 'tool': 'google_calendar.list_events', 'params': {'days': 1}}".

Definition no_events : string :=
  dq "{'type': 'reply', 'text': 'You have no events tomorrow.'}".

Definition ghost : string :=
  dq "{'type': 'tool_call', 'tool': 'ghost.do_thing', 'params': {}}".

Definition outcome_of (self : Orchestrator World) (history : list message)
    (script : World) : outcome (option value) :=
  fst (process_message runtime self context (start history script)).

Definition final (history : list message) (script : World) : State World :=
  snd (process_message runtime orchestrator context (start history script)).




End Cases.

(** ** The message history ([memory_db.py]) *)

Module History.

(** A row of the table [messages]. *)
Record row := {
  m_id : Z;
  m_role : string;
  m_content : string;
  m_timestamp : string
}.

(** The table in row order, with the largest identifier its
    [AUTOINCREMENT] column has handed out; deleting rows does not lower
    it. *)
Record store := {
  rows : list row;
  seq : Z
}.

Definition empty : store := {| rows := []; seq := 0 |}.

(** [add_message]; [now] is what [STRFTIME('%Y-%m-%d %H:%M:%f', 'now')]
    yields at the time of the call. Returns [cursor.lastrowid]. *)
Definition add_message (st : store) (now role content : string) : Z * store :=
  let id := seq st + 1 in
  (id,
   {| rows := rows st ++ [{| m_id := id; m_role := role; m_content := content;
                             m_timestamp := now |}];
      seq := id |}).

(** [ORDER BY timestamp DESC, id DESC]: does [a] come before [b]? A
    timestamp is the text [STRFTIME] wrote, which the column keeps as
    text; text is compared byte by byte. *)
Definition before (a b : row) : bool :=
  match String.compare (m_timestamp a) (m_timestamp b) with
  | Gt => true
  | Lt => false
  | Eq => m_id b <? m_id a
  end.

Fixpoint insert (r : row) (sorted : list row) : list row :=
  match sorted with
  | [] => [r]
  | x :: rest => if before r x then r :: sorted else x :: insert r rest
  end.

Definition newest_first (l : list row) : list row := fold_right insert [] l.

(** [LIMIT ?]: a negative limit is no limit. *)
Definition limited (limit : Z) (l : list row) : list row :=
  if limit <? 0 then l else List.firstn (Z.to_nat limit) l.

Definition as_message (r : row) : Dict.t value :=
  [("role", PStr (m_role r));
   ("content", PStr (m_content r));
   ("timestamp", PStr (m_timestamp r))].

(** [get_recent_messages(limit)]: the newest rows, oldest first. *)
Definition get_recent_messages (st : store) (limit : Z) : list (Dict.t value) :=
  map as_message (rev (limited limit (newest_first (rows st)))).

(** [clear_messages] *)
Definition clear_messages (st : store) : store :=
  {| rows := []; seq := seq st |}.

(** [clear_messages_by_role]: returns [cursor.rowcount]. *)
Definition clear_messages_by_role (st : store) (role : string) : Z * store :=
  (Z.of_nat (length (List.filter (fun r => String.eqb (m_role r) role) (rows st))),
   {| rows := List.filter (fun r => negb (String.eqb (m_role r) role)) (rows st);
      seq := seq st |}).

(** [clear_message_by_id]: returns [cursor.rowcount > 0]. *)
Definition clear_message_by_id (st : store) (message_id : Z) : bool * store :=
  (0 <? Z.of_nat (length (List.filter (fun r => m_id r =? message_id) (rows st))),
   {| rows := List.filter (fun r => negb (m_id r =? message_id)) (rows st);
      seq := seq st |}).

(** [a] was inserted before [b], by a clock that does not run back. *)
Definition older (a b : row) : Prop :=
  m_id a < m_id b /\ String.leb (m_timestamp a) (m_timestamp b) = true.

(** What the table looks like when every row was written by
    [add_message] under such a clock. *)
Fixpoint ascending (l : list row) : Prop :=
  match l with
  | [] => True
  | r :: rest => Forall (older r) rest /\ ascending rest
  end.

Definition chronological (st : store) : Prop :=
  ascending (rows st)
  /\ Forall (fun r => m_id r <= seq st) (rows st).

End History.

(** ** Registration of an adapter ([tool_adapter.py]) *)

Module ToolAdapter.

(** An entry of [self.tools], as the adapters of the repository write
    them: a name, and optionally a description, an example and the
    side-effect flag. *)
Record tool := {
  tool_name : string;
  tool_description : option string;
  tool_example : option value;
  tool_side_effects : option bool
}.

(** The adapter object as far as [register] reads it; [class_name] is
    [self.__class__.__name__]. *)
Record t := {
  name : string;
  class_name : string;
  description : string;
  tools : list tool
}.

Definition full_name (self : t) (tl : tool) : string :=
  name self +:+ "." +:+ tool_name tl.

Section Register.
Context {World : Type} (rt : Runtime World).

(** The loop of [register] over [self.tools]. *)
Fixpoint register_tools (self : t) (adapter_id : Z) (todo : list tool)
    (d : MemoryDB.db) (tool_ids : Dict.t Z) : outcome (Dict.t Z) * MemoryDB.db :=
  match todo with
  | [] => (Ret tool_ids, d)
  | tl :: rest =>
      let '(tool_id, d') :=
        MemoryDB.register_tool d adapter_id (tool_name tl)
          (default EmptyString (tool_description tl))
          (match tool_example tl with
           | Some example => str rt example
           | None => EmptyString
           end)
          (default false (tool_side_effects tl))
          (Some (full_name self tl)) in
      match tool_id with
      | Raise e => (Raise e, d')
      | Ret tool_id =>
          register_tools self adapter_id rest d' (Dict.set tool_ids (tool_name tl) tool_id)
      end
  end.

(** [register]: the adapter identifier and the identifiers of the
    tools by name. *)
Definition register (self : t) (d : MemoryDB.db)
  : outcome (Z * Dict.t Z) * MemoryDB.db :=
  let '(adapter_id, d1) :=
    MemoryDB.register_adapter d (name self) (class_name self) (description self) in
  match adapter_id with
  | Raise e => (Raise e, d1)
  | Ret adapter_id =>
      let '(tool_ids, d2) := register_tools self adapter_id (tools self) d1 [] in
      match tool_ids with
      | Raise e => (Raise e, d2)
      | Ret tool_ids => (Ret (adapter_id, tool_ids), d2)
      end
  end.

End Register.

End ToolAdapter.

(** ** The Gemini client ([gemini_client.py]) *)

(** [GeminiClient.generate_response]: [generate_content] stands for the
    body of the [try] block, the call of the service followed by
    [response.text.strip()]; whatever it raises becomes the text of the
    answer. *)
Definition GeminiClient {World : Type} (generate_content : string -> effect World string)
  : LLMClient World :=
  {| generate_response := fun prompt w =>
       match generate_content prompt w with
       | (Ret text, w') => (Ret text, w')
       | (Raise e, w') => (Ret ("Error generating response: " +:+ exc_msg e), w')
       end |}.

(** ** More observations *)

Definition is_generate (e : event) : bool :=
  match e with EvGenerate _ => true | _ => false end.

(** How often the model was asked. *)
Definition model_calls (t : list event) : nat := length (List.filter is_generate t).

(** A message [build_prompt] can format: it has a [role] that is a
    string, and a [content]. *)
Definition formattable (msg : message) : Prop :=
  exists role content,
    Dict.get msg "role" = Some (PStr role) /\ Dict.get msg "content" = Some content.

(** The client keeps the rule that [generate_response] does not raise. *)
Definition never_raises {World : Type} (client : LLMClient World) : Prop :=
  forall prompt w, exists text w', generate_response client prompt w = (Ret text, w').

(** The tools and adapters of the catalog are consistent: every tool
    belongs to an adapter that is there. *)
Definition referential (d : MemoryDB.db) : Prop :=
  Forall (fun t => exists a, In a (MemoryDB.adapters d)
                             /\ MemoryDB.a_id a = MemoryDB.t_adapter_id t)
         (MemoryDB.tools d).

(** The [UNIQUE] constraint on [adapters.name]. *)
Definition unique_adapter_names (d : MemoryDB.db) : Prop :=
  NoDup (map MemoryDB.a_name (MemoryDB.adapters d)).

(** An action the dispatcher can take: a tool call names a registered
    tool. *)
Definition dispatchable {World : Type} (self : Orchestrator World) (a : action) : Prop :=
  match a with
  | ToolCall tool _ _ => Dict.mem (_tool_mapping self) tool = true
  | Reply _ => True
  end.

(** Every dispatch of the trace is for a registered tool. *)
Definition dispatch_registered {World : Type} (self : Orchestrator World) (e : event) : Prop :=
  match e with
  | EvDispatch tool _ => Dict.mem (_tool_mapping self) tool = true
  | _ => True
  end.


(** The dict comprehension of [_load_tools], continued from [m]. *)
Definition mapping_from (m : Dict.t Tool.t) (tools : list Tool.t) : Dict.t Tool.t :=
  fold_left (fun m tool => Dict.set m (Tool.name tool) tool) tools m.

(** ** The order of the calls *)

(** What the dispatch of [tool] runs: nothing, or one operation, under
    the name of the tool. *)
Definition operation_of (tool : string) (events : list event) : Prop :=
  events = [] \/ exists args, events = [EvInvoke tool args].

(** The client raises on [request], or answers it with [answer], in
    some state of the world. *)
Definition client_raises {World : Type} (self : Orchestrator World) (request : string)
  : Prop :=
  exists w e w', generate_response (LLM_client self) request w = (Raise e, w').

Definition client_answers {World : Type} (self : Orchestrator World)
    (request answer : string) : Prop :=
  exists w w', generate_response (LLM_client self) request w = (Ret answer, w').

(** The rounds of the loop after the answer [response], when at most [n]
    are left. No round follows when none is left or the interpreter does
    not make a tool call of the answer. Otherwise the tool of that call
    is dispatched with its params, and the model is asked again; the
    round ends there when the client raises, and else the answer of the
    client is interpreted and the rounds after it follow. *)
Inductive rounds {World : Type} (rt : Runtime World) (self : Orchestrator World)
  : nat -> string -> list event -> Prop :=
| rounds_end (n : nat) (response : string) :
    (n = 0%nat
     \/ forall tool params confirm,
          _handle_model_response rt self response <> Ret (ToolCall tool params confirm)) ->
    rounds rt self n response []
| rounds_cut (n : nat) (response tool : string) (params confirm : value)
    (ran : list event) (request : string) :
    _handle_model_response rt self response = Ret (ToolCall tool params confirm) ->
    operation_of tool ran ->
    client_raises self request ->
    rounds rt self (S n) response (EvDispatch tool params :: ran ++ [EvGenerate request])
| rounds_next (n : nat) (response tool : string) (params confirm : value)
    (ran : list event) (request answer : string) (rest : list event) :
    _handle_model_response rt self response = Ret (ToolCall tool params confirm) ->
    operation_of tool ran ->
    client_answers self request answer ->
    rounds rt self n answer rest ->
    rounds rt self (S n) response
      (EvDispatch tool params :: ran ++ EvGenerate request :: EvInterpret answer :: rest).

(** What one call of [process_message], made in the state [s], adds to
    the trace: nothing; or the first request alone, on which the client
    raised; or the first request, the interpretation of the answer the
    client gave, and the rounds after that answer. *)
Definition protocol {World : Type} (rt : Runtime World) (self : Orchestrator World)
    (s : State World) (new : list event) : Prop :=
  new = []
  \/ (exists request e w,
        new = [EvGenerate request]
        /\ generate_response (LLM_client self) request (world s) = (Raise e, w))
  \/ (exists request response w rest,
        new = EvGenerate request :: EvInterpret response :: rest
        /\ generate_response (LLM_client self) request (world s) = (Ret response, w)
        /\ rounds rt self 3 response rest).

Definition is_interpret (e : event) : bool :=
  match e with EvInterpret _ => true | _ => false end.

(** A step that changes no list object and adds to the trace events of
    the given shape. *)
Definition emits {World A : Type} (shape : list event -> Prop) (m : M World A) : Prop :=
  forall s, lists (snd (m s)) = lists s
            /\ exists new, trace (snd (m s)) = (trace s ++ new)%list /\ shape new.

(** A step that changes no list object and adds nothing to the trace. *)
Definition silent {World A : Type} (m : M World A) : Prop :=
  forall s, lists (snd (m s)) = lists s /\ trace (snd (m s)) = trace s.

(** [formatted] is what [build_prompt] makes of [msg]: the role in lower
    case and the content as [str] gives it. *)
Definition formatted_as {World : Type} (rt : Runtime World) (msg : message)
    (formatted : value) : Prop :=
  exists role content,
    Dict.get msg "role" = Some (PStr role)
    /\ Dict.get msg "content" = Some content
    /\ formatted = PDict [("role", PStr (lower role)); ("text", PStr (str rt content))].

(** The entry [examples] of the prompt: there when [examples] is given
    and not empty. *)
Definition examples_entry (examples : option value) : list (string * value) :=
  match examples with
  | Some ex => if truthy ex then [("examples", ex)] else []
  | None => []
  end.

(** ** More of the concrete installation *)

Module Samples.
Import Demo.

(** A history of two messages, written one and a half seconds apart. *)
Definition diary : History.store :=
  snd (History.add_message
         (snd (History.add_message History.empty "2025-06-01 09:00:00.000" "user" "Hello"))
         "2025-06-01 09:00:01.500" "assistant" "Hi! How can I help?").

Definition later : string := "2025-06-01 09:00:02.250".

(** An adapter with two tools, as its [__init__] would set it up. *)
Definition cloud : ToolAdapter.t :=
  {| ToolAdapter.name := "cloud";
     ToolAdapter.class_name := "CloudAdapter";
     ToolAdapter.description := "Files in the cloud";
     ToolAdapter.tools :=
       [{| ToolAdapter.tool_name := "sync";
           ToolAdapter.tool_description := Some "Synchronise a folder";
           ToolAdapter.tool_example := Some (PDict [("folder", PStr "docs")]);
           ToolAdapter.tool_side_effects := Some true |};
        {| ToolAdapter.tool_name := "list";
           ToolAdapter.tool_description := None;
           ToolAdapter.tool_example := None;
           ToolAdapter.tool_side_effects := None |}] |}.

(** The Gemini client while the service is down. *)
(** A model that asks for the calendar whatever it is told. *)
Definition stubborn : LLMClient World :=
  {| generate_response := fun _ w => (Ret Cases.list_events, w) |}.

Definition service_down : string -> effect World string :=
  fun _ => fail (RuntimeError "503 UNAVAILABLE").

Definition gemini : LLMClient World := GeminiClient service_down.

(** An orchestrator whose catalog has an adapter without a module. *)
Definition clouded : Orchestrator World :=
  init scripted (register "cloud" "CloudAdapter" ["sync"] MemoryDB.empty).

(** The state after the laboratory adapter was resolved once. *)
Definition warm : State World :=
  snd (resolve_adapter runtime orchestrator "lab" (start [] [])).

End Samples.

(** ** A catalog as the registration leaves it *)

(** The constraints of the schema that hold on this connection (the
    primary keys with their counters and the two [UNIQUE] columns)
    together with the one that is not enforced, the foreign key of a tool
    to its adapter. *)
Record consistent (d : MemoryDB.db) : Prop := {
  adapter_ids_unique : NoDup (map MemoryDB.a_id (MemoryDB.adapters d));
  adapter_ids_counted :
    Forall (fun a => MemoryDB.a_id a <= MemoryDB.adapters_seq d) (MemoryDB.adapters d);
  adapter_names_unique : unique_adapter_names d;
  tool_ids_unique : NoDup (map MemoryDB.t_id (MemoryDB.tools d));
  tool_ids_counted :
    Forall (fun t => MemoryDB.t_id t <= MemoryDB.tools_seq d) (MemoryDB.tools d);
  tool_names_unique : MemoryDB.unique_full_names d;
  tools_have_adapters : referential d
}.

(** The adapter a row of [tools] joins with. *)
Definition adapter_of (d : MemoryDB.db) (t : MemoryDB.tool_row) : option string :=
  option_map MemoryDB.a_name
    (find (fun a => MemoryDB.a_id a =? MemoryDB.t_adapter_id t) (MemoryDB.adapters d)).

(** A model that answers every request with a tool call the interpreter
    accepts. *)
Definition insists {World : Type} (rt : Runtime World) (self : Orchestrator World) : Prop :=
  forall prompt w,
    exists text w' tool params confirm,
      generate_response (LLM_client self) prompt w = (Ret text, w')
      /\ _handle_model_response rt self text = Ret (ToolCall tool params confirm).
(** * Properties *)

#[local] Open Scope list_scope.

(** ** The tool catalog *)

Module MemoryDBFacts.
Import MemoryDB.

Lemma find_full_name_app (rows : list tool_row) (r : tool_row) (f : string) :
  find (fun x => String.eqb (t_full_name x) f) rows = None ->
  t_full_name r = f ->
  find (fun x => String.eqb (t_full_name x) f) (rows ++ [r]) = Some r.
Proof.
  intros Hnone Hr. induction rows as [|x rows IH]; simpl in *.
  - rewrite Hr, String.eqb_refl. reflexivity.
  - destruct (String.eqb (t_full_name x) f); [discriminate | auto].
Qed.

Lemma find_none_not_in (rows : list tool_row) (f : string) :
  find (fun x => String.eqb (t_full_name x) f) rows = None ->
  ~ In f (map t_full_name rows).
Proof.
  induction rows as [|x rows IH]; simpl; intros Hnone; [tauto|].
  destruct (String.eqb (t_full_name x) f) eqn:E; [discriminate|].
  apply String.eqb_neq in E. intros [H|H]; [contradiction | exact (IH Hnone H)].
Qed.

Lemma find_some_full_name (rows : list tool_row) (f : string) (r : tool_row) :
  find (fun x => String.eqb (t_full_name x) f) rows = Some r ->
  In r rows /\ t_full_name r = f.
Proof.
  intros H. apply List.find_some in H. destruct H as [Hin Heq].
  apply String.eqb_eq in Heq. auto.
Qed.

(** An insertion changes the table [adapters] never, and the table
    [tools] by at most one row at its end. *)
Lemma insert_adapters d adapter_id name f short_desc example side_effects :
  adapters (insert_or_ignore_tool d adapter_id name f short_desc example side_effects)
  = adapters d.
Proof. unfold insert_or_ignore_tool. destruct (select_tool d f); reflexivity. Qed.

(** After the insertion the name is in the table, whether the row was
    taken or dropped. *)
Lemma select_after_insert d adapter_id name f short_desc example side_effects :
  exists r,
    select_tool (insert_or_ignore_tool d adapter_id name f short_desc example side_effects) f
    = Some r.
Proof.
  unfold insert_or_ignore_tool.
  destruct (select_tool d f) as [r|] eqn:E.
  - exists r. exact E.
  - eexists. unfold select_tool in *. simpl.
    apply find_full_name_app; [exact E | reflexivity].
Qed.

(** A name that is in the table makes the insertion change the counter
    and nothing else. *)
Lemma insert_ignored d adapter_id name f short_desc example side_effects r :
  select_tool d f = Some r ->
  insert_or_ignore_tool d adapter_id name f short_desc example side_effects
  = {| adapters := adapters d; adapters_seq := adapters_seq d;
       tools := tools d; tools_seq := tools_seq d + 1 |}.
Proof. unfold insert_or_ignore_tool. intros ->. reflexivity. Qed.

(** The insertion keeps the names of the table distinct. *)
Lemma insert_keeps_unique d adapter_id name f short_desc example side_effects :
  unique_full_names d ->
  unique_full_names (insert_or_ignore_tool d adapter_id name f short_desc example side_effects).
Proof.
  unfold unique_full_names, insert_or_ignore_tool. intros Hu.
  destruct (select_tool d f) eqn:E; [exact Hu|]. simpl.
  rewrite List.map_app. simpl.
  apply NoDup_app. split; [exact Hu|]. split.
  - intros x Hx Hin. apply list_elem_of_In in Hx.
    apply list_elem_of_In in Hin. simpl in Hin. destruct Hin as [<-|[]].
    exact (find_none_not_in _ _ E Hx).
  - apply NoDup_singleton.
Qed.

(** Distinct names: a name that occurs, occurs in one row. *)
Lemma count_one (rows : list tool_row) (f : string) :
  NoDup (map t_full_name rows) ->
  In f (map t_full_name rows) ->
  length (List.filter (fun r => String.eqb (t_full_name r) f) rows) = 1%nat.
Proof.
  induction rows as [|x rows IH]; simpl; intros Hnd Hin; [contradiction|].
  apply NoDup_cons in Hnd. destruct Hnd as [Hx Hnd].
  destruct (String.eqb (t_full_name x) f) eqn:E.
  - apply String.eqb_eq in E. simpl. f_equal.
    assert (Hnot : ~ In f (map t_full_name rows)).
    { intros H. apply Hx. rewrite E. apply list_elem_of_In. exact H. }
    clear -Hnot. induction rows as [|y rows IH]; simpl in *; [reflexivity|].
    destruct (String.eqb (t_full_name y) f) eqn:Ey.
    + apply String.eqb_eq in Ey. exfalso. apply Hnot. left. exact Ey.
    + apply IH. intros H. apply Hnot. right. exact H.
  - apply String.eqb_neq in E. destruct Hin as [H|H]; [contradiction|].
    apply IH; assumption.
Qed.

(** Distinct names: the rows of a name are the row a [SELECT] by that
    name finds. *)
Lemma filter_one (rows : list tool_row) (f : string) (r : tool_row) :
  NoDup (map t_full_name rows) ->
  find (fun x => String.eqb (t_full_name x) f) rows = Some r ->
  List.filter (fun x => String.eqb (t_full_name x) f) rows = [r].
Proof.
  induction rows as [|x rows IH]; simpl; intros Hnd Hfind; [discriminate|].
  apply NoDup_cons in Hnd. destruct Hnd as [Hx Hnd].
  destruct (String.eqb (t_full_name x) f) eqn:E.
  - injection Hfind as <-. f_equal. apply String.eqb_eq in E.
    assert (Hnot : ~ In f (map t_full_name rows)).
    { intros H. apply Hx. rewrite E. apply list_elem_of_In. exact H. }
    clear -Hnot. induction rows as [|y rows IH]; simpl in *; [reflexivity|].
    destruct (String.eqb (t_full_name y) f) eqn:Ey.
    + apply String.eqb_eq in Ey. exfalso. apply Hnot. left. exact Ey.
    + apply IH. intros H. apply Hnot. right. exact H.
  - exact (IH Hnd Hfind).
Qed.

End MemoryDBFacts.

(** C9. Registering a tool is idempotent on the full name: of two calls
    of [register_tool] that name the same tool, the second changes no
    row of the catalog, only the counter of the table, which advances by
    one; both calls return the same identifier, which is the identifier
    of the one row the catalog then holds with that full name. The two
    calls may differ in everything but the full name; the table is
    assumed to satisfy its [UNIQUE] constraint before the first call. *)
Theorem register_tool_idempotent
    (d : MemoryDB.db)
    (adapter_id1 adapter_id2 : Z) (name1 name2 short_desc1 short_desc2 : string)
    (example1 example2 : string) (side_effects1 side_effects2 : bool)
    (full_name1 full_name2 : option string) :
  MemoryDB.unique_full_names d ->
  MemoryDB.effective_full_name adapter_id1 name1 full_name1
  = MemoryDB.effective_full_name adapter_id2 name2 full_name2 ->
  let first := MemoryDB.register_tool d adapter_id1 name1 short_desc1 example1
                 side_effects1 full_name1 in
  let second := MemoryDB.register_tool (snd first) adapter_id2 name2 short_desc2 example2
                  side_effects2 full_name2 in
  let full_name := MemoryDB.effective_full_name adapter_id1 name1 full_name1 in
  exists row : MemoryDB.tool_row,
    fst first = Ret (MemoryDB.t_id row)
    /\ fst second = Ret (MemoryDB.t_id row)
    /\ MemoryDB.tools (snd second) = MemoryDB.tools (snd first)
    /\ MemoryDB.adapters (snd second) = MemoryDB.adapters (snd first)
    /\ MemoryDB.adapters_seq (snd second) = MemoryDB.adapters_seq (snd first)
    /\ MemoryDB.tools_seq (snd second) = MemoryDB.tools_seq (snd first) + 1
    /\ List.filter (fun r => String.eqb (MemoryDB.t_full_name r) full_name)
         (MemoryDB.tools (snd second)) = [row]
    /\ MemoryDB.count_full_name (snd second) full_name = 1%nat
    /\ MemoryDB.unique_full_names (snd second).
Proof.
  intros Hu Hsame. cbv zeta. unfold MemoryDB.register_tool. simpl. rewrite <- Hsame.
  set (f := MemoryDB.effective_full_name adapter_id1 name1 full_name1).
  destruct (MemoryDBFacts.select_after_insert d adapter_id1 name1 f
              (Some short_desc1) (Some example1) (Some side_effects1)) as [r Hr].
  set (d1 := MemoryDB.insert_or_ignore_tool d adapter_id1 name1 f
               (Some short_desc1) (Some example1) (Some side_effects1)) in *.
  rewrite (MemoryDBFacts.insert_ignored d1 adapter_id2 name2 f _ _ _ r Hr).
  unfold MemoryDB.select_tool in *. simpl. rewrite Hr. simpl. exists r.
  assert (Hu1 : MemoryDB.unique_full_names d1)
    by (apply MemoryDBFacts.insert_keeps_unique; exact Hu).
  assert (Hone : List.filter (fun x => String.eqb (MemoryDB.t_full_name x) f)
                   (MemoryDB.tools d1) = [r])
    by (apply MemoryDBFacts.filter_one; [exact Hu1 | exact Hr]).
  split; [reflexivity|]. split; [reflexivity|]. split; [reflexivity|].
  split; [reflexivity|]. split; [reflexivity|]. split; [reflexivity|].
  split; [exact Hone|]. split; [|exact Hu1].
  unfold MemoryDB.count_full_name. simpl. rewrite Hone. reflexivity.
Qed.
(** ** Steps that dispatch nothing *)

Lemma dispatches_app (a b : list event) :
  dispatches (a ++ b) = (dispatches a + dispatches b)%nat.
Proof. unfold dispatches. rewrite List.filter_app, List.length_app. reflexivity. Qed.

Lemma invocations_app (a b : list event) :
  invocations (a ++ b) = (invocations a + invocations b)%nat.
Proof. unfold invocations. rewrite List.filter_app, List.length_app. reflexivity. Qed.

Section Frame.
Context {World : Type} (rt : Runtime World) (self : Orchestrator World).

Lemma calm_refl (s : State World) : calm 0 s s.
Proof.
  split; [reflexivity|]. exists []. rewrite List.app_nil_r. auto.
Qed.

Lemma calm_trans (a b : nat) (s s1 s2 : State World) :
  calm a s s1 -> calm b s1 s2 -> calm (a + b) s s2.
Proof.
  intros [Hl1 (n1 & Ht1 & Hd1 & Hi1)] [Hl2 (n2 & Ht2 & Hd2 & Hi2)].
  split; [congruence|]. exists (n1 ++ n2)%list.
  rewrite Ht2, Ht1, <- List.app_assoc, dispatches_app, invocations_app.
  repeat split; lia.
Qed.

Lemma calm_weaken (a b : nat) (s s' : State World) :
  (a <= b)%nat -> calm a s s' -> calm b s s'.
Proof.
  intros Hab [Hl (n & Ht & Hd & Hi)]. split; [exact Hl|].
  exists n. repeat split; auto; lia.
Qed.

Lemma keeps_weaken {A} (a b : nat) (m : M World A) :
  (a <= b)%nat -> keeps a m -> keeps b m.
Proof. intros Hab Hm s. eapply calm_weaken; eauto. Qed.

Lemma keeps_ret {A} (a : A) : keeps 0 (@ret World A a).
Proof. intros s. apply calm_refl. Qed.

Lemma keeps_raise {A} (e : exn) : keeps 0 (@raise World A e).
Proof. intros s. apply calm_refl. Qed.

Lemma keeps_lift {A} (o : outcome A) : keeps 0 (@lift World A o).
Proof. intros s. apply calm_refl. Qed.

Lemma keeps_external {A} (f : effect World A) : keeps 0 (external f).
Proof.
  intros s. unfold external. destruct (f (world s)) as [o w]. simpl.
  split; [reflexivity|]. exists []. rewrite List.app_nil_r. auto.
Qed.

Lemma keeps_read_list (l : loc) : keeps 0 (@read_list World l).
Proof. intros s. apply calm_refl. Qed.

Lemma keeps_now : keeps 0 (now rt).
Proof. intros s. apply calm_refl. Qed.

Lemma keeps_cached_adapter (name : string) : keeps 0 (@cached_adapter World name).
Proof. intros s. apply calm_refl. Qed.

Lemma keeps_cache_adapter (name : string) (a : Adapter World) :
  keeps 0 (cache_adapter name a).
Proof.
  intros s. split; [reflexivity|]. exists []. simpl. rewrite List.app_nil_r. auto.
Qed.

Lemma keeps_record (e : event) :
  is_dispatch e = false ->
  keeps (if is_invoke e then 1 else 0) (@record World e).
Proof.
  intros He s. split; [reflexivity|]. exists [e]. simpl.
  unfold dispatches, invocations. simpl. rewrite He.
  destruct (is_invoke e); simpl; auto.
Qed.

Lemma keeps_bind {A B} (a b : nat) (m : M World A) (f : A -> M World B) :
  keeps a m -> (forall x, keeps b (f x)) -> keeps (a + b) (bind m f).
Proof.
  intros Hm Hf s. unfold bind. specialize (Hm s).
  destruct (m s) as [[x|e] s1]; simpl in *.
  - eapply calm_trans; [exact Hm | apply Hf].
  - eapply calm_weaken; [|exact Hm]. lia.
Qed.

Lemma keeps_try_except {A} (a b : nat) (m : M World A) (h : exn -> M World A) :
  keeps a m -> (forall e, keeps b (h e)) -> keeps (a + b) (try_except m h).
Proof.
  intros Hm Hh s. unfold try_except. specialize (Hm s).
  destruct (m s) as [[x|e] s1]; simpl in *.
  - eapply calm_weaken; [|exact Hm]. lia.
  - eapply calm_trans; [exact Hm | apply Hh].
Qed.

(** The two rules as they are used: a silent step before or after. *)
Lemma keeps_then {A B} (n : nat) (m : M World A) (f : A -> M World B) :
  keeps 0 m -> (forall x, keeps n (f x)) -> keeps n (bind m f).
Proof. intros Hm Hf. apply (keeps_bind 0 n); assumption. Qed.

Lemma keeps_try {A} (n : nat) (m : M World A) (h : exn -> M World A) :
  keeps n m -> (forall e, keeps 0 (h e)) -> keeps n (try_except m h).
Proof.
  intros Hm Hh. apply (keeps_weaken (n + 0)); [lia|].
  apply keeps_try_except; assumption.
Qed.

Ltac quiet :=
  repeat first
    [ apply keeps_ret | apply keeps_raise | apply keeps_lift | apply keeps_external
    | apply keeps_read_list | apply keeps_now | apply keeps_cached_adapter
    | apply keeps_cache_adapter
    | apply (keeps_record (EvGenerate _)); reflexivity
    | apply (keeps_record (EvInterpret _)); reflexivity
    | apply keeps_then; [| intros ?]
    | apply keeps_try; [| intros ?]
    | match goal with
      | |- keeps _ (match ?x with _ => _ end) => destruct x
      end ].

Lemma keeps_build_prompt messages tools system examples :
  keeps 0 (build_prompt rt messages tools system examples).
Proof. unfold build_prompt. quiet. Qed.

Lemma keeps_ask_model context : keeps 0 (ask_model rt self context).
Proof. unfold ask_model. quiet. Qed.

Lemma keeps_interpret response : keeps 0 (interpret rt self response).
Proof. unfold interpret. quiet. Qed.

Lemma keeps_load_adapter_class adapter_name :
  keeps 0 (_load_adapter_class rt self adapter_name).
Proof. unfold _load_adapter_class, try_except_only. quiet. Qed.

Lemma keeps_resolve_adapter adapter_name :
  keeps 0 (resolve_adapter rt self adapter_name).
Proof. unfold resolve_adapter. quiet; apply keeps_load_adapter_class. Qed.

Lemma keeps_call tool_name sig (run : Dict.t value -> effect World value) valid_params :
  keeps 1 (call tool_name sig run valid_params).
Proof.
  unfold call. apply keeps_then; [quiet|]. intros args.
  apply (keeps_bind 1 0); [|intros; quiet].
  apply (keeps_record (EvInvoke tool_name args)). reflexivity.
Qed.

Lemma keeps_execute_body tool_name adapter_name params :
  keeps 1 (execute_body rt self tool_name adapter_name params).
Proof.
  unfold execute_body. apply keeps_then; [apply keeps_resolve_adapter|].
  intros [adapter|]; [|apply (keeps_weaken 0); [lia | quiet]].
  destruct (getattr adapter _) as [[sig run|v]|];
    try (apply (keeps_weaken 0); [lia | solve [quiet]]).
  apply keeps_then; [quiet|]. intros [missing|valid_params].
  - apply (keeps_weaken 0); [lia | quiet].
  - apply keeps_call.
Qed.

End Frame.

(** ** The dispatcher returns *)

Section Dispatcher.
Context {World : Type} (rt : Runtime World) (self : Orchestrator World).

Lemma bind_ret_eq {A B} (m : M World A) (f : A -> M World B) s a s' :
  m s = (Ret a, s') -> bind m f s = f a s'.
Proof. unfold bind. intros ->. reflexivity. Qed.

Lemma bind_raise_eq {A B} (m : M World A) (f : A -> M World B) s e s' :
  m s = (Raise e, s') -> bind m f s = (Raise e, s').
Proof. unfold bind. intros ->. reflexivity. Qed.

Lemma advanced_refl context (s : State World) : advanced context [] [] s s.
Proof. unfold advanced. rewrite !List.app_nil_r. auto. Qed.

Lemma advanced_trans context n1 n2 a1 a2 (s s1 s2 : State World) :
  advanced context n1 a1 s s1 -> advanced context n2 a2 s1 s2 ->
  advanced context (n1 ++ n2) (a1 ++ a2) s s2.
Proof.
  intros (Ht1 & Hc1 & Ho1) (Ht2 & Hc2 & Ho2). unfold advanced.
  rewrite Ht2, Ht1, Hc2, Hc1, <- !List.app_assoc.
  repeat split. intros l Hl. rewrite Ho2, Ho1; auto.
Qed.

Lemma calm_advanced context n (s s' : State World) :
  calm n s s' ->
  exists new, advanced context new [] s s'
              /\ dispatches new = 0%nat /\ (invocations new <= n)%nat.
Proof.
  intros [Hl (new & Ht & Hd & Hi)]. exists new. unfold advanced.
  rewrite Hl, List.app_nil_r. auto.
Qed.

Lemma advanced_append context msg (s : State World) :
  advanced context [] [msg] s (snd (append context msg s)).
Proof.
  unfold advanced, append. simpl. rewrite List.app_nil_r.
  rewrite lookup_total_insert_eq. repeat split.
  intros l Hl. rewrite lookup_total_insert_ne; auto.
Qed.

(** Whatever happens inside, [_execute_tool] returns a value: it counts
    as one dispatch, runs at most one operation and appends nothing. *)
Lemma execute_tool_spec context tool_name params (s : State World) :
  exists v s' new,
    _execute_tool rt self tool_name params s = (Ret v, s')
    /\ advanced context new [] s s'
    /\ dispatches new = 1%nat /\ (invocations new <= 1)%nat.
Proof.
  unfold _execute_tool.
  set (s0 := snd (record (EvDispatch tool_name params) s)).
  assert (H0 : advanced context [EvDispatch tool_name params] [] s s0).
  { unfold advanced, s0. simpl. rewrite List.app_nil_r. auto. }
  rewrite (bind_ret_eq _ _ s tt s0) by reflexivity.
  destruct (Dict.get (_tool_mapping self) tool_name) as [tool_info|].
  - unfold try_except.
    pose proof (keeps_execute_body rt self tool_name (Tool.adapter tool_info) params s0)
      as Hk.
    destruct (execute_body rt self tool_name (Tool.adapter tool_info) params s0)
      as [[v|e] s1]; simpl in Hk;
      destruct (calm_advanced context 1 s0 s1 Hk) as (new & Ha & Hd & Hi);
      eexists _, s1, (_ :: new); (split; [reflexivity|]);
      (split; [exact (advanced_trans context _ _ [] [] s s0 s1 H0 Ha)|]);
      unfold dispatches, invocations in *; simpl; split; lia.
  - exists (error_only ("Unknown tool: " +:+ tool_name)), s0, [EvDispatch tool_name params].
    repeat split; try apply H0; auto.
Qed.

(** The stages of the [try] block one by one: an exception of the
    import other than an [ImportError], of the constructor of the adapter,
    or of the operation comes back as the structured error. An
    [ImportError] is handled by [_load_adapter_class] itself, which then
    reports that the adapter cannot be loaded. *)
Lemma import_exception_is_returned tool_name tool_info params row e w (s : State World) :
  Dict.get (_tool_mapping self) tool_name = Some tool_info ->
  Dict.get (_tool_cache s) (Tool.adapter tool_info) = None ->
  MemoryDB.select_adapter (memory_db self) (Tool.adapter tool_info) = Some row ->
  import_module rt (adapter_module_path (Tool.adapter tool_info)) (world s) = (Raise e, w) ->
  isinstance e "ImportError" = false ->
  fst (_execute_tool rt self tool_name params s)
  = Ret (structured_error e tool_name params).
Proof.
  intros Hinfo Hcache Hrow Himport Hcls. unfold _execute_tool.
  rewrite (bind_ret_eq _ _ s tt (snd (record (EvDispatch tool_name params) s)))
    by reflexivity.
  rewrite Hinfo.
  unfold try_except, execute_body, resolve_adapter, cached_adapter, bind at 1 2.
  simpl. rewrite Hcache.
  unfold _load_adapter_class. rewrite Hrow.
  unfold try_except_only, try_except, bind, external. simpl.
  rewrite Himport, Hcls. reflexivity.
Qed.

Lemma constructor_exception_is_returned tool_name tool_info params cls e w
    (s s1 : State World) :
  Dict.get (_tool_mapping self) tool_name = Some tool_info ->
  Dict.get (_tool_cache s) (Tool.adapter tool_info) = None ->
  _load_adapter_class rt self (Tool.adapter tool_info)
    (snd (record (EvDispatch tool_name params) s)) = (Ret (Some cls), s1) ->
  construct cls (world s1) = (Raise e, w) ->
  fst (_execute_tool rt self tool_name params s)
  = Ret (structured_error e tool_name params).
Proof.
  intros Hinfo Hcache Hload Hconstruct. unfold _execute_tool.
  rewrite (bind_ret_eq _ _ s tt (snd (record (EvDispatch tool_name params) s)))
    by reflexivity.
  rewrite Hinfo.
  unfold try_except, execute_body, resolve_adapter, cached_adapter, bind at 1 2.
  simpl. rewrite Hcache. rewrite (bind_ret_eq _ _ _ _ _ Hload).
  unfold bind, external. rewrite Hconstruct. reflexivity.
Qed.

Lemma operation_exception_is_returned tool_name tool_info params adapter sig run
    valid_params args e w (s s1 : State World) :
  Dict.get (_tool_mapping self) tool_name = Some tool_info ->
  resolve_adapter rt self (Tool.adapter tool_info)
    (snd (record (EvDispatch tool_name params) s)) = (Ret (Some adapter), s1) ->
  getattr adapter (last_segment "." tool_name) = Some (Method sig run) ->
  bind_params sig params [] = Ret (inr valid_params) ->
  bind_call sig valid_params = Ret args ->
  run args (world s1) = (Raise e, w) ->
  fst (_execute_tool rt self tool_name params s)
  = Ret (structured_error e tool_name params).
Proof.
  intros Hinfo Hresolve Hattr Hparams Hcall Hrun. unfold _execute_tool.
  rewrite (bind_ret_eq _ _ s tt (snd (record (EvDispatch tool_name params) s)))
    by reflexivity.
  rewrite Hinfo. unfold try_except, execute_body.
  rewrite (bind_ret_eq _ _ _ _ _ Hresolve). rewrite Hattr.
  unfold bind at 1, lift at 1. rewrite Hparams.
  unfold call, bind, lift, record, external. rewrite Hcall. simpl.
  rewrite Hrun. reflexivity.
Qed.

(** Resolving the adapter raises only where the import or the
    constructor does. *)
Lemma resolve_adapter_raises tool_name adapter_name params e (s s1 : State World) :
  resolve_adapter rt self adapter_name s = (Raise e, s1) ->
  fails rt self tool_name adapter_name params s e.
Proof.
  unfold resolve_adapter, cached_adapter, _load_adapter_class, try_except_only,
    try_except, bind, external, cache_adapter, ret, raise. cbv beta.
  destruct (Dict.get (_tool_cache s) adapter_name) as [cached|] eqn:Ec; [discriminate|].
  destruct (MemoryDB.select_adapter (memory_db self) adapter_name) as [row|] eqn:Er;
    [|discriminate].
  destruct (import_module rt (adapter_module_path adapter_name) (world s))
    as [[module|e'] w] eqn:Ei.
  - cbn [world]. destruct (module (MemoryDB.a_class_name row)) as [cls|] eqn:Em;
      [|discriminate].
    cbn [world lists _tool_cache trace].
    destruct (construct cls w) as [[adapter|e'] w'] eqn:Econ; [discriminate|].
    intros H. injection H as <- _.
    exact (constructor_fails rt self _ _ _ _ row module cls e' w w' Ec Er Ei Em Econ).
  - destruct (isinstance e' "ImportError") eqn:Ecls; [discriminate|].
    intros H. injection H as <- _.
    exact (import_fails rt self _ _ _ _ row e' w Ec Er Ei Ecls).
Qed.

(** Every exception of the [try] block is one of the failures. *)
Lemma execute_body_raises tool_name adapter_name params e (s s' : State World) :
  execute_body rt self tool_name adapter_name params s = (Raise e, s') ->
  fails rt self tool_name adapter_name params s e.
Proof.
  unfold execute_body. unfold bind at 1.
  destruct (resolve_adapter rt self adapter_name s) as [[[adapter|]|e'] s1] eqn:Eres.
  - destruct (getattr adapter (last_segment "." tool_name)) as [[sig run|v]|] eqn:Ea.
    + unfold bind at 1, lift.
      destruct (bind_params sig params []) as [[missing|valid_params]|e'] eqn:Eb.
      * discriminate.
      * unfold call, bind, lift, record, external.
        destruct (bind_call sig valid_params) as [args|e'] eqn:Ecall.
        { cbn [world fst snd].
          destruct (run args (world s1)) as [[v|e'] w] eqn:Erun; [discriminate|].
          intros H. injection H as <- _.
          exact (operation_fails rt self _ _ _ _ adapter s1 sig run valid_params args e' w
                   Eres Ea Eb Ecall Erun). }
        { intros H. injection H as <- _.
          exact (call_fails rt self _ _ _ _ adapter s1 sig run valid_params e'
                   Eres Ea Eb Ecall). }
      * intros H. injection H as <- _.
        exact (params_fail rt self _ _ _ _ adapter s1 sig run e' Eres Ea Eb).
    + intros H. injection H as <- _.
      exact (attribute_is_not_callable rt self _ _ _ _ adapter s1 v Eres Ea).
    + discriminate.
  - discriminate.
  - intros H. injection H as <- <-.
    exact (resolve_adapter_raises tool_name adapter_name params e' s s1 Eres).
Qed.

(** Every failure is an exception of the [try] block. *)
Lemma fails_raises tool_name adapter_name params e (s : State World) :
  fails rt self tool_name adapter_name params s e ->
  exists s', execute_body rt self tool_name adapter_name params s = (Raise e, s').
Proof.
  intros H. destruct H
    as [row e w Ec Er Ei Ecls
       |row module cls e w w' Ec Er Ei Em Econ
       |adapter s1 v Eres Ea
       |adapter s1 sig run e Eres Ea Eb
       |adapter s1 sig run valid_params e Eres Ea Eb Ecall
       |adapter s1 sig run valid_params args e w Eres Ea Eb Ecall Erun].
  - unfold execute_body, resolve_adapter, cached_adapter, _load_adapter_class,
      try_except_only, try_except, bind, external, raise. cbv beta.
    rewrite Ec, Er, Ei, Ecls. eexists. reflexivity.
  - unfold execute_body, resolve_adapter, cached_adapter, _load_adapter_class,
      try_except_only, try_except, bind, external, ret. cbv beta.
    rewrite Ec, Er, Ei. cbn [world]. rewrite Em.
    cbn [world lists _tool_cache trace]. rewrite Econ. eexists. reflexivity.
  - unfold execute_body. rewrite (bind_ret_eq _ _ _ _ _ Eres), Ea. eexists. reflexivity.
  - unfold execute_body. rewrite (bind_ret_eq _ _ _ _ _ Eres), Ea.
    unfold bind, lift. rewrite Eb. eexists. reflexivity.
  - unfold execute_body. rewrite (bind_ret_eq _ _ _ _ _ Eres), Ea.
    unfold bind at 1, lift at 1. rewrite Eb.
    unfold call, bind, lift. rewrite Ecall. eexists. reflexivity.
  - unfold execute_body. rewrite (bind_ret_eq _ _ _ _ _ Eres), Ea.
    unfold bind at 1, lift at 1. rewrite Eb.
    unfold call, bind, lift, record, external. rewrite Ecall. cbn [world fst snd].
    rewrite Erun. eexists. reflexivity.
Qed.

(** An [ImportError] does not reach the handler of the dispatcher. *)
Lemma import_error_is_reported tool_name tool_info params row e w (s : State World) :
  Dict.get (_tool_mapping self) tool_name = Some tool_info ->
  Dict.get (_tool_cache s) (Tool.adapter tool_info) = None ->
  MemoryDB.select_adapter (memory_db self) (Tool.adapter tool_info) = Some row ->
  import_module rt (adapter_module_path (Tool.adapter tool_info)) (world s) = (Raise e, w) ->
  isinstance e "ImportError" = true ->
  fst (_execute_tool rt self tool_name params s)
  = Ret (error_only ("Could not load adapter: " +:+ Tool.adapter tool_info)).
Proof.
  intros Hinfo Hcache Hrow Himport Hcls.
  unfold _execute_tool, try_except, execute_body, resolve_adapter, cached_adapter,
    _load_adapter_class, try_except_only, try_except, bind, record, external, ret, raise.
  cbv beta. rewrite Hinfo. cbn [_tool_cache world]. rewrite Hcache, Hrow.
  cbn [world lists _tool_cache trace]. rewrite Himport, Hcls. reflexivity.
Qed.

End Dispatcher.

(** C7, amended. The dispatcher never lets an exception out: it returns
    a value for every tool name, every params and every state. For a
    registered tool, the exceptions of its [try] block are exactly these:
    the import of the adapter's module raises something other than an
    [ImportError], the constructor of the adapter raises, the attribute
    is not callable, params cannot be read, the arguments do not fit the
    signature, the operation raises. Each comes back as the dict that
    carries the message of the exception, the name of its class, the
    tool name and the params as they came. An [ImportError] of the
    import does not: [_load_adapter_class] handles it, and the
    dispatcher returns the plain error that the adapter could not be
    loaded. *)
Theorem execute_tool_never_raises {World : Type} (rt : Runtime World)
    (self : Orchestrator World) (tool_name : string) (params : value)
    (s : State World) :
  (exists v, fst (_execute_tool rt self tool_name params s) = Ret v)
  /\ forall tool_info,
       Dict.get (_tool_mapping self) tool_name = Some tool_info ->
       let adapter_name := Tool.adapter tool_info in
       let entered := snd (record (EvDispatch tool_name params) s) in
       (forall e,
          fails rt self tool_name adapter_name params entered e ->
          fst (_execute_tool rt self tool_name params s)
          = Ret (PDict [("error", PStr (exc_msg e));
                        ("exception_type", PStr (exc_class e));
                        ("tool", PStr tool_name);
                        ("params", params)]))
       /\ (forall e s',
             execute_body rt self tool_name adapter_name params entered = (Raise e, s') ->
             fails rt self tool_name adapter_name params entered e)
       /\ (forall row e w,
             Dict.get (_tool_cache s) adapter_name = None ->
             MemoryDB.select_adapter (memory_db self) adapter_name = Some row ->
             import_module rt (adapter_module_path adapter_name) (world s) = (Raise e, w) ->
             isinstance e "ImportError" = true ->
             fst (_execute_tool rt self tool_name params s)
             = Ret (PDict [("error", PStr ("Could not load adapter: " +:+ adapter_name))])).
Proof.
  split.
  - destruct (execute_tool_spec rt self 0%nat tool_name params s)
      as (v & s' & new & He & _). exists v. rewrite He. reflexivity.
  - intros tool_info Hinfo. cbv zeta. split; [|split].
    + intros e Hfails.
      destruct (fails_raises rt self _ _ _ _ _ Hfails) as (s' & Hbody).
      unfold _execute_tool.
      rewrite (bind_ret_eq _ _ s tt (snd (record (EvDispatch tool_name params) s)))
        by reflexivity.
      rewrite Hinfo. unfold try_except. rewrite Hbody. reflexivity.
    + intros e s' Hbody. exact (execute_body_raises rt self _ _ _ _ _ _ Hbody).
    + intros row e w Hcache Hrow Himport Hcls.
      exact (import_error_is_reported rt self tool_name tool_info params row e w s
               Hinfo Hcache Hrow Himport Hcls).
Qed.

(** ** The orchestration loop *)

Section Loop.
Context {World : Type} (rt : Runtime World) (self : Orchestrator World).

Lemma tool_loop_S fuel context response count :
  tool_loop rt self (S fuel) context response count
  = match response with
    | ToolCall tool_name params confirm =>
        if count <? 3 then
          bind (_execute_tool rt self tool_name params) (fun tool_result =>
          let tool_call_msg :=
            "Called " +:+ tool_name +:+ " with params: " +:+ str rt params in
          bind (append context
                  [("role", PStr "assistant"); ("content", PStr tool_call_msg)]) (fun _ =>
          bind (append context
                  [("role", PStr "system"); ("content", PStr (str rt tool_result))]) (fun _ =>
          bind (ask_model rt self context) (fun response =>
          bind (interpret rt self response) (fun response =>
          tool_loop rt self fuel context response (count + 1))))))
        else ret (Some response)
    | Reply _ => ret (Some response)
    end.
Proof. reflexivity. Qed.

Ltac tally :=
  rewrite ?dispatches_app, ?invocations_app, ?List.length_app in *;
  unfold dispatches, invocations in *; simpl in *; try lia.

(** Each run of the loop body is one dispatch and two appended messages,
    and the count bounds the dispatches still to come. *)
Lemma tool_loop_advances context fuel :
  forall response count (s : State World),
  exists new added,
    advanced context new added s
      (snd (tool_loop rt self fuel context response count s))
    /\ length added = (2 * dispatches new)%nat
    /\ (invocations new <= dispatches new)%nat
    /\ Z.of_nat (dispatches new) <= Z.max 0 (3 - count)
    /\ tool_exchange added.
Proof.
  induction fuel as [|fuel IH]; intros response count s.
  { exists [], []. simpl. split; [apply advanced_refl|].
    repeat split; try constructor; tally. }
  rewrite tool_loop_S.
  destruct response as [text|tool_name params confirm].
  { exists [], []. simpl. split; [apply advanced_refl|].
    repeat split; try constructor; tally. }
  destruct (count <? 3) eqn:Hc.
  2:{ exists [], []. simpl. split; [apply advanced_refl|].
      repeat split; try constructor; tally. }
  apply Z.ltb_lt in Hc.
  destruct (execute_tool_spec rt self context tool_name params s)
    as (v & s1 & n1 & He & Ha1 & Hd1 & Hi1).
  rewrite (bind_ret_eq _ _ _ _ _ He). cbv zeta.
  set (m1 := [("role", PStr "assistant");
              ("content", PStr ("Called " +:+ tool_name +:+ " with params: "
                                +:+ str rt params))]).
  set (m2 := [("role", PStr "system"); ("content", PStr (str rt v))]).
  rewrite (bind_ret_eq _ _ s1 tt (snd (append context m1 s1))) by reflexivity.
  pose proof (advanced_append context m1 s1) as Ha2.
  set (s2 := snd (append context m1 s1)) in *.
  rewrite (bind_ret_eq _ _ s2 tt (snd (append context m2 s2))) by reflexivity.
  pose proof (advanced_append context m2 s2) as Ha3.
  set (s3 := snd (append context m2 s2)) in *.
  pose proof (advanced_trans _ _ _ _ _ _ _ _ Ha1
                (advanced_trans _ _ _ _ _ _ _ _ Ha2 Ha3)) as Ha.
  simpl in Ha. clear Ha1 Ha2 Ha3.
  pose proof (keeps_ask_model rt self context s3) as Hk.
  destruct (ask_model rt self context s3) as [[r|e] s4] eqn:Eask; simpl in Hk;
    destruct (calm_advanced context _ _ _ Hk) as (n4 & Ha4 & Hd4 & Hi4).
  2:{ rewrite (bind_raise_eq _ _ _ _ _ Eask). simpl.
      eexists _, _. split; [exact (advanced_trans _ _ _ _ _ _ _ _ Ha Ha4)|].
      repeat split; try (repeat constructor); tally. }
  rewrite (bind_ret_eq _ _ _ _ _ Eask).
  pose proof (keeps_interpret rt self r s4) as Hk5.
  destruct (interpret rt self r s4) as [[r'|e] s5] eqn:Eint; simpl in Hk5;
    destruct (calm_advanced context _ _ _ Hk5) as (n5 & Ha5 & Hd5 & Hi5).
  2:{ rewrite (bind_raise_eq _ _ _ _ _ Eint). simpl.
      eexists _, _. split;
        [exact (advanced_trans _ _ _ _ _ _ _ _ Ha
                  (advanced_trans _ _ _ _ _ _ _ _ Ha4 Ha5))|].
      repeat split; try (repeat constructor); tally. }
  rewrite (bind_ret_eq _ _ _ _ _ Eint).
  destruct (IH r' (count + 1) s5) as (n6 & a6 & Ha6 & Hl6 & Hi6 & Hb6 & Hx6).
  eexists _, _. split;
    [exact (advanced_trans _ _ _ _ _ _ _ _ Ha
              (advanced_trans _ _ _ _ _ _ _ _ Ha4
                 (advanced_trans _ _ _ _ _ _ _ _ Ha5 Ha6)))|].
  repeat split; try (simpl; constructor; exact Hx6); tally.
Qed.

(** With more fuel than rounds are left, the loop does not run out. *)
Lemma tool_loop_fuel context fuel :
  forall response count (s : State World),
  (Z.to_nat (3 - count) < fuel)%nat ->
  fst (tool_loop rt self fuel context response count s) <> Ret None.
Proof.
  induction fuel as [|fuel IH]; intros response count s Hfuel; [lia|].
  rewrite tool_loop_S.
  destruct response as [text|tool_name params confirm]; [discriminate|].
  destruct (count <? 3) eqn:Hc; [|discriminate].
  apply Z.ltb_lt in Hc. unfold bind at 1.
  destruct (_execute_tool rt self tool_name params s) as [[v|e] s1]; [|discriminate].
  cbv beta zeta.
  match goal with
  | |- context [bind (append context ?m) _ s1] =>
      rewrite (bind_ret_eq _ _ s1 tt (snd (append context m s1))) by reflexivity;
      set (s2 := snd (append context m s1))
  end.
  match goal with
  | |- context [bind (append context ?m) _ s2] =>
      rewrite (bind_ret_eq _ _ s2 tt (snd (append context m s2))) by reflexivity;
      set (s3 := snd (append context m s2))
  end.
  unfold bind at 1.
  destruct (ask_model rt self context s3) as [[r|e] s4]; [|discriminate].
  unfold bind at 1.
  destruct (interpret rt self r s4) as [[r'|e] s5]; [|discriminate].
  apply IH. lia.
Qed.

(** Every step after the loop leaves the state alone. *)
Lemma process_message_state fuel context (s : State World) :
  snd (process_message_fuel rt self fuel context s) = s
  \/ exists new added,
       advanced context new added s (snd (process_message_fuel rt self fuel context s))
       /\ length added = (2 * dispatches new)%nat
       /\ (invocations new <= dispatches new)%nat
       /\ (dispatches new <= 3)%nat
       /\ tool_exchange added.
Proof.
  unfold process_message_fuel.
  rewrite (bind_ret_eq _ _ s (lists s !!! context) s) by reflexivity.
  destruct (lists s !!! context) as [|msg rest]; [left; reflexivity|]. right.
  pose proof (keeps_ask_model rt self context s) as Hk.
  destruct (ask_model rt self context s) as [[r|e] s1] eqn:Eask; simpl in Hk;
    destruct (calm_advanced context _ _ _ Hk) as (n1 & Ha1 & Hd1 & Hi1).
  2:{ rewrite (bind_raise_eq _ _ _ _ _ Eask). simpl.
      exists n1, []. repeat split; try apply Ha1; try constructor; tally. }
  rewrite (bind_ret_eq _ _ _ _ _ Eask). unfold try_except.
  pose proof (keeps_interpret rt self r s1) as Hk2.
  destruct (interpret rt self r s1) as [[r'|e] s2] eqn:Eint; simpl in Hk2;
    destruct (calm_advanced context _ _ _ Hk2) as (n2 & Ha2 & Hd2 & Hi2).
  2:{ rewrite (bind_raise_eq _ _ _ _ _ Eint). simpl.
      eexists _, _. split; [exact (advanced_trans _ _ _ _ _ _ _ _ Ha1 Ha2)|].
      repeat split; try constructor; tally. }
  rewrite (bind_ret_eq _ _ _ _ _ Eint).
  destruct (tool_loop_advances context fuel r' 0 s2)
    as (n3 & a3 & Ha3 & Hl3 & Hi3 & Hb3 & Hx3).
  assert (Hstate :
    snd (match bind (tool_loop rt self fuel context r' 0)
                 (fun final => match final with
                               | Some response =>
                                   bind (lift (text_of response))
                                        (fun text => ret (Some text))
                               | None => ret None
                               end) s2
         with
         | (Ret a, s') => (Ret a, s')
         | (Raise e, s') =>
             ret (Some (PStr ("Error processing request: " +:+ exc_msg e))) s'
         end)
    = snd (tool_loop rt self fuel context r' 0 s2)).
  { unfold bind, lift, ret.
    destruct (tool_loop rt self fuel context r' 0 s2) as [[[[t|t p c]|]|e] s3];
      reflexivity. }
  rewrite Hstate.
  eexists _, _. split;
    [exact (advanced_trans _ _ _ _ _ _ _ _ Ha1
              (advanced_trans _ _ _ _ _ _ _ _ Ha2 Ha3))|].
  repeat split; try exact Hx3; tally.
Qed.

(** [process_message] has all the fuel it needs: it never reports that
    the loop ran out. *)
Lemma process_message_terminates context (s : State World) :
  fst (process_message rt self context s) <> Ret None.
Proof.
  unfold process_message, process_message_fuel.
  rewrite (bind_ret_eq _ _ s (lists s !!! context) s) by reflexivity.
  destruct (lists s !!! context) as [|msg rest]; [discriminate|].
  unfold bind at 1.
  destruct (ask_model rt self context s) as [[r|e] s1]; [|discriminate].
  unfold try_except. unfold bind at 1.
  destruct (interpret rt self r s1) as [[r'|e] s2]; [|discriminate].
  pose proof (tool_loop_fuel context 4 r' 0 s2 ltac:(simpl; lia)) as Hfuel.
  unfold bind at 1.
  destruct (tool_loop rt self 4 context r' 0 s2) as [[[response|]|e] s3];
    [| contradiction | discriminate].
  unfold bind, lift, ret. destruct (text_of response); discriminate.
Qed.

End Loop.

(** C1. One call of [process_message] enters the dispatcher at most three
    times and runs at most three tool operations, whatever the model
    answers, whatever the tools do and whatever state the call starts
    in: the events the call adds to the trace hold at most three
    dispatches. *)
Theorem process_message_dispatch_bound {World : Type} (rt : Runtime World)
    (self : Orchestrator World) (context : loc) (s : State World) :
  exists new,
    trace (snd (process_message rt self context s)) = (trace s ++ new)%list
    /\ (dispatches new <= 3)%nat
    /\ (invocations new <= 3)%nat.
Proof.
  unfold process_message.
  destruct (process_message_state rt self 4 context s)
    as [-> | (new & added & (Ht & _) & _ & Hi & Hd & _)].
  - exists []. rewrite List.app_nil_r. repeat split; unfold dispatches, invocations; simpl; lia.
  - exists new. repeat split; auto; lia.
Qed.

(** C8, as the code has it. The orchestrator keeps no copy of the
    history: the messages of a call are appended to the list object the
    caller passed. When the call returns, that list is what it was,
    followed by one assistant message and one system message for every
    dispatch of the call; no other list object has changed. *)
Theorem process_message_appends_in_place {World : Type} (rt : Runtime World)
    (self : Orchestrator World) (context : loc) (s : State World) :
  let s' := snd (process_message rt self context s) in
  exists new added,
    trace s' = (trace s ++ new)%list
    /\ lists s' !!! context = ((lists s !!! context) ++ added)%list
    /\ tool_exchange added
    /\ length added = (2 * dispatches new)%nat
    /\ (dispatches new <= 3)%nat
    /\ forall l : loc, l <> context -> lists s' !!! l = lists s !!! l.
Proof.
  cbv zeta. unfold process_message.
  destruct (process_message_state rt self 4 context s)
    as [-> | (new & added & (Ht & Hc & Ho) & Hl & Hi & Hd & Hx)].
  - exists [], []. rewrite !List.app_nil_r.
    repeat split; try constructor; unfold dispatches; simpl; lia.
  - exists new, added. repeat split; auto.
Qed.

(** C10. On an empty context [process_message] answers at once: the
    state it returns is the state it was given, so nothing was asked of
    the model, nothing interpreted and no tool touched. *)
Theorem process_message_empty_context {World : Type} (rt : Runtime World)
    (self : Orchestrator World) (context : loc) (s : State World) :
  lists s !!! context = [] ->
  process_message rt self context s
  = (Ret (Some (PStr "Error: No context provided")), s).
Proof.
  intros Hempty. unfold process_message, process_message_fuel.
  rewrite (bind_ret_eq _ _ s (lists s !!! context) s) by reflexivity.
  rewrite Hempty. reflexivity.
Qed.

(** ** The interpreter *)

Lemma starts_with_app (k rest : string) : starts_with k (k +:+ rest) = true.
Proof.
  induction k as [|c k IH]; simpl; [reflexivity|].
  rewrite Ascii.eqb_refl. exact IH.
Qed.

Lemma is_infix_here (k rest : string) : is_infix k (k +:+ rest) = true.
Proof.
  destruct k; simpl.
  - destruct rest; reflexivity.
  - rewrite Ascii.eqb_refl, starts_with_app. reflexivity.
Qed.

Lemma is_infix_later (k a b : string) :
  is_infix k b = true -> is_infix k (a +:+ b) = true.
Proof.
  intros Hb. induction a as [|c a IH]; simpl; [exact Hb|].
  rewrite IH. apply orb_true_r.
Qed.

Lemma string_app_nil_r (a : string) : a +:+ EmptyString = a.
Proof.
  induction a as [|x a IH]; [reflexivity|].
  change (String x (a +:+ EmptyString) = String x a). f_equal. exact IH.
Qed.

(** A joined list shows each of its parts. *)
Lemma join_shows (sep k : string) (parts : list string) :
  In k parts -> is_infix k (join sep parts) = true.
Proof.
  induction parts as [|p parts IH]; [contradiction|].
  intros [->|Hin].
  - destruct parts; simpl.
    + rewrite <- (string_app_nil_r k) at 2. apply is_infix_here.
    + apply is_infix_here.
  - specialize (IH Hin). destruct parts; [contradiction|].
    change (join sep (p :: s :: parts)) with (p +:+ sep +:+ join sep (s :: parts)).
    apply is_infix_later, is_infix_later. exact IH.
Qed.

(** C5. A JSON object whose [type] is [reply], in any letter case, is
    interpreted as a reply whose text is the value of the [text] field
    as it stands, and the empty string when there is no such field. *)
Theorem reply_text_exact {World : Type} (rt : Runtime World)
    (self : Orchestrator World) (response : string) (data : Dict.t value)
    (type : string) :
  Json.loads response = Ret (PDict data) ->
  Dict.get data "type" = Some (PStr type) ->
  equal_ignoring_case type "reply" ->
  _handle_model_response rt self response
  = Ret (Reply match Dict.get data "text" with
               | Some text => text
               | None => PStr EmptyString
               end).
Proof.
  intros Hloads Htype Hreply. unfold _handle_model_response.
  rewrite Hloads. unfold Dict.get_default. rewrite Htype.
  unfold equal_ignoring_case in Hreply. simpl in Hreply. rewrite Hreply.
  reflexivity.
Qed.

(** C4. A JSON object whose [type] is [tool_call] and whose [tool] is a
    non-empty name the registry does not have is interpreted as a reply;
    its text lists the registered names, each of which can be read in
    it; and the loop that receives this reply ends without entering the
    dispatcher, in the first round as in any later one: the only event
    is the interpretation itself. *)
Theorem unknown_tool_reply {World : Type} (rt : Runtime World)
    (self : Orchestrator World) (response : string) (data : Dict.t value)
    (type name : string) :
  Json.loads response = Ret (PDict data) ->
  Dict.get data "type" = Some (PStr type) ->
  equal_ignoring_case type "tool_call" ->
  Dict.get data "tool" = Some (PStr name) ->
  name <> EmptyString ->
  Dict.mem (_tool_mapping self) name = false ->
  let text := "Error: Unknown tool '" +:+ name +:+ "'. Available tools: "
              +:+ join ", " (Dict.keys (_tool_mapping self)) in
  _handle_model_response rt self response = Ret (Reply (PStr text))
  /\ (forall k, In k (Dict.keys (_tool_mapping self)) -> is_infix k text = true)
  /\ (forall fuel context count (s : State World),
        bind (interpret rt self response)
             (fun r => tool_loop rt self (S fuel) context r count) s
        = (Ret (Some (Reply (PStr text))),
           {| world := world s; lists := lists s; _tool_cache := _tool_cache s;
              trace := (trace s ++ [EvInterpret response])%list |}))
  /\ (forall context (s s1 : State World),
        lists s !!! context <> [] ->
        ask_model rt self context s = (Ret response, s1) ->
        process_message rt self context s
        = (Ret (Some (PStr text)),
           {| world := world s1; lists := lists s1; _tool_cache := _tool_cache s1;
              trace := (trace s1 ++ [EvInterpret response])%list |})).
Proof.
  intros Hloads Htype Hcall Htool Hname Hmem text.
  assert (Hinterp : _handle_model_response rt self response = Ret (Reply (PStr text))).
  { unfold _handle_model_response. rewrite Hloads. unfold Dict.get_default.
    rewrite Htype. unfold equal_ignoring_case in Hcall. simpl in Hcall.
    rewrite Hcall. simpl String.eqb. cbv iota. rewrite Htool.
    simpl truthy. apply String.eqb_neq in Hname. rewrite Hname. simpl negb.
    cbv iota. rewrite Hmem. reflexivity. }
  assert (Hloop : forall fuel context count (s : State World),
    bind (interpret rt self response)
         (fun r => tool_loop rt self (S fuel) context r count) s
    = (Ret (Some (Reply (PStr text))),
       {| world := world s; lists := lists s; _tool_cache := _tool_cache s;
          trace := (trace s ++ [EvInterpret response])%list |})).
  { intros fuel context count s. unfold interpret, bind, record, lift.
    rewrite Hinterp. reflexivity. }
  repeat split.
  - exact Hinterp.
  - intros k Hk. unfold text. apply is_infix_later, is_infix_later, is_infix_later.
    apply join_shows. exact Hk.
  - exact Hloop.
  - intros context s s1 Hne Hask. unfold process_message, process_message_fuel.
    rewrite (bind_ret_eq _ _ s (lists s !!! context) s) by reflexivity.
    destruct (lists s !!! context) as [|msg rest]; [contradiction|].
    rewrite (bind_ret_eq _ _ _ _ _ Hask). unfold try_except.
    unfold interpret, bind, record, lift. rewrite Hinterp. reflexivity.
Qed.

(** C3, where the code falls short. Text that parses as JSON without
    being an object of the expected shape makes the interpreter raise:
    an array has no [get], a number has no [lower], a list is not
    hashable. This holds for every runtime and every registry. *)
Theorem interpreter_raises_on_unexpected_json {World : Type} (rt : Runtime World)
    (self : Orchestrator World) :
  _handle_model_response rt self "[]" = Raise (AttributeError (PList []) "get")
  /\ _handle_model_response rt self (dq "{'type': 5}")
     = Raise (AttributeError (PInt 5) "lower")
  /\ _handle_model_response rt self (dq "{'type': 'tool_call', 'tool': ['x']}")
     = Raise (TypeError "unhashable type: 'list'").
Proof. repeat split. Qed.

(** ** Parameter binding *)

Module DictFacts.
Section Facts.
Context {V : Type}.
Implicit Types (d : Dict.t V) (k : string) (v : V).


Lemma get_none d k : Dict.get d k = None <-> ~ In k (Dict.keys d).
Proof.
  induction d as [|[k' v'] d IH]; simpl; [tauto|].
  destruct (String.eqb k' k) eqn:E.
  - apply String.eqb_eq in E. split; [discriminate | intros H; exfalso; auto].
  - apply String.eqb_neq in E. rewrite IH. tauto.
Qed.

Lemma get_some_in d k v : Dict.get d k = Some v -> In k (Dict.keys d).
Proof.
  intros H. destruct (in_dec string_dec k (Dict.keys d)) as [Hin|Hout]; [exact Hin|].
  apply get_none in Hout. congruence.
Qed.



Lemma mem_get d k : Dict.mem d k = match Dict.get d k with Some _ => true | None => false end.
Proof. reflexivity. Qed.


End Facts.
End DictFacts.

Section Binding.










End Binding.


(** What [spec_binding] hands to each parameter, and where it stops. *)
Lemma spec_bind_reads (all sig : list Param) (params : Dict.t value) :
  forall args,
  NoDup (map p_name sig) ->
  spec_bind all sig params = inr args ->
  forall p, In p sig ->
    match p_kind p with
    | VAR_POSITIONAL => Dict.get args (p_name p) = Some (PList [])
    | VAR_KEYWORD =>
        Dict.get args (p_name p) = Some (PDict (unbound_params all params))
    | _ =>
        match Dict.get params (p_name p) with
        | Some v => Dict.get args (p_name p) = Some v
        | None => exists d, p_default p = Some d /\ Dict.get args (p_name p) = Some d
        end
    end.
Proof.
  induction sig as [|q rest IH]; intros args Hnd Hspec p Hin; [contradiction|].
  simpl in Hnd. apply NoDup_cons in Hnd. destruct Hnd as [Hq Hnd].
  cbn [spec_bind] in Hspec.
  destruct (spec_bind all rest params) as [|bound] eqn:Hrest.
  { destruct (p_kind q); try discriminate;
      destruct (Dict.get params (p_name q)); destruct (p_default q); discriminate. }
  destruct Hin as [->|Hin].
  - destruct (p_kind p);
      try (inversion Hspec; subst; simpl; rewrite String.eqb_refl; reflexivity);
      destruct (Dict.get params (p_name p)); destruct (p_default p);
      inversion Hspec; subst; simpl; rewrite String.eqb_refl; eauto.
  - assert (Hne : String.eqb (p_name q) (p_name p) = false).
    { apply String.eqb_neq. intros E. apply Hq. rewrite E.
      apply list_elem_of_In. apply List.in_map. exact Hin. }
    specialize (IH bound Hnd eq_refl p Hin).
    assert (Hargs : exists v, args = (p_name q, v) :: bound).
    { destruct (p_kind q); try (inversion Hspec; eauto);
        destruct (Dict.get params (p_name q)); destruct (p_default q);
        inversion Hspec; eauto. }
    destruct Hargs as (v & ->). simpl. rewrite Hne. exact IH.
Qed.

Lemma spec_bind_stops (all sig : list Param) (params : Dict.t value) (missing : string) :
  spec_bind all sig params = inl missing ->
  exists p, In p sig /\ p_name p = missing /\ is_variadic p = false
            /\ Dict.get params missing = None /\ p_default p = None.
Proof.
  induction sig as [|q rest IH]; intros Hspec; [discriminate|].
  cbn [spec_bind] in Hspec.
  assert (Hcases :
    (is_variadic q = false /\ Dict.get params (p_name q) = None
     /\ p_default q = None /\ p_name q = missing)
    \/ spec_bind all rest params = inl missing).
  { unfold is_variadic.
    destruct (p_kind q);
      try (right; destruct (spec_bind all rest params); congruence);
      destruct (Dict.get params (p_name q)); destruct (p_default q);
      try (right; destruct (spec_bind all rest params); congruence);
      left; repeat split; congruence. }
  destruct Hcases as [(Hv & Hg & Hd & Hn)|Hrest].
  - exists q. subst missing. repeat split; auto. left. reflexivity.
  - destruct (IH Hrest) as (p & Hin & Hp). exists p. split; [right; exact Hin | exact Hp].
Qed.





(** ** The decoder raises nothing but [JSONDecodeError] *)

Module JsonFacts.
Import Json.

Ltac decode_error H :=
  repeat match type of H with
         | Raise _ = Raise _ => inversion H; subst; reflexivity
         | Ret _ = Raise _ => discriminate H
         | context [match ?x with _ => _ end] => destruct x
         end.

Lemma escape_raises c e : escape c = Raise e -> exc_class e = "JSONDecodeError".
Proof.
  unfold escape. intros H.
  destruct (ord c) as [|p]; [inversion H; reflexivity|].
  do 8 (try (destruct p as [p|p|]; try (inversion H; reflexivity))).
Qed.

Lemma idle_step_raises c acc e :
  idle_step c acc = Raise e -> exc_class e = "JSONDecodeError".
Proof. unfold idle_step. intros H. decode_error H. Qed.

Lemma lex_raises s :
  forall mode acc e, lex s mode acc = Raise e -> exc_class e = "JSONDecodeError".
Proof.
  induction s as [|c s IH]; intros mode acc e H; simpl in H.
  { destruct mode; inversion H; reflexivity. }
  destruct mode as [|ps|ps|ps ds|w].
  - destruct (idle_step c acc) as [[m a]|e'] eqn:E; [exact (IH _ _ _ H)|].
    inversion H; subst. exact (idle_step_raises _ _ _ E).
  - destruct (ord c =? 34)%N; [exact (IH _ _ _ H)|].
    destruct (ord c =? 92)%N; [exact (IH _ _ _ H)|].
    destruct (ord c <? 32)%N; [inversion H; reflexivity | exact (IH _ _ _ H)].
  - destruct (escape c) as [[c'|]|e'] eqn:E; try exact (IH _ _ _ H).
    inversion H; subst. exact (escape_raises _ _ E).
  - destruct (hex_val c); [|inversion H; reflexivity].
    destruct ds as [|d2 [|d1 [|d0 [|d ds]]]]; exact (IH _ _ _ H).
  - destruct (is_word_char c); [exact (IH _ _ _ H)|].
    destruct (idle_step c _) as [[m a]|e'] eqn:E; [exact (IH _ _ _ H)|].
    inversion H; subst. exact (idle_step_raises _ _ _ E).
Qed.

Lemma number_raises w e : number w = Raise e -> exc_class e = "JSONDecodeError".
Proof.
  unfold number, not_a_number. intros H.
  repeat match type of H with
         | Raise _ = Raise _ => inversion H; subst; reflexivity
         | Ret _ = Raise _ => discriminate H
         | context [let '(_, _) := ?x in _] => destruct x
         | context [if ?x then _ else _] => destruct x
         | context [match ?x with EmptyString => _ | String _ _ => _ end] => destruct x
         end.
Qed.

Lemma word_value_raises w e :
  word_value w = Raise e -> exc_class e = "JSONDecodeError".
Proof.
  unfold word_value. intros H.
  repeat match type of H with
         | context [if ?x then _ else _] => destruct x; [discriminate H|]
         end.
  exact (number_raises _ _ H).
Qed.

Lemma parse_raises ts :
  forall stack mode e, parse ts stack mode = Raise e -> exc_class e = "JSONDecodeError".
Proof.
  induction ts as [|t ts IH]; intros stack mode e H; simpl in H.
  { destruct mode; try discriminate H; inversion H; reflexivity. }
  unfold expecting in H.
  destruct mode as [[|]| [|] | | |v]; destruct t;
    try (destruct (word_value w) as [v'|e'] eqn:E;
         [|inversion H; subst; exact (word_value_raises _ _ E)]);
    try destruct stack as [|[items|d k] stack];
    try (inversion H; subst; reflexivity);
    try exact (IH _ _ _ H);
    try (destruct stack as [|[items'|d' k'] stack]; exact (IH _ _ _ H)).
Qed.

Lemma loads_raises s e : loads s = Raise e -> exc_class e = "JSONDecodeError".
Proof.
  unfold loads. destruct (lex s LIdle []) as [ts|e'] eqn:E; intros H.
  - exact (parse_raises _ _ _ _ H).
  - inversion H; subst. exact (lex_raises _ _ _ _ E).
Qed.

End JsonFacts.

(** Text that is not JSON never makes the interpreter raise: it is
    answered with a reply that carries the decoder's message. *)
Lemma malformed_json_is_reply {World : Type} (rt : Runtime World)
    (self : Orchestrator World) (response : string) (e : exn) :
  Json.loads response = Raise e ->
  _handle_model_response rt self response
  = Ret (Reply (PStr ("Invalid JSON response from model: " +:+ exc_msg e
                      +:+ ". Please try again."))).
Proof.
  intros H. unfold _handle_model_response. rewrite H.
  unfold isinstance. rewrite (JsonFacts.loads_raises _ _ H). reflexivity.
Qed.

(** X22. A JSON object whose [type] is missing or a string, and whose
    [tool] is not a list or a dict, never makes the interpreter raise: it
    returns a reply or a tool call. *)
Lemma well_shaped_object_is_action {World : Type} (rt : Runtime World)
    (self : Orchestrator World) (response : string) (data : Dict.t value) :
  Json.loads response = Ret (PDict data) ->
  (forall v, Dict.get data "type" = Some v -> exists type, v = PStr type) ->
  (forall v, Dict.get data "tool" = Some v -> hashable v = true) ->
  exists action, _handle_model_response rt self response = Ret action.
Proof.
  intros Hloads Htype Htool. unfold _handle_model_response, reply.
  rewrite Hloads. unfold Dict.get_default.
  destruct (Dict.get data "type") as [v|] eqn:Et.
  - destruct (Htype v eq_refl) as (type & ->).
    destruct (String.eqb (lower type) "reply"); [eauto|].
    destruct (String.eqb (lower type) "tool_call"); [|eauto].
    destruct (Dict.get data "tool") as [t|] eqn:Etool; [|simpl; eauto].
    specialize (Htool t eq_refl).
    destruct (negb (truthy t)); [eauto|].
    destruct t; simpl in Htool; try discriminate; eauto.
    destruct (negb (Dict.mem (_tool_mapping self) s)); eauto.
  - simpl. eauto.
Qed.

(** ** The first model call *)

(** An exception of the first prompt or the first model call leaves
    [process_message]: the [try] block starts after them. *)
Lemma first_call_exception_propagates {World : Type} (rt : Runtime World)
    (self : Orchestrator World) (context : loc) (s s1 : State World) (e : exn) :
  lists s !!! context <> [] ->
  ask_model rt self context s = (Raise e, s1) ->
  process_message rt self context s = (Raise e, s1).
Proof.
  intros Hne Hask. unfold process_message, process_message_fuel.
  rewrite (bind_ret_eq _ _ s (lists s !!! context) s) by reflexivity.
  destruct (lists s !!! context); [contradiction|].
  rewrite (bind_raise_eq _ _ _ _ _ Hask). reflexivity.
Qed.

(** Once the first answer of the model is there, [process_message]
    returns a value, whatever is raised afterwards. *)
Lemma later_exceptions_are_caught {World : Type} (rt : Runtime World)
    (self : Orchestrator World) (context : loc) (s s1 : State World)
    (response : string) :
  ask_model rt self context s = (Ret response, s1) ->
  exists v, fst (process_message rt self context s) = Ret (Some v).
Proof.
  intros Hask.
  pose proof (process_message_terminates rt self context s) as Hterm.
  unfold process_message, process_message_fuel in *.
  rewrite (bind_ret_eq _ _ s (lists s !!! context) s) in * by reflexivity.
  destruct (lists s !!! context); [simpl; eauto|].
  rewrite (bind_ret_eq _ _ _ _ _ Hask) in *. unfold try_except in *.
  match goal with
  | |- context [match ?m with _ => _ end] => destruct m as [[[v|]|e] s2]
  end; simpl in *; eauto. contradiction.
Qed.

(** * The properties on the concrete installation *)

Section OnTheInstallation.
Import Demo Cases.


(** The loop reaches its bound: three tool calls are dispatched, and the
    fourth, which the model still asks for, is not; the call ends on the
    missing [text] of that fourth answer. *)
Example three_rounds_then_stop :
  outcome_of orchestrator question
    [list_events; list_events; list_events; list_events; list_events]
  = Ret (Some (PStr "Error processing request: 'text'"))
  /\ dispatches (trace (final question
       [list_events; list_events; list_events; list_events; list_events])) = 3%nat
  /\ world (final question
       [list_events; list_events; list_events; list_events; list_events])
     = [list_events].
Proof. repeat split; vm_compute; reflexivity. Qed.

(** The calendar scenario of the specification. *)
Example calendar_scenario :
  outcome_of orchestrator question [list_events; no_events]
  = Ret (Some (PStr "You have no events tomorrow."))
  /\ history (final question [list_events; no_events])
     = question ++
       [[("role", PStr "assistant");
         ("content",
          PStr "Called google_calendar.list_events with params: {'days': 1}")];
        [("role", PStr "system"); ("content", PStr "[]")]].
Proof. repeat split; vm_compute; reflexivity. Qed.

(** C8, as stated, fails: after a call with one tool round the list the
    caller passed holds two messages more than before. *)
Lemma caller_history_is_changed :
  history (start question [list_events; no_events]) = question
  /\ length (history (final question [list_events; no_events])) = 3%nat
  /\ history (final question [list_events; no_events])
     <> history (start question [list_events; no_events]).
Proof.
  split; [vm_compute; reflexivity|].
  split; [vm_compute; reflexivity|].
  vm_compute. discriminate.
Qed.


(** C7, as stated, fails for the import: the module of the adapter
    [cloud] does not exist, the import raises a [ModuleNotFoundError],
    which is an [ImportError], and what the dispatcher returns carries
    neither the message of that exception nor the name of its class, the
    tool name or the params. *)
Lemma import_error_is_not_wrapped :
  let e := ModuleNotFoundError "omni_chat.adapters.cloud_adapter" in
  Dict.mem (_tool_mapping Samples.clouded) "cloud.sync" = true
  /\ import_module runtime (adapter_module_path "cloud") (world (start [] []))
     = (Raise e, [])
  /\ fst (_execute_tool runtime Samples.clouded "cloud.sync" (PDict []) (start [] []))
     = Ret (PDict [("error", PStr "Could not load adapter: cloud")])
  /\ fst (_execute_tool runtime Samples.clouded "cloud.sync" (PDict []) (start [] []))
     <> Ret (PDict [("error", PStr (exc_msg e));
                    ("exception_type", PStr (exc_class e));
                    ("tool", PStr "cloud.sync");
                    ("params", PDict [])]).
Proof.
  cbv zeta. split; [vm_compute; reflexivity|]. split; [vm_compute; reflexivity|].
  split; [vm_compute; reflexivity|]. vm_compute. discriminate.
Qed.

(** The example of the specification: [op(self, a, b=2)] called with [a]
    alone uses the default of [b]; called without [a], it is not run. *)
Example defaulted_and_missing :
  fst (_execute_tool runtime orchestrator "lab.op" (PDict [("a", PInt 1)]) (start [] []))
  = Ret (PDict [("a", PInt 1); ("b", PInt 2)])
  /\ fst (_execute_tool runtime orchestrator "lab.op" (PDict [("b", PInt 5)]) (start [] []))
     = Ret (PDict [("error", PStr "Missing required parameter: a")])
  /\ invocations
       (trace (snd (_execute_tool runtime orchestrator "lab.op" (PDict [("b", PInt 5)])
                      (start [] [])))) = 0%nat.
Proof. repeat split; vm_compute; reflexivity. Qed.

(** Failures at each stage of the dispatcher come back as data: the
    module of the adapter cannot be imported, the adapter has no such
    operation, the attribute is not callable, the operation raises. *)
Example dispatcher_failures :
  fst (_execute_tool runtime
         (init scripted (register "cloud" "CloudAdapter" ["sync"] MemoryDB.empty))
         "cloud.sync" (PDict []) (start [] []))
  = Ret (PDict [("error", PStr "Could not load adapter: cloud")])
  /\ fst (_execute_tool runtime orchestrator "lab.absent" (PDict []) (start [] []))
     = Ret (PDict [("error", PStr "Adapter 'lab' has no method 'absent'")])
  /\ fst (_execute_tool runtime orchestrator "google_calendar.name" (PDict []) (start [] []))
     = Ret (PDict [("error", PStr "'google_calendar' is not a callable object");
                   ("exception_type", PStr "TypeError");
                   ("tool", PStr "google_calendar.name");
                   ("params", PDict [])])
  /\ fst (_execute_tool runtime orchestrator "lab.boom" (PDict []) (start [] []))
     = Ret (PDict [("error", PStr "service unavailable");
                   ("exception_type", PStr "RuntimeError");
                   ("tool", PStr "lab.boom");
                   ("params", PDict [])]).
Proof. repeat split; vm_compute; reflexivity. Qed.

Lemma register_tool_idempotent_witness :
  let first :=
    MemoryDB.register_tool catalog 1 "list_events" "List events" "{}" false
      (Some "google_calendar.list_events") in
  let second :=
    MemoryDB.register_tool (snd first) 7 "events" "Other text" "{'days': 7}" true
      (Some "google_calendar.list_events") in
  MemoryDB.unique_full_names catalog
  /\ MemoryDB.effective_full_name 1 "list_events" (Some "google_calendar.list_events")
     = MemoryDB.effective_full_name 7 "events" (Some "google_calendar.list_events")
  /\ exists row : MemoryDB.tool_row,
       fst first = Ret (MemoryDB.t_id row)
       /\ fst second = Ret (MemoryDB.t_id row)
       /\ MemoryDB.tools (snd second) = MemoryDB.tools (snd first)
       /\ MemoryDB.tools_seq (snd second) = MemoryDB.tools_seq (snd first) + 1
       /\ List.filter
            (fun r => String.eqb (MemoryDB.t_full_name r) "google_calendar.list_events")
            (MemoryDB.tools (snd second)) = [row].
Proof.
  cbv zeta.
  assert (Hunique : MemoryDB.unique_full_names catalog).
  { unfold MemoryDB.unique_full_names. apply (bool_decide_unpack _). vm_compute. exact I. }
  split; [exact Hunique|]. split; [reflexivity|].
  destruct (register_tool_idempotent catalog 1 7 "list_events" "events"
              "List events" "Other text" "{}" "{'days': 7}" false true
              (Some "google_calendar.list_events") (Some "google_calendar.list_events")
              Hunique eq_refl)
    as (row & Hfirst & Hsecond & Htools & _ & _ & Hseq & Hrows & _).
  exists row. split; [exact Hfirst|]. split; [exact Hsecond|].
  split; [exact Htools|]. split; [exact Hseq | exact Hrows].
Defined.

Lemma process_message_empty_context_witness :
  lists (start [] [no_events]) !!! context = []
  /\ process_message runtime orchestrator context (start [] [no_events])
     = (Ret (Some (PStr "Error: No context provided")), start [] [no_events]).
Proof.
  split; [vm_compute; reflexivity|].
  apply (process_message_empty_context runtime orchestrator context (start [] [no_events])).
  vm_compute. reflexivity.
Defined.

Lemma reply_text_exact_witness :
  let response := dq "{'type': 'Reply', 'text': 'Hello'}" in
  let data := [("type", PStr "Reply"); ("text", PStr "Hello")] in
  Json.loads response = Ret (PDict data)
  /\ Dict.get data "type" = Some (PStr "Reply")
  /\ equal_ignoring_case "Reply" "reply"
  /\ _handle_model_response runtime orchestrator response = Ret (Reply (PStr "Hello")).
Proof.
  cbv zeta.
  split; [reflexivity|]. split; [reflexivity|]. split; [reflexivity|].
  exact (reply_text_exact runtime orchestrator
           (dq "{'type': 'Reply', 'text': 'Hello'}")
           [("type", PStr "Reply"); ("text", PStr "Hello")] "Reply"
           eq_refl eq_refl eq_refl).
Defined.

Lemma unknown_tool_reply_witness :
  let data := [("type", PStr "tool_call"); ("tool", PStr "ghost.do_thing");
               ("params", PDict [])] in
  let text := "Error: Unknown tool 'ghost.do_thing'. Available tools: google_calendar.list_events, google_calendar.name, lab.op, lab.collect, lab.boom, lab.strict, lab.absent" in
  Json.loads ghost = Ret (PDict data)
  /\ Dict.get data "type" = Some (PStr "tool_call")
  /\ equal_ignoring_case "tool_call" "tool_call"
  /\ Dict.get data "tool" = Some (PStr "ghost.do_thing")
  /\ "ghost.do_thing" <> EmptyString
  /\ Dict.mem (_tool_mapping orchestrator) "ghost.do_thing" = false
  /\ _handle_model_response runtime orchestrator ghost = Ret (Reply (PStr text))
  /\ outcome_of orchestrator question [ghost] = Ret (Some (PStr text))
  /\ dispatches (trace (final question [ghost])) = 0%nat.
Proof.
  cbv zeta.
  assert (Hname : "ghost.do_thing" <> EmptyString) by discriminate.
  destruct (unknown_tool_reply runtime orchestrator ghost
              [("type", PStr "tool_call"); ("tool", PStr "ghost.do_thing");
               ("params", PDict [])] "tool_call" "ghost.do_thing"
              eq_refl eq_refl eq_refl eq_refl Hname eq_refl)
    as (Hinterp & _ & _ & Hfirst).
  split; [reflexivity|]. split; [reflexivity|]. split; [reflexivity|].
  split; [reflexivity|]. split; [exact Hname|]. split; [reflexivity|].
  split; [exact Hinterp|].
  assert (Hask : ask_model runtime orchestrator context (start question [ghost])
                 = (Ret ghost,
                    snd (ask_model runtime orchestrator context (start question [ghost]))))
    by (vm_compute; reflexivity).
  assert (Hne : lists (start question [ghost]) !!! context <> [])
    by (vm_compute; discriminate).
  split.
  - unfold outcome_of. rewrite (Hfirst context _ _ Hne Hask). reflexivity.
  - unfold final. rewrite (Hfirst context _ _ Hne Hask). vm_compute. reflexivity.
Defined.


Lemma execute_tool_never_raises_witness :
  let tool_info :=
    {| Tool.name := "lab.boom"; Tool.description := "a tool"; Tool.example := "{}";
       Tool.side_effects := false; Tool.adapter := "lab" |} in
  let entered := snd (record (EvDispatch "lab.boom" (PDict [])) (start [] [])) in
  Dict.get (_tool_mapping orchestrator) "lab.boom" = Some tool_info
  /\ fails runtime orchestrator "lab.boom" "lab" (PDict []) entered
       (RuntimeError "service unavailable")
  /\ fst (_execute_tool runtime orchestrator "lab.boom" (PDict []) (start [] []))
     = Ret (PDict [("error", PStr "service unavailable");
                   ("exception_type", PStr "RuntimeError");
                   ("tool", PStr "lab.boom");
                   ("params", PDict [])]).
Proof.
  cbv zeta.
  assert (Hfails : fails runtime orchestrator "lab.boom" "lab" (PDict [])
                     (snd (record (EvDispatch "lab.boom" (PDict [])) (start [] [])))
                     (RuntimeError "service unavailable")).
  { eapply (operation_fails runtime orchestrator "lab.boom" "lab" (PDict []) _ lab _ []
              _ [] []); reflexivity. }
  split; [reflexivity|]. split; [exact Hfails|].
  destruct (execute_tool_never_raises runtime orchestrator "lab.boom" (PDict [])
              (start [] [])) as [_ Hcaught].
  destruct (Hcaught
              {| Tool.name := "lab.boom"; Tool.description := "a tool";
                 Tool.example := "{}"; Tool.side_effects := false;
                 Tool.adapter := "lab" |} eq_refl) as [Hstructured _].
  exact (Hstructured (RuntimeError "service unavailable") Hfails).
Defined.

End OnTheInstallation.

(** ** The decoder on sample texts *)

Example loads_object :
  Json.loads (dq "{'type': 'Reply', 'text': 'hé\n', 'n': [1, -2.50e1, true, null]}")
  = Ret (PDict [("type", PStr "Reply");
                ("text", PStr (String "h" (Json.utf8 233 +:+ String (ascii_of_nat 10) EmptyString)));
                ("n", PList [PInt 1; PFloat (FDec (-250) (-1)); PBool true; PNone])]).
Proof. vm_compute. reflexivity. Qed.

Example loads_duplicate_key :
  Json.loads (dq "{'a': 1, 'b': 2, 'a': 3}") = Ret (PDict [("a", PInt 3); ("b", PInt 2)]).
Proof. reflexivity. Qed.

Example loads_truncated :
  Json.loads (dq "{'type': 'reply', 'te") = Raise (JSONDecodeError "Unterminated string starting at").
Proof. reflexivity. Qed.

Example loads_not_json :
  Json.loads "Error generating response: quota" = Raise (JSONDecodeError "Expecting value").
Proof. reflexivity. Qed.

(** * Further properties *)

(** ** The message history *)

Module HistoryFacts.
Import History.

Lemma before_older (a b : row) : older a b -> before a b = false.
Proof.
  intros [Hid Hts]. unfold before. unfold String.leb in Hts.
  destruct (String.compare (m_timestamp a) (m_timestamp b)); try discriminate.
  - apply Z.ltb_ge. lia.
  - reflexivity.
Qed.

Lemma insert_last (r : row) (l : list row) :
  Forall (fun x => before r x = false) l -> insert r l = l ++ [r].
Proof.
  induction l as [|x l IH]; intros H; [reflexivity|].
  inversion H as [|? ? Hx Hl]; subst. simpl. rewrite Hx, (IH Hl). reflexivity.
Qed.

Lemma newest_first_ascending (l : list row) :
  ascending l -> newest_first l = rev l.
Proof.
  induction l as [|r l IH]; intros H; [reflexivity|].
  destruct H as [Hr Hl].
  change (newest_first (r :: l)) with (insert r (newest_first l)).
  rewrite (IH Hl). change (rev (r :: l)) with (rev l ++ [r]).
  apply insert_last. apply List.Forall_rev.
  eapply List.Forall_impl; [|exact Hr]. intros x Hx. exact (before_older _ _ Hx).
Qed.

Lemma insert_length (r : row) (l : list row) : length (insert r l) = S (length l).
Proof.
  induction l as [|x l IH]; simpl; [reflexivity|].
  destruct (before r x); simpl; [reflexivity | rewrite IH; reflexivity].
Qed.

Lemma newest_first_length (l : list row) : length (newest_first l) = length l.
Proof.
  induction l as [|r l IH]; [reflexivity|].
  change (newest_first (r :: l)) with (insert r (newest_first l)).
  rewrite insert_length, IH. reflexivity.
Qed.

Lemma insert_in (r x : row) (l : list row) : In x (insert r l) <-> x = r \/ In x l.
Proof.
  induction l as [|y l IH]; simpl; [intuition|].
  destruct (before r y); simpl; [intuition|]. rewrite IH. intuition.
Qed.

Lemma newest_first_in (x : row) (l : list row) : In x (newest_first l) <-> In x l.
Proof.
  induction l as [|r l IH]; [simpl; tauto|].
  change (newest_first (r :: l)) with (insert r (newest_first l)).
  rewrite insert_in, IH. simpl. intuition.
Qed.

Lemma ascending_app (l : list row) (r : row) :
  ascending l -> Forall (fun x => older x r) l -> ascending (l ++ [r]).
Proof.
  induction l as [|x l IH]; intros Hl Hr; simpl; [auto|].
  destruct Hl as [Hx Hl]. inversion Hr as [|? ? Hxr Hlr]; subst.
  split; [|exact (IH Hl Hlr)].
  apply List.Forall_app. split; [exact Hx | constructor; [exact Hxr | constructor]].
Qed.

Lemma ascending_filter (f : row -> bool) (l : list row) :
  ascending l -> ascending (List.filter f l).
Proof.
  induction l as [|x l IH]; intros H; [exact I|].
  destruct H as [Hx Hl]. simpl. destruct (f x); [|exact (IH Hl)].
  split; [|exact (IH Hl)].
  apply List.Forall_forall. intros y Hy. apply List.filter_In in Hy.
  destruct Hy as [Hy _]. exact (proj1 (List.Forall_forall _ _) Hx y Hy).
Qed.

End HistoryFacts.

(** X1. When every row was written by [add_message] under a clock that
    does not run back, [get_recent_messages] with a limit that is not
    negative returns the last [limit] rows of the table, in the order in
    which they were inserted. *)
Theorem recent_messages_are_the_last (st : History.store) (limit : Z) :
  History.chronological st ->
  0 <= limit ->
  History.get_recent_messages st limit
  = map History.as_message
        (List.skipn (length (History.rows st) - Z.to_nat limit) (History.rows st)).
Proof.
  intros [Hasc _] Hlimit. unfold History.get_recent_messages, History.limited.
  rewrite (HistoryFacts.newest_first_ascending _ Hasc).
  destruct (limit <? 0) eqn:E; [apply Z.ltb_lt in E; lia|].
  rewrite List.firstn_rev, List.rev_involutive. reflexivity.
Qed.

(** X2. [get_recent_messages] returns as many messages as the table has,
    up to the limit; a negative limit lifts the bound. Every message it
    returns is a row of the table. *)
Theorem recent_messages_count (st : History.store) (limit : Z) :
  length (History.get_recent_messages st limit)
  = (if limit <? 0 then length (History.rows st)
     else Nat.min (Z.to_nat limit) (length (History.rows st)))
  /\ forall msg, In msg (History.get_recent_messages st limit) ->
                 exists r, In r (History.rows st) /\ msg = History.as_message r.
Proof.
  unfold History.get_recent_messages, History.limited. split.
  - rewrite List.length_map, List.length_rev.
    destruct (limit <? 0).
    + apply HistoryFacts.newest_first_length.
    + rewrite List.length_firstn, HistoryFacts.newest_first_length. reflexivity.
  - intros msg Hin. apply List.in_map_iff in Hin. destruct Hin as (r & <- & Hr).
    exists r. split; [|reflexivity]. apply List.in_rev in Hr.
    apply HistoryFacts.newest_first_in.
    destruct (limit <? 0); [exact Hr|].
    rewrite <- (List.firstn_skipn (Z.to_nat limit)). apply List.in_or_app. left. exact Hr.
Qed.

(** X3. Under a clock that does not run back, a message just added is
    the last of the recent messages for every positive limit, and the
    table stays chronological. *)
Theorem added_message_is_most_recent (st : History.store) (now role content : string)
    (limit : Z) :
  History.chronological st ->
  Forall (fun r => String.leb (History.m_timestamp r) now = true) (History.rows st) ->
  0 < limit ->
  let st' := snd (History.add_message st now role content) in
  History.chronological st'
  /\ exists earlier,
       History.get_recent_messages st' limit
       = earlier ++ [[("role", PStr role); ("content", PStr content);
                      ("timestamp", PStr now)]].
Proof.
  intros [Hasc Hseq] Hclock Hlimit. cbv zeta.
  assert (Hchron : History.chronological (snd (History.add_message st now role content))).
  { split; simpl.
    - apply HistoryFacts.ascending_app; [exact Hasc|].
      apply List.Forall_forall. intros x Hx. split; simpl.
      + pose proof (proj1 (List.Forall_forall _ _) Hseq x Hx). simpl in *. lia.
      + exact (proj1 (List.Forall_forall _ _) Hclock x Hx).
    - apply List.Forall_app. split.
      + eapply List.Forall_impl; [|exact Hseq]. intros x Hx. simpl in *. lia.
      + constructor; [simpl; lia | constructor]. }
  split; [exact Hchron|].
  unfold History.get_recent_messages, History.limited.
  rewrite (HistoryFacts.newest_first_ascending _ (proj1 Hchron)).
  destruct (limit <? 0) eqn:E; [apply Z.ltb_lt in E; lia|].
  rewrite List.firstn_rev, List.rev_involutive. simpl History.rows.
  rewrite List.skipn_app, List.length_app. simpl length.
  replace (length (History.rows st) + 1 - Z.to_nat limit - length (History.rows st))%nat
    with 0%nat by lia.
  simpl List.skipn. rewrite List.map_app. eexists. reflexivity.
Qed.

(** X4. Identifiers of messages are never reused: whatever is deleted
    first (everything, a role, one message), the identifier of the next
    message added is larger than every identifier the table held. *)
Theorem message_ids_are_not_reused (st : History.store) (now role content : string)
    (gone : string) (message_id : Z) :
  Forall (fun r => History.m_id r <= History.seq st) (History.rows st) ->
  forall st',
    st' = History.clear_messages st
    \/ st' = snd (History.clear_messages_by_role st gone)
    \/ st' = snd (History.clear_message_by_id st message_id) ->
    Forall (fun r => History.m_id r < fst (History.add_message st' now role content))
           (History.rows st).
Proof.
  intros Hseq st' Hst'.
  assert (Hs : History.seq st' = History.seq st)
    by (destruct Hst' as [->|[->| ->]]; reflexivity).
  eapply List.Forall_impl; [|exact Hseq]. intros r Hr.
  unfold History.add_message. cbn [fst]. cbv beta in Hr. rewrite Hs. lia.
Qed.

(** X5. [clear_message_by_id] answers [True] exactly when the table has a
    message with that identifier; afterwards no message has it, and the
    other messages are there as before, in their order. *)
Theorem clear_message_by_id_spec (st : History.store) (message_id : Z) :
  let result := History.clear_message_by_id st message_id in
  (fst result = true <-> exists r, In r (History.rows st) /\ History.m_id r = message_id)
  /\ (forall r, In r (History.rows (snd result))
                <-> In r (History.rows st) /\ History.m_id r <> message_id)
  /\ (fst result = false -> History.rows (snd result) = History.rows st)
  /\ (History.chronological st -> History.chronological (snd result)).
Proof.
  cbv zeta. unfold History.clear_message_by_id. cbn [fst snd History.rows History.seq].
  set (l := History.rows st).
  set (hit := fun r => History.m_id r =? message_id).
  assert (Hhit : forall r, In r (List.filter hit l) <-> In r l /\ History.m_id r = message_id).
  { intros r. rewrite List.filter_In. unfold hit. rewrite Z.eqb_eq. reflexivity. }
  split; [|split; [|split]].
  - rewrite Z.ltb_lt. split.
    + intros Hpos. remember (List.filter hit l) as found eqn:E.
      destruct found as [|r rest]; [simpl in Hpos; lia|].
      exists r. apply Hhit. left. reflexivity.
    + intros (r & Hr). apply Hhit in Hr.
      remember (List.filter hit l) as found eqn:E.
      destruct found; [contradiction | simpl; lia].
  - intros r. rewrite List.filter_In, negb_true_iff, Z.eqb_neq. reflexivity.
  - intros Hzero. apply Z.ltb_ge in Hzero.
    assert (Hnone : List.filter hit l = []).
    { remember (List.filter hit l) as found eqn:E.
      destruct found; [reflexivity | simpl in Hzero; lia]. }
    clear Hzero Hhit. unfold hit in Hnone.
    induction l as [|x l IH]; [reflexivity|]. simpl in *.
    destruct (History.m_id x =? message_id); [discriminate|]. simpl.
    rewrite (IH Hnone). reflexivity.
  - intros [Hasc Hseq]. split; simpl.
    + apply HistoryFacts.ascending_filter. exact Hasc.
    + apply List.Forall_forall. intros r Hr. apply List.filter_In in Hr.
      exact (proj1 (List.Forall_forall _ _) Hseq r (proj1 Hr)).
Qed.

(** X6. [clear_messages_by_role] returns the number of messages of that
    role; together with the messages that remain they make up the table
    as it was, and no message of that role remains. *)
Theorem clear_messages_by_role_spec (st : History.store) (role : string) :
  let result := History.clear_messages_by_role st role in
  fst result + Z.of_nat (length (History.rows (snd result)))
  = Z.of_nat (length (History.rows st))
  /\ (forall r, In r (History.rows (snd result))
                <-> In r (History.rows st) /\ History.m_role r <> role)
  /\ (fst result = 0 -> History.rows (snd result) = History.rows st).
Proof.
  cbv zeta. unfold History.clear_messages_by_role. cbn [fst snd History.rows History.seq].
  set (l := History.rows st). split; [|split].
  - induction l as [|x l IH]; [reflexivity|]. simpl.
    destruct (String.eqb (History.m_role x) role); simpl; lia.
  - intros r. rewrite List.filter_In, negb_true_iff, String.eqb_neq. reflexivity.
  - intros Hzero. induction l as [|x l IH]; [reflexivity|]. simpl in *.
    destruct (String.eqb (History.m_role x) role); simpl in *; [lia|].
    rewrite (IH Hzero). reflexivity.
Qed.

(** ** The registry built from the catalog *)

Lemma find_over_app {A : Type} (p : A -> bool) (l1 l2 : list A) :
  find p (l1 ++ l2) = match find p l1 with Some x => Some x | None => find p l2 end.
Proof.
  induction l1 as [|x l1 IH]; simpl; [reflexivity|].
  destruct (p x); [reflexivity | exact IH].
Qed.

Module RegistryFacts.
Section Facts.
Context {V : Type}.
Implicit Types (d : Dict.t V) (k : string) (v : V).

Lemma get_set_same d k v : Dict.get (Dict.set d k v) k = Some v.
Proof.
  induction d as [|[k' v'] d IH]; simpl.
  - rewrite String.eqb_refl. reflexivity.
  - destruct (String.eqb k' k) eqn:E; simpl; rewrite E; [reflexivity | exact IH].
Qed.

Lemma get_set_other d k k' v : k <> k' -> Dict.get (Dict.set d k v) k' = Dict.get d k'.
Proof.
  intros Hne. induction d as [|[k0 v0] d IH]; simpl.
  - apply String.eqb_neq in Hne. rewrite Hne. reflexivity.
  - destruct (String.eqb k0 k) eqn:E; simpl.
    + apply String.eqb_eq in E. subst k0.
      apply String.eqb_neq in Hne. rewrite Hne. reflexivity.
    + destruct (String.eqb k0 k'); [reflexivity | exact IH].
Qed.

Lemma keys_set d k v :
  Dict.keys (Dict.set d k v)
  = if Dict.mem d k then Dict.keys d else Dict.keys d ++ [k].
Proof.
  unfold Dict.mem, Dict.keys. induction d as [|[k' v'] d IH]; simpl; [reflexivity|].
  destruct (String.eqb k' k) eqn:E; simpl; [reflexivity|].
  rewrite IH. destruct (Dict.get d k); reflexivity.
Qed.

Lemma keys_set_nodup d k v : NoDup (Dict.keys d) -> NoDup (Dict.keys (Dict.set d k v)).
Proof.
  intros H. rewrite keys_set, DictFacts.mem_get.
  destruct (Dict.get d k) eqn:E; [exact H|].
  apply NoDup_app. repeat split; [exact H | | apply NoDup_singleton].
  intros x Hx Hk. apply list_elem_of_In in Hx. apply list_elem_of_In in Hk.
  destruct Hk as [<-|[]]. apply DictFacts.get_none in E. exact (E Hx).
Qed.

End Facts.

Lemma load_get (tools : list Tool.t) :
  forall m k,
  Dict.get (mapping_from m tools) k
  = match find (fun t => String.eqb (Tool.name t) k) (rev tools) with
    | Some t => Some t
    | None => Dict.get m k
    end.
Proof.
  induction tools as [|t tools IH]; intros m k; [reflexivity|].
  change (mapping_from m (t :: tools))
    with (mapping_from (Dict.set m (Tool.name t) t) tools).
  rewrite IH. change (rev (t :: tools)) with (rev tools ++ [t]).
  rewrite find_over_app.
  destruct (find (fun t0 => String.eqb (Tool.name t0) k) (rev tools)); [reflexivity|].
  simpl. destruct (String.eqb (Tool.name t) k) eqn:E.
  - apply String.eqb_eq in E. subst k. apply get_set_same.
  - apply String.eqb_neq in E. apply get_set_other. exact E.
Qed.

Lemma load_nodup (tools : list Tool.t) :
  forall m, NoDup (Dict.keys m) -> NoDup (Dict.keys (mapping_from m tools)).
Proof.
  induction tools as [|t tools IH]; intros m H; [exact H|].
  apply IH. apply keys_set_nodup. exact H.
Qed.

Lemma mapping_get (tools : list Tool.t) (name : string) :
  Dict.get (mapping_of tools) name
  = find (fun t => String.eqb (Tool.name t) name) (rev tools).
Proof.
  change (mapping_of tools) with (mapping_from [] tools). rewrite load_get.
  destruct (find _ (rev tools)); reflexivity.
Qed.

Lemma mapping_mem (tools : list Tool.t) (name : string) :
  Dict.mem (mapping_of tools) name = true <-> In name (map Tool.name tools).
Proof.
  rewrite DictFacts.mem_get, mapping_get. split.
  - destruct (find _ (rev tools)) as [t|] eqn:E; [|discriminate]. intros _.
    apply List.find_some in E. destruct E as [Hin Hname].
    apply String.eqb_eq in Hname. subst name.
    apply List.in_map. apply List.in_rev. exact Hin.
  - intros Hin. apply List.in_map_iff in Hin. destruct Hin as (t & Hname & Hin).
    destruct (find (fun t0 => String.eqb (Tool.name t0) name) (rev tools)) eqn:E;
      [reflexivity|].
    exfalso. apply List.in_rev in Hin.
    pose proof (List.find_none _ _ E t Hin) as Hno. simpl in Hno.
    apply String.eqb_neq in Hno. exact (Hno Hname).
Qed.

End RegistryFacts.

(** X7. The registry [_load_tools] builds has every tool name once, however
    often the catalog lists it; a name is in the registry exactly when
    [get_tools] lists a tool under it, and looking a name up yields the
    last tool listed under it. *)
Theorem registry_of_catalog {World : Type} (client : LLMClient World) (db : MemoryDB.db) :
  let registry := _tool_mapping (init client db) in
  NoDup (Dict.keys registry)
  /\ (forall name, Dict.mem registry name = true
                   <-> In name (map Tool.name (MemoryDB.get_tools db)))
  /\ (forall name,
        Dict.get registry name
        = find (fun t => String.eqb (Tool.name t) name) (rev (MemoryDB.get_tools db)))
  /\ (forall name tool, Dict.get registry name = Some tool -> Tool.name tool = name).
Proof.
  cbv zeta. simpl. split.
  - change (mapping_of (MemoryDB.get_tools db))
      with (mapping_from [] (MemoryDB.get_tools db)).
    apply RegistryFacts.load_nodup. apply NoDup_nil. exact I.
  - split; [intros name; apply RegistryFacts.mapping_mem|].
    split; [intros name; apply RegistryFacts.mapping_get|].
    intros name tool H. rewrite RegistryFacts.mapping_get in H.
    apply List.find_some in H. apply String.eqb_eq. exact (proj2 H).
Qed.

(** ** Registration *)

Module RegisterFacts.
Import MemoryDB.

Lemma find_name_app (rows : list adapter_row) (r : adapter_row) (n : string) :
  find (fun x => String.eqb (a_name x) n) rows = None ->
  a_name r = n ->
  find (fun x => String.eqb (a_name x) n) (rows ++ [r]) = Some r.
Proof.
  intros Hnone Hr. rewrite find_over_app, Hnone. simpl.
  rewrite Hr, String.eqb_refl. reflexivity.
Qed.

(** What [register_adapter] leaves behind: a row with the name, whose
    identifier it returns; the rows that were there; the tools as they
    were. *)
Lemma register_adapter_row (d : db) (n c desc : string) :
  exists a,
    fst (register_adapter d n c desc) = Ret (a_id a)
    /\ In a (adapters (snd (register_adapter d n c desc)))
    /\ a_name a = n
    /\ tools (snd (register_adapter d n c desc)) = tools d
    /\ (forall x, In x (adapters d) -> In x (adapters (snd (register_adapter d n c desc))))
    /\ select_adapter (snd (register_adapter d n c desc)) n = Some a
    /\ ((select_adapter d n = Some a
         /\ adapters (snd (register_adapter d n c desc)) = adapters d)
        \/ (select_adapter d n = None /\ a_id a = adapters_seq d + 1
            /\ adapters (snd (register_adapter d n c desc)) = adapters d ++ [a])).
Proof.
  unfold register_adapter, insert_or_ignore_adapter. simpl.
  destruct (select_adapter d n) as [a|] eqn:E.
  - exists a. unfold select_adapter in *. simpl. rewrite E. simpl.
    apply List.find_some in E. destruct E as [Hin Hn]. apply String.eqb_eq in Hn.
    repeat split; auto.
  - set (row := {| a_id := adapters_seq d + 1; a_name := n; a_class_name := c;
                   a_description := Some desc |}).
    exists row. unfold select_adapter in *. simpl. fold row.
    rewrite (find_name_app (adapters d) row n E eq_refl). simpl.
    repeat split; try reflexivity.
    + apply List.in_or_app. right. left. reflexivity.
    + intros x Hx. apply List.in_or_app. left. exact Hx.
    + right. repeat split; reflexivity.
Qed.

(** What [register_tool] leaves behind. *)
Lemma register_tool_row (d : db) (aid : Z) (n sd ex : string) (se : bool) (f : string) :
  exists r,
    fst (register_tool d aid n sd ex se (Some f)) = Ret (t_id r)
    /\ In r (tools (snd (register_tool d aid n sd ex se (Some f))))
    /\ t_full_name r = f
    /\ adapters (snd (register_tool d aid n sd ex se (Some f))) = adapters d
    /\ (In r (tools d) /\ tools (snd (register_tool d aid n sd ex se (Some f))) = tools d
        \/ t_adapter_id r = aid
           /\ tools (snd (register_tool d aid n sd ex se (Some f))) = tools d ++ [r]).
Proof.
  unfold register_tool, insert_or_ignore_tool, effective_full_name. simpl.
  destruct (select_tool d f) as [r|] eqn:E.
  - exists r. unfold select_tool in *. simpl. rewrite E. simpl.
    destruct (MemoryDBFacts.find_some_full_name _ _ _ E) as [Hin Hf].
    repeat split; auto.
  - set (row := {| t_id := tools_seq d + 1; t_adapter_id := aid; t_name := n;
                   t_full_name := f; t_short_desc := Some sd; t_example := Some ex;
                   t_side_effects := Some se |}).
    exists row. unfold select_tool in *. simpl. fold row.
    rewrite (MemoryDBFacts.find_full_name_app (tools d) row f E eq_refl). simpl.
    repeat split; try reflexivity.
    + apply List.in_or_app. right. left. reflexivity.
    + right. split; reflexivity.
Qed.

(** A tool is listed by [get_tools] when it has a row and its adapter
    has one. *)
Lemma listed (d : db) (f : string) :
  In f (map Tool.name (get_tools d))
  <-> exists r a, In r (tools d) /\ t_full_name r = f
                  /\ In a (adapters d) /\ a_id a = t_adapter_id r.
Proof.
  unfold get_tools. rewrite List.in_map_iff. split.
  - intros (t & Hname & Hin). apply List.in_flat_map in Hin.
    destruct Hin as (r & Hr & Hin). apply List.in_map_iff in Hin.
    destruct Hin as (a & Ht & Ha). apply List.filter_In in Ha.
    destruct Ha as [Ha Hid]. apply Z.eqb_eq in Hid.
    exists r, a. subst t. simpl in Hname. auto.
  - intros (r & a & Hr & Hf & Ha & Hid).
    eexists. split; [|apply List.in_flat_map; exists r; split; [exact Hr|];
                      apply List.in_map; apply List.filter_In; split;
                      [exact Ha | apply Z.eqb_eq; exact Hid]].
    exact Hf.
Qed.

End RegisterFacts.

(** X8. Registering an adapter is idempotent on its name: the second of
    two calls of [register_adapter] with the same name changes no row of
    the catalog, only the counter of the table, which advances by one,
    whatever class name and description it gives; both calls return the
    same identifier, that of the one adapter row with the name; the names
    of the adapters stay distinct. *)
Theorem register_adapter_idempotent (d : MemoryDB.db)
    (name class_name1 class_name2 description1 description2 : string) :
  unique_adapter_names d ->
  let first := MemoryDB.register_adapter d name class_name1 description1 in
  let second := MemoryDB.register_adapter (snd first) name class_name2 description2 in
  exists row : MemoryDB.adapter_row,
    fst first = Ret (MemoryDB.a_id row)
    /\ fst second = Ret (MemoryDB.a_id row)
    /\ MemoryDB.adapters (snd second) = MemoryDB.adapters (snd first)
    /\ MemoryDB.tools (snd second) = MemoryDB.tools (snd first)
    /\ MemoryDB.tools_seq (snd second) = MemoryDB.tools_seq (snd first)
    /\ MemoryDB.adapters_seq (snd second) = MemoryDB.adapters_seq (snd first) + 1
    /\ List.filter (fun a => String.eqb (MemoryDB.a_name a) name)
         (MemoryDB.adapters (snd second)) = [row]
    /\ unique_adapter_names (snd second).
Proof.
  intros Hu. cbv zeta.
  destruct (RegisterFacts.register_adapter_row d name class_name1 description1)
    as (a & Hret & _ & _ & _ & _ & Hsel & Hcase).
  set (d1 := snd (MemoryDB.register_adapter d name class_name1 description1)) in *.
  assert (Hu1 : unique_adapter_names d1).
  { unfold unique_adapter_names in *.
    destruct Hcase as [[_ ->]|(Hnone & _ & ->)]; [exact Hu|].
    rewrite List.map_app. simpl.
    apply NoDup_app. repeat split; [exact Hu | | apply NoDup_singleton].
    intros x Hx Hin. apply list_elem_of_In in Hx. apply list_elem_of_In in Hin.
    destruct Hin as [<-|[]]. apply List.in_map_iff in Hx.
    destruct Hx as (a' & Ha & Hin).
    unfold MemoryDB.select_adapter in Hnone.
    pose proof (List.find_none _ _ Hnone a' Hin) as Hno. simpl in Hno.
    apply String.eqb_neq in Hno. apply Hno. rewrite Ha.
    unfold MemoryDB.select_adapter in Hsel. apply List.find_some in Hsel.
    apply String.eqb_eq. exact (proj2 Hsel). }
  assert (Hsecond : MemoryDB.register_adapter d1 name class_name2 description2
                    = (Ret (MemoryDB.a_id a),
                       {| MemoryDB.adapters := MemoryDB.adapters d1;
                          MemoryDB.adapters_seq := MemoryDB.adapters_seq d1 + 1;
                          MemoryDB.tools := MemoryDB.tools d1;
                          MemoryDB.tools_seq := MemoryDB.tools_seq d1 |})).
  { unfold MemoryDB.register_adapter, MemoryDB.insert_or_ignore_adapter.
    rewrite Hsel. unfold MemoryDB.select_adapter in *. simpl. rewrite Hsel. reflexivity. }
  rewrite Hsecond. simpl. exists a.
  split; [exact Hret|]. split; [reflexivity|]. split; [reflexivity|].
  split; [reflexivity|]. split; [reflexivity|]. split; [reflexivity|].
  split; [|exact Hu1].
  unfold MemoryDB.select_adapter in Hsel. unfold unique_adapter_names in Hu1.
  revert Hu1 Hsel. generalize (MemoryDB.adapters d1). intros l Hnd Hfind.
  induction l as [|x l IH]; [discriminate|]. simpl in *.
  apply NoDup_cons in Hnd. destruct Hnd as [Hx Hnd].
  destruct (String.eqb (MemoryDB.a_name x) name) eqn:Ex.
  - injection Hfind as <-. f_equal. apply String.eqb_eq in Ex.
    assert (Hnot : ~ In name (map MemoryDB.a_name l)).
    { intros H. apply Hx. rewrite Ex. apply list_elem_of_In. exact H. }
    clear -Hnot. induction l as [|y l IH]; [reflexivity|]. simpl in *.
    destruct (String.eqb (MemoryDB.a_name y) name) eqn:Ey.
    { apply String.eqb_eq in Ey. exfalso. apply Hnot. left. exact Ey. }
    { apply IH. intros H. apply Hnot. right. exact H. }
  - exact (IH Hnd Hfind).
Qed.

(** ** Registration of an adapter with its tools *)

Module ToolAdapterFacts.
Import MemoryDB.

Lemma mem_set {V : Type} (d : Dict.t V) (k k' : string) (v : V) :
  Dict.mem (Dict.set d k v) k' = true <-> k = k' \/ Dict.mem d k' = true.
Proof.
  rewrite !DictFacts.mem_get. destruct (String.eqb k k') eqn:E.
  - apply String.eqb_eq in E. subst k'. rewrite RegistryFacts.get_set_same.
    split; auto.
  - apply String.eqb_neq in E. rewrite (RegistryFacts.get_set_other d k k' v E).
    split; [auto | intros [H|H]; [contradiction | exact H]].
Qed.

Section Loop.
Context {World : Type} (rt : Runtime World) (self : ToolAdapter.t).

(** The loop of [register]: it registers every tool, keeps the rows
    that were there, and keeps the catalog consistent. *)
Lemma register_tools_spec (aid : Z) (todo : list ToolAdapter.tool) :
  forall d ids,
  referential d ->
  (exists a, In a (adapters d) /\ a_id a = aid) ->
  exists ids',
    fst (ToolAdapter.register_tools rt self aid todo d ids) = Ret ids'
    /\ referential (snd (ToolAdapter.register_tools rt self aid todo d ids))
    /\ adapters (snd (ToolAdapter.register_tools rt self aid todo d ids)) = adapters d
    /\ (forall x, In x (tools d) ->
          In x (tools (snd (ToolAdapter.register_tools rt self aid todo d ids))))
    /\ (forall tl, In tl todo ->
          (exists r, In r (tools (snd (ToolAdapter.register_tools rt self aid todo d ids)))
                     /\ t_full_name r = ToolAdapter.full_name self tl)
          /\ Dict.mem ids' (ToolAdapter.tool_name tl) = true)
    /\ (forall k, Dict.mem ids k = true -> Dict.mem ids' k = true)
    /\ (forall k, Dict.mem ids' k = true ->
          Dict.mem ids k = true \/ In k (map ToolAdapter.tool_name todo)).
Proof.
  induction todo as [|tl rest IH]; intros d ids Href Had.
  - exists ids. simpl. split; [reflexivity|]. split; [exact Href|].
    split; [reflexivity|]. split; [auto|]. split; [intros x []|].
    split; [auto|]. intros k Hk. left. exact Hk.
  - cbn [ToolAdapter.register_tools].
    set (sd := default EmptyString (ToolAdapter.tool_description tl)).
    set (ex := match ToolAdapter.tool_example tl with
               | Some example => str rt example
               | None => EmptyString
               end).
    set (se := default false (ToolAdapter.tool_side_effects tl)).
    destruct (RegisterFacts.register_tool_row d aid (ToolAdapter.tool_name tl) sd ex se
                (ToolAdapter.full_name self tl)) as (r & Hret & Hin & Hf & Hads & Hcase).
    destruct (register_tool d aid (ToolAdapter.tool_name tl) sd ex se
                (Some (ToolAdapter.full_name self tl))) as [o d1] eqn:E.
    simpl in Hret, Hin, Hads, Hcase. subst o.
    assert (Href1 : referential d1).
    { unfold referential.
      destruct Hcase as [[_ Ht]|[Hid Ht]]; rewrite Ht, Hads; [exact Href|].
      apply Forall_app. split; [exact Href|].
      apply Forall_cons. split; [|apply Forall_nil; exact I].
      destruct Had as (a & Ha & Haid). exists a. split; [exact Ha | congruence]. }
    assert (Hkeep : forall x, In x (tools d) -> In x (tools d1)).
    { destruct Hcase as [[_ Ht]|[_ Ht]]; intros x Hx; rewrite Ht; [exact Hx|].
      apply List.in_or_app. left. exact Hx. }
    assert (Had1 : exists a, In a (adapters d1) /\ a_id a = aid)
      by (rewrite Hads; exact Had).
    destruct (IH d1 (Dict.set ids (ToolAdapter.tool_name tl) (t_id r)) Href1 Had1)
      as (ids' & Hret' & Href' & Hads' & Hkeep' & Hall & Hmono & Honly).
    exists ids'. split; [exact Hret'|]. split; [exact Href'|].
    split; [congruence|]. split; [auto|]. split; [|split].
    + intros x [<-|Hx]; [|exact (Hall x Hx)]. split.
      * exists r. split; [apply Hkeep'; exact Hin | exact Hf].
      * apply Hmono. apply mem_set. left. reflexivity.
    + intros k Hk. apply Hmono. apply mem_set. right. exact Hk.
    + intros k Hk. destruct (Honly k Hk) as [H|H].
      * apply mem_set in H. destruct H as [<-|H]; [right; left; reflexivity | left; exact H].
      * right. right. exact H.
Qed.

End Loop.
End ToolAdapterFacts.

(** X9. On a consistent catalog [ToolAdapter.register] does not raise: it
    returns the adapter's identifier and one identifier for each of its
    tool names, and no others. Afterwards the catalog is still
    consistent, [get_tools] lists every tool of the adapter under
    [adapter.tool] and still lists what it listed before, and an
    orchestrator built on the catalog has every tool of the adapter in
    its registry. *)
Theorem register_makes_tools_available {World : Type} (rt : Runtime World)
    (client : LLMClient World) (self : ToolAdapter.t) (d : MemoryDB.db) :
  referential d ->
  exists adapter_id tool_ids,
    fst (ToolAdapter.register rt self d) = Ret (adapter_id, tool_ids)
    /\ referential (snd (ToolAdapter.register rt self d))
    /\ (exists a, MemoryDB.select_adapter (snd (ToolAdapter.register rt self d))
                    (ToolAdapter.name self) = Some a
                  /\ MemoryDB.a_id a = adapter_id)
    /\ (forall k, Dict.mem tool_ids k = true
                  <-> In k (map ToolAdapter.tool_name (ToolAdapter.tools self)))
    /\ (forall tl, In tl (ToolAdapter.tools self) ->
          In (ToolAdapter.full_name self tl)
             (map Tool.name (MemoryDB.get_tools (snd (ToolAdapter.register rt self d))))
          /\ Dict.mem (_tool_mapping (init client (snd (ToolAdapter.register rt self d))))
               (ToolAdapter.full_name self tl) = true)
    /\ (forall f, In f (map Tool.name (MemoryDB.get_tools d)) ->
          In f (map Tool.name (MemoryDB.get_tools (snd (ToolAdapter.register rt self d))))).
Proof.
  intros Href. unfold ToolAdapter.register.
  destruct (RegisterFacts.register_adapter_row d (ToolAdapter.name self)
              (ToolAdapter.class_name self) (ToolAdapter.description self))
    as (a & Hret & Hin & Hname & Htools & Hkeep & Hsel1 & _).
  destruct (MemoryDB.register_adapter d (ToolAdapter.name self)
              (ToolAdapter.class_name self) (ToolAdapter.description self))
    as [o d1] eqn:E1.
  simpl in Hret, Hin, Htools, Hkeep, Hsel1. subst o.
  assert (Href1 : referential d1).
  { unfold referential in *. rewrite Htools. eapply Forall_impl; [exact Href|].
    intros t (x & Hx & Hid). exists x. split; [apply Hkeep; exact Hx | exact Hid]. }
  destruct (ToolAdapterFacts.register_tools_spec rt self (MemoryDB.a_id a)
              (ToolAdapter.tools self) d1 [] Href1 (ex_intro _ a (conj Hin eq_refl)))
    as (ids' & Hret' & Href' & Hads' & Hkeep' & Hall & _ & Honly).
  destruct (ToolAdapter.register_tools rt self (MemoryDB.a_id a)
              (ToolAdapter.tools self) d1 []) as [o d2] eqn:E2.
  simpl in Hret', Href', Hads', Hkeep', Hall. subst o. simpl.
  exists (MemoryDB.a_id a), ids'. split; [reflexivity|]. split; [exact Href'|].
  assert (Hlisted : forall f, (exists r, In r (MemoryDB.tools d2) /\ MemoryDB.t_full_name r = f) ->
                              In f (map Tool.name (MemoryDB.get_tools d2))).
  { intros f (r & Hr & Hf). apply RegisterFacts.listed.
    unfold referential in Href'. rewrite Forall_forall in Href'.
    destruct (Href' r (proj2 (list_elem_of_In _ _) Hr)) as (x & Hx & Hid).
    exists r, x. auto. }
  split; [|split; [|split]].
  - exists a. split; [|reflexivity].
    unfold MemoryDB.select_adapter in *. rewrite Hads'. exact Hsel1.
  - intros k. split.
    + intros Hk. destruct (Honly k Hk) as [H|H]; [discriminate | exact H].
    + intros Hk. apply List.in_map_iff in Hk. destruct Hk as (tl & <- & Htl).
      exact (proj2 (Hall tl Htl)).
  - intros tl Htl. destruct (Hall tl Htl) as [Hrow _].
    pose proof (Hlisted _ Hrow) as Hl. split; [exact Hl|].
    simpl. apply RegistryFacts.mapping_mem. exact Hl.
  - intros f Hf. apply RegisterFacts.listed in Hf.
    destruct Hf as (r & x & Hr & Hfn & Hx & Hid). apply RegisterFacts.listed.
    exists r, x. rewrite Hads'. rewrite Htools in Hkeep'. auto.
Qed.

(** ** The order of the calls *)

Section Silent.
Context {World : Type} (rt : Runtime World) (self : Orchestrator World).

Lemma silent_ret {A} (a : A) : silent (@ret World A a).
Proof. intros s. split; reflexivity. Qed.

Lemma silent_raise {A} (e : exn) : silent (@raise World A e).
Proof. intros s. split; reflexivity. Qed.

Lemma silent_lift {A} (o : outcome A) : silent (@lift World A o).
Proof. intros s. split; reflexivity. Qed.

Lemma silent_external {A} (f : effect World A) : silent (external f).
Proof. intros s. unfold external. destruct (f (world s)). split; reflexivity. Qed.

Lemma silent_read_list (l : loc) : silent (@read_list World l).
Proof. intros s. split; reflexivity. Qed.

Lemma silent_now : silent (now rt).
Proof. intros s. split; reflexivity. Qed.

Lemma silent_cached_adapter (name : string) : silent (@cached_adapter World name).
Proof. intros s. split; reflexivity. Qed.

Lemma silent_cache_adapter (name : string) (a : Adapter World) :
  silent (cache_adapter name a).
Proof. intros s. split; reflexivity. Qed.

Lemma silent_bind {A B} (m : M World A) (f : A -> M World B) :
  silent m -> (forall x, silent (f x)) -> silent (bind m f).
Proof.
  intros Hm Hf s. unfold bind. destruct (Hm s) as [Hl Ht].
  destruct (m s) as [[x|e] s1]; simpl in *; [|auto].
  destruct (Hf x s1) as [Hl' Ht']. split; congruence.
Qed.

Lemma silent_try_except {A} (m : M World A) (h : exn -> M World A) :
  silent m -> (forall e, silent (h e)) -> silent (try_except m h).
Proof.
  intros Hm Hh s. unfold try_except. destruct (Hm s) as [Hl Ht].
  destruct (m s) as [[x|e] s1]; simpl in *; [auto|].
  destruct (Hh e s1) as [Hl' Ht']. split; congruence.
Qed.

Lemma silent_emits {A} (shape : list event -> Prop) (m : M World A) :
  shape [] -> silent m -> emits shape m.
Proof.
  intros H0 Hm s. destruct (Hm s) as [Hl Ht]. split; [exact Hl|].
  exists []. rewrite List.app_nil_r. auto.
Qed.

Lemma emits_then {A B} (shape : list event -> Prop) (m : M World A)
    (f : A -> M World B) :
  shape [] -> silent m -> (forall x, emits shape (f x)) -> emits shape (bind m f).
Proof.
  intros H0 Hm Hf s. unfold bind. destruct (Hm s) as [Hl Ht].
  destruct (m s) as [[x|e] s1]; simpl in *.
  - destruct (Hf x s1) as [Hl' (new & Ht' & Hs)]. split; [congruence|].
    exists new. split; [congruence | exact Hs].
  - split; [exact Hl|]. exists []. rewrite List.app_nil_r. auto.
Qed.

Ltac hush :=
  repeat first
    [ apply silent_ret | apply silent_raise | apply silent_lift | apply silent_external
    | apply silent_read_list | apply silent_now | apply silent_cached_adapter
    | apply silent_cache_adapter
    | apply silent_bind; [| intros ?]
    | apply silent_try_except; [| intros ?]
    | match goal with
      | |- silent (match ?x with _ => _ end) => destruct x
      end ].

Lemma silent_build_prompt messages tools system examples :
  silent (build_prompt rt messages tools system examples).
Proof. unfold build_prompt. hush. Qed.

Lemma silent_load_adapter_class adapter_name :
  silent (_load_adapter_class rt self adapter_name).
Proof. unfold _load_adapter_class, try_except_only. hush. Qed.

Lemma silent_resolve_adapter adapter_name :
  silent (resolve_adapter rt self adapter_name).
Proof. unfold resolve_adapter. hush; apply silent_load_adapter_class. Qed.

Lemma operation_of_nil tool : operation_of tool [].
Proof. left. reflexivity. Qed.

Lemma emits_call tool_name sig (run : Dict.t value -> effect World value) valid_params :
  emits (operation_of tool_name) (call tool_name sig run valid_params).
Proof.
  intros s. unfold call, bind, lift. destruct (bind_call sig valid_params) as [args|e].
  - simpl. unfold external. simpl. destruct (run args (world s)) as [o w]. simpl.
    split; [reflexivity|]. exists [EvInvoke tool_name args].
    split; [reflexivity|]. right. exists args. reflexivity.
  - simpl. split; [reflexivity|]. exists []. rewrite List.app_nil_r.
    split; [reflexivity | apply operation_of_nil].
Qed.

Lemma emits_execute_body tool_name adapter_name params :
  emits (operation_of tool_name) (execute_body rt self tool_name adapter_name params).
Proof.
  unfold execute_body.
  apply emits_then; [apply operation_of_nil | apply silent_resolve_adapter |].
  intros [adapter|]; [|apply silent_emits; [apply operation_of_nil | hush]].
  destruct (getattr adapter _) as [[sig run|v]|];
    try (apply silent_emits; [apply operation_of_nil | solve [hush]]).
  apply emits_then; [apply operation_of_nil | hush |].
  intros [missing|valid_params].
  - apply silent_emits; [apply operation_of_nil | hush].
  - apply emits_call.
Qed.

(** The dispatcher returns; it records the dispatch and then at most
    the one operation it runs. *)
Lemma execute_tool_trace tool_name params (s : State World) :
  exists v s' ran,
    _execute_tool rt self tool_name params s = (Ret v, s')
    /\ lists s' = lists s
    /\ trace s' = (trace s ++ EvDispatch tool_name params :: ran)%list
    /\ operation_of tool_name ran.
Proof.
  unfold _execute_tool.
  set (s0 := snd (record (EvDispatch tool_name params) s)).
  rewrite (bind_ret_eq _ _ s tt s0) by reflexivity.
  destruct (Dict.get (_tool_mapping self) tool_name) as [tool_info|].
  - unfold try_except.
    destruct (emits_execute_body tool_name (Tool.adapter tool_info) params s0)
      as [Hl (ran & Ht & Hop)].
    destruct (execute_body rt self tool_name (Tool.adapter tool_info) params s0)
      as [[v|e] s1]; simpl in Hl, Ht;
      eexists _, s1, ran; (split; [reflexivity|]); (split; [exact Hl|]);
      (split; [|exact Hop]); rewrite Ht; unfold s0; simpl;
      rewrite <- List.app_assoc; reflexivity.
  - eexists _, s0, []. split; [reflexivity|]. split; [reflexivity|].
    split; [reflexivity | apply operation_of_nil].
Qed.

(** A message that can be formatted is formatted. *)
Lemma format_message_ok (msg : message) :
  formattable msg <-> exists v, format_message rt msg = Ret v.
Proof.
  unfold formattable, format_message, getitem. split.
  - intros (role & content & -> & ->). simpl. eauto.
  - destruct (Dict.get msg "role") as [role|]; simpl; [|intros (v & H); discriminate].
    destruct role; simpl; try (intros (v & H); discriminate).
    destruct (Dict.get msg "content") as [content|]; simpl;
      [|intros (v & H); discriminate].
    intros _. eauto.
Qed.

Lemma format_messages_ok (messages : list message) :
  Forall formattable messages <-> exists vs, format_messages rt messages = Ret vs.
Proof.
  induction messages as [|msg rest IH]; simpl.
  - split; [eauto | intros _; apply Forall_nil; exact I].
  - rewrite Forall_cons, IH, format_message_ok. split.
    + intros [(v & ->) (vs & ->)]. simpl. eauto.
    + destruct (format_message rt msg) as [v|e]; simpl; [|intros (vs & H); discriminate].
      destruct (format_messages rt rest) as [vs|e]; simpl;
        [|intros (vs' & H); discriminate].
      intros _. eauto.
Qed.

(** The model is asked exactly when the context can be formatted; an
    exception of the prompt leaves the trace as it was. *)
Lemma ask_model_trace context (s : State World) :
  lists (snd (ask_model rt self context s)) = lists s
  /\ ((Forall formattable (lists s !!! context)
       /\ exists request,
            trace (snd (ask_model rt self context s)) = (trace s ++ [EvGenerate request])%list)
      \/ (~ Forall formattable (lists s !!! context)
          /\ trace (snd (ask_model rt self context s)) = trace s
          /\ exists e, fst (ask_model rt self context s) = Raise e)).
Proof.
  unfold ask_model, build_prompt, bind, read_list, lift, now, ret, record, external.
  destruct (format_messages rt (lists s !!! context)) as [vs|e] eqn:E.
  - assert (Hf : Forall formattable (lists s !!! context))
      by (apply format_messages_ok; eauto).
    cbn [world].
    match goal with
    | |- context [generate_response (LLM_client self) ?q (world s)] =>
        set (request := q)
    end.
    destruct (generate_response (LLM_client self) request (world s)) as [o w].
    cbn [fst snd lists trace].
    split; [reflexivity|]. left. split; [exact Hf|]. exists request. reflexivity.
  - cbn [fst snd lists trace].
    split; [reflexivity|]. right. split; [|split; [reflexivity | eauto]].
    intros Hf. apply format_messages_ok in Hf. destruct Hf as (vs & Hvs). congruence.
Qed.

Lemma interpret_run response (s : State World) :
  fst (interpret rt self response s) = _handle_model_response rt self response
  /\ lists (snd (interpret rt self response s)) = lists s
  /\ trace (snd (interpret rt self response s)) = (trace s ++ [EvInterpret response])%list.
Proof. unfold interpret, bind, lift. simpl. auto. Qed.

(** A tool call the interpreter returns names a registered tool. *)
Lemma handle_dispatchable response (a : action) :
  _handle_model_response rt self response = Ret a -> dispatchable self a.
Proof.
  unfold _handle_model_response, reply.
  destruct (Json.loads response) as [v|e].
  2:{ destruct (isinstance e "JSONDecodeError"); [|discriminate].
      intros H. injection H as <-. exact I. }
  destruct v; try discriminate.
  destruct (Dict.get_default _ "type" _); try discriminate.
  destruct (String.eqb _ "reply"); [intros H; injection H as <-; exact I|].
  destruct (String.eqb _ "tool_call"); [|intros H; injection H as <-; exact I].
  destruct (negb (truthy _)); [intros H; injection H as <-; exact I|].
  destruct (Dict.get_default _ "tool" _) as [| | | |name| |] eqn:Et;
    try (destruct (hashable _); [intros H; injection H as <-; exact I | discriminate]).
  destruct (Dict.mem (_tool_mapping self) name) eqn:Em; simpl.
  - intros H. injection H as <-. exact Em.
  - intros H. injection H as <-. exact I.
Qed.

(** On a context that can be formatted, [ask_model] is the call of the
    client on the request it built. *)
Lemma ask_model_run context (s : State World) :
  Forall formattable (lists s !!! context) ->
  exists request,
    ask_model rt self context s
    = (fst (generate_response (LLM_client self) request (world s)),
       {| world := snd (generate_response (LLM_client self) request (world s));
          lists := lists s; _tool_cache := _tool_cache s;
          trace := trace s ++ [EvGenerate request] |}).
Proof.
  intros Hf. apply format_messages_ok in Hf. destruct Hf as (vs & Hvs).
  unfold ask_model, build_prompt, bind, read_list, lift, now, ret, record, external.
  rewrite Hvs. cbn [world].
  match goal with
  | |- context [generate_response (LLM_client self) ?q (world s)] => exists q
  end.
  destruct (generate_response (LLM_client self) _ (world s)) as [o w]. reflexivity.
Qed.

Lemma interpret_eq response (s : State World) :
  interpret rt self response s
  = (_handle_model_response rt self response, snd (record (EvInterpret response) s)).
Proof. reflexivity. Qed.

End Silent.

Section Rounds.
Context {World : Type} (rt : Runtime World) (self : Orchestrator World).

Lemma formattable_appended (call result : string) (messages : list message) :
  Forall formattable messages ->
  Forall formattable
    ((messages ++ [[("role", PStr "assistant"); ("content", PStr call)]])
       ++ [[("role", PStr "system"); ("content", PStr result)]]).
Proof.
  intros H. apply Forall_app. split; [apply Forall_app; split; [exact H|]|];
    (apply Forall_cons; split; [|apply Forall_nil; exact I]);
    eexists _, _; split; reflexivity.
Qed.

Lemma not_a_tool_call response :
  (forall a, _handle_model_response rt self response = Ret a ->
             exists text, a = Reply text) ->
  forall tool params confirm,
    _handle_model_response rt self response <> Ret (ToolCall tool params confirm).
Proof.
  intros H tool params confirm Hh. destruct (H _ Hh) as (text & Ht). discriminate Ht.
Qed.

(** The loop, entered with what the interpreter made of [response], on a
    context that can be formatted and with fuel for the rounds that are
    left. *)
Lemma tool_loop_rounds context fuel :
  forall response a count (s : State World),
  _handle_model_response rt self response = Ret a ->
  Forall formattable (lists s !!! context) ->
  (Z.to_nat (3 - count) < fuel)%nat ->
  exists new,
    trace (snd (tool_loop rt self fuel context a count s)) = (trace s ++ new)%list
    /\ rounds rt self (Z.to_nat (3 - count)) response new.
Proof.
  induction fuel as [|fuel IH]; intros response a count s Hh Hf Hfuel; [lia|].
  rewrite tool_loop_S.
  destruct a as [text|tool_name params confirm].
  { exists []. simpl. rewrite List.app_nil_r. split; [reflexivity|].
    apply rounds_end. right. apply not_a_tool_call. intros a Ha.
    rewrite Hh in Ha. injection Ha as <-. eauto. }
  destruct (count <? 3) eqn:Hc.
  2:{ apply Z.ltb_ge in Hc. exists []. simpl. rewrite List.app_nil_r.
      split; [reflexivity|]. apply rounds_end. left. lia. }
  apply Z.ltb_lt in Hc.
  replace (Z.to_nat (3 - count)) with (S (Z.to_nat (3 - (count + 1)))) by lia.
  destruct (execute_tool_trace rt self tool_name params s)
    as (v & s1 & ran & He & Hl1 & Ht1 & Hop).
  rewrite (bind_ret_eq _ _ _ _ _ He). cbv zeta.
  set (m1 := [("role", PStr "assistant");
              ("content", PStr ("Called " +:+ tool_name +:+ " with params: "
                                +:+ str rt params))]).
  set (m2 := [("role", PStr "system"); ("content", PStr (str rt v))]).
  rewrite (bind_ret_eq _ _ s1 tt (snd (append context m1 s1))) by reflexivity.
  set (s2 := snd (append context m1 s1)).
  rewrite (bind_ret_eq _ _ s2 tt (snd (append context m2 s2))) by reflexivity.
  set (s3 := snd (append context m2 s2)).
  assert (Ht3 : trace s3 = trace s1) by reflexivity.
  assert (Hf3 : Forall formattable (lists s3 !!! context)).
  { unfold s3, s2, append. simpl. rewrite !lookup_total_insert_eq, Hl1.
    apply formattable_appended. exact Hf. }
  destruct (ask_model_run rt self context s3 Hf3) as (request & Hask).
  destruct (generate_response (LLM_client self) request (world s3))
    as [[answer|e] w'] eqn:Egen; cbn [fst snd] in Hask.
  2:{ rewrite (bind_raise_eq _ _ _ _ _ Hask). cbn [snd trace].
      exists (EvDispatch tool_name params :: ran ++ [EvGenerate request])%list. split.
      - rewrite ?Ht3, Ht1, <- List.app_assoc. reflexivity.
      - apply (rounds_cut rt self _ response tool_name params confirm ran request Hh Hop).
        exists (world s3), e, w'. exact Egen. }
  rewrite (bind_ret_eq _ _ _ _ _ Hask).
  match type of Hask with _ = (_, ?st) => set (s4 := st) in * end.
  assert (Hanswers : client_answers self request answer)
    by (exists (world s3), w'; exact Egen).
  set (s5 := snd (record (EvInterpret answer) s4)).
  assert (Ht5 : trace s5
                = (trace s ++ EvDispatch tool_name params
                     :: ran ++ [EvGenerate request; EvInterpret answer])%list).
  { unfold s5, s4. simpl. rewrite ?Ht3, Ht1, <- !List.app_assoc. reflexivity. }
  destruct (_handle_model_response rt self answer) as [a'|e] eqn:Eh.
  2:{ rewrite (bind_raise_eq _ _ s4 e s5) by (rewrite interpret_eq, Eh; reflexivity).
      cbn [snd]. rewrite Ht5.
      exists (EvDispatch tool_name params
              :: ran ++ EvGenerate request :: EvInterpret answer :: [])%list.
      split; [reflexivity|].
      apply (rounds_next rt self _ response tool_name params confirm ran request answer []
               Hh Hop Hanswers).
      apply rounds_end. right. intros t p c H. rewrite Eh in H. discriminate H. }
  rewrite (bind_ret_eq _ _ s4 a' s5) by (rewrite interpret_eq, Eh; reflexivity).
  assert (Hf5 : Forall formattable (lists s5 !!! context)) by exact Hf3.
  destruct (IH answer a' (count + 1) s5 Eh Hf5 ltac:(lia)) as (rest & Ht6 & Hr6).
  exists (EvDispatch tool_name params
          :: ran ++ EvGenerate request :: EvInterpret answer :: rest)%list.
  split.
  - rewrite Ht6, Ht5, <- List.app_assoc. simpl. rewrite <- List.app_assoc. reflexivity.
  - exact (rounds_next rt self _ response tool_name params confirm ran request answer rest
             Hh Hop Hanswers Hr6).
Qed.

(** What [process_message] adds to the trace. *)
Lemma process_message_trace context (s : State World) :
  exists new,
    trace (snd (process_message rt self context s)) = (trace s ++ new)%list
    /\ protocol rt self s new
    /\ (new = [] <->
        lists s !!! context = [] \/ ~ Forall formattable (lists s !!! context)).
Proof.
  unfold process_message, process_message_fuel.
  rewrite (bind_ret_eq _ _ s (lists s !!! context) s) by reflexivity.
  destruct (lists s !!! context) as [|msg more] eqn:Hctx.
  { exists []. simpl. rewrite List.app_nil_r. split; [reflexivity|].
    split; [left; reflexivity|]. split; auto. }
  destruct (ask_model_trace rt self context s) as [_ [[Hf _]|(Hno & Ht1 & e & He)]].
  2:{ destruct (ask_model rt self context s) as [[r|e'] s1] eqn:Eask;
        simpl in He; [discriminate|].
      rewrite (bind_raise_eq _ _ _ _ _ Eask). simpl in *.
      exists []. rewrite List.app_nil_r. split; [exact Ht1|].
      split; [left; reflexivity|]. split; [|reflexivity].
      intros _. right. rewrite <- Hctx. exact Hno. }
  assert (Hnot : ~ (msg :: more = [] \/ ~ Forall formattable (msg :: more))).
  { rewrite <- Hctx. intros [H|H]; [rewrite Hctx in H; discriminate | exact (H Hf)]. }
  destruct (ask_model_run rt self context s Hf) as (request & Hask).
  destruct (generate_response (LLM_client self) request (world s))
    as [[response|e] w'] eqn:Egen; cbn [fst snd] in Hask.
  2:{ rewrite (bind_raise_eq _ _ _ _ _ Hask). cbn [snd trace].
      exists [EvGenerate request]. split; [reflexivity|].
      split; [right; left; exists request, e, w'; auto|].
      split; [discriminate | intros H; destruct (Hnot H)]. }
  rewrite (bind_ret_eq _ _ _ _ _ Hask). unfold try_except.
  match type of Hask with _ = (_, ?st) => set (s1 := st) in * end.
  set (s2 := snd (record (EvInterpret response) s1)).
  assert (Ht2 : trace s2 = (trace s ++ [EvGenerate request; EvInterpret response])%list).
  { unfold s2, s1. simpl. rewrite <- List.app_assoc. reflexivity. }
  destruct (_handle_model_response rt self response) as [a|e] eqn:Eh.
  2:{ rewrite (bind_raise_eq _ _ s1 e s2) by (rewrite interpret_eq, Eh; reflexivity).
      cbn [snd ret]. rewrite Ht2.
      exists [EvGenerate request; EvInterpret response]. split; [reflexivity|].
      split; [|split; [discriminate | intros H; destruct (Hnot H)]].
      right. right. exists request, response, w', []. split; [reflexivity|].
      split; [exact Egen|]. apply rounds_end. right.
      intros t p c H. rewrite Eh in H. discriminate H. }
  rewrite (bind_ret_eq _ _ s1 a s2) by (rewrite interpret_eq, Eh; reflexivity).
  assert (Hf2 : Forall formattable (lists s2 !!! context)) by exact Hf.
  destruct (tool_loop_rounds context 4 response a 0 s2 Eh Hf2 ltac:(simpl; lia))
    as (rest & Ht3 & Hr3).
  assert (Hstate :
    snd (match bind (tool_loop rt self 4 context a 0)
                 (fun final => match final with
                               | Some response =>
                                   bind (lift (text_of response))
                                        (fun text => ret (Some text))
                               | None => ret None
                               end) s2
         with
         | (Ret a, s') => (Ret a, s')
         | (Raise e, s') =>
             ret (Some (PStr ("Error processing request: " +:+ exc_msg e))) s'
         end)
    = snd (tool_loop rt self 4 context a 0 s2)).
  { unfold bind, lift, ret.
    destruct (tool_loop rt self 4 context a 0 s2) as [[[[t|t p c]|]|e] s3];
      reflexivity. }
  rewrite Hstate.
  exists (EvGenerate request :: EvInterpret response :: rest)%list. split.
  - rewrite Ht3, Ht2, <- !List.app_assoc. reflexivity.
  - split; [|split; [discriminate | intros H; destruct (Hnot H)]].
    right. right. exists request, response, w', rest. auto.
Qed.

(** Counting over the rounds: each dispatch is followed by one request
    to the model, and each answer is interpreted, unless the client
    raised. *)
Lemma rounds_count (n : nat) (response : string) (new : list event) :
  rounds rt self n response new ->
  (dispatches new <= n)%nat
  /\ model_calls new = dispatches new
  /\ (invocations new <= dispatches new)%nat
  /\ (length (List.filter is_interpret new) <= model_calls new)%nat
  /\ Forall (dispatch_registered self) new.
Proof.
  assert (Hran : forall tool ran, operation_of tool ran ->
            dispatches ran = 0%nat /\ model_calls ran = 0%nat
            /\ (invocations ran <= 1)%nat
            /\ length (List.filter is_interpret ran) = 0%nat
            /\ Forall (dispatch_registered self) ran).
  { intros tool ran [->|(args & ->)]; unfold dispatches, model_calls, invocations; simpl.
    - repeat split; auto.
    - repeat split; auto; repeat constructor. }
  induction 1 as [n response Hend
                 |n response tool params confirm ran request Hh Hop Hraises
                 |n response tool params confirm ran request answer rest Hh Hop Hans Hrest IH].
  - unfold dispatches, model_calls, invocations. simpl.
    split; [lia|]. split; [reflexivity|]. split; [lia|]. split; [lia|].
    apply Forall_nil. exact I.
  - destruct (Hran tool ran Hop) as (Hd & Hg & Hi & Hn & Hall).
    pose proof (handle_dispatchable rt self response _ Hh) as Hm. simpl in Hm.
    unfold dispatches, model_calls, invocations in *. simpl.
    rewrite !List.filter_app, !List.length_app. simpl.
    split; [lia|]. split; [lia|]. split; [lia|]. split; [lia|].
    apply Forall_cons. split; [exact Hm|]. apply Forall_app. split; [exact Hall|].
    apply Forall_cons. split; [exact I | apply Forall_nil; exact I].
  - destruct (Hran tool ran Hop) as (Hd & Hg & Hi & Hn & Hall).
    pose proof (handle_dispatchable rt self response _ Hh) as Hm. simpl in Hm.
    destruct IH as (Hd' & Hg' & Hi' & Hn' & Hall').
    unfold dispatches, model_calls, invocations in *. simpl.
    rewrite !List.filter_app, !List.length_app. simpl.
    split; [lia|]. split; [lia|]. split; [lia|]. split; [lia|].
    apply Forall_cons. split; [exact Hm|]. apply Forall_app. split; [exact Hall|].
    apply Forall_cons. split; [exact I|]. apply Forall_cons. split; [exact I | exact Hall'].
Qed.

End Rounds.


(** X11. In one call of [process_message] the model is asked at most four
    times, and exactly once more than tools are dispatched unless no
    call is made at all; no answer is interpreted that was not asked
    for, and every dispatch is for a tool of the registry. *)
Theorem model_is_asked_after_every_dispatch {World : Type} (rt : Runtime World)
    (self : Orchestrator World) (context : loc) (s : State World) :
  exists new,
    trace (snd (process_message rt self context s)) = (trace s ++ new)%list
    /\ (new = [] \/ model_calls new = S (dispatches new))
    /\ (model_calls new <= 4)%nat
    /\ (length (List.filter is_interpret new) <= model_calls new)%nat
    /\ Forall (dispatch_registered self) new.
Proof.
  destruct (process_message_trace rt self context s) as (new & Ht & Hp & _).
  exists new. split; [exact Ht|].
  destruct Hp as [->|[(q & e & w & -> & _)|(q & r & w & rest & -> & _ & Hr)]].
  - split; [left; reflexivity|]. unfold model_calls. simpl.
    split; [lia|]. split; [lia|]. apply Forall_nil. exact I.
  - split; [right; reflexivity|]. unfold model_calls. simpl.
    split; [lia|]. split; [lia|].
    apply Forall_cons. split; [exact I | apply Forall_nil; exact I].
  - destruct (rounds_count rt self 3 r rest Hr) as (Hd & Hg & Hi & Hn & Hall).
    unfold model_calls, dispatches in *. simpl.
    split; [right; lia|]. split; [lia|]. split; [lia|].
    apply Forall_cons. split; [exact I|]. apply Forall_cons. split; [exact I | exact Hall].
Qed.

(** ** A whole turn *)

Section Turn.
Context {World : Type} (rt : Runtime World) (self : Orchestrator World).

Lemma ask_model_returns context (s : State World) :
  Forall formattable (lists s !!! context) ->
  never_raises (LLM_client self) ->
  exists response s1, ask_model rt self context s = (Ret response, s1).
Proof.
  intros Hf Hc. destruct (ask_model_run rt self context s Hf) as (request & ->).
  destruct (Hc request (world s)) as (text & w & ->). eauto.
Qed.

(** A reply of the interpreter ends the call at once. *)
Lemma reply_ends_the_call context (s s1 : State World) (response : string)
    (text : value) (msg : message) (rest : list message) :
  lists s !!! context = msg :: rest ->
  ask_model rt self context s = (Ret response, s1) ->
  _handle_model_response rt self response = Ret (Reply text) ->
  process_message rt self context s
  = (Ret (Some text), snd (record (EvInterpret response) s1)).
Proof.
  intros Hctx Hask Hreply. unfold process_message, process_message_fuel.
  rewrite (bind_ret_eq _ _ s (lists s !!! context) s) by reflexivity.
  rewrite Hctx. rewrite (bind_ret_eq _ _ _ _ _ Hask). unfold try_except.
  rewrite (bind_ret_eq _ _ s1 (Reply text) (snd (record (EvInterpret response) s1)))
    by (rewrite interpret_eq, Hreply; reflexivity).
  reflexivity.
Qed.

End Turn.

Module LexFacts.
Import Json.

Lemma idle_step_extends c acc m a :
  idle_step c acc = Ret (m, a) -> exists pre, a = (pre ++ acc)%list.
Proof.
  unfold idle_step. destruct (is_ws c); [intros H; inversion H; exists []; reflexivity|].
  destruct (ord c =? 34)%N; [intros H; inversion H; exists []; reflexivity|].
  destruct (punct c) as [t|]; [intros H; inversion H; exists [t]; reflexivity|].
  destruct (is_word_char c); intros H; inversion H. exists []. reflexivity.
Qed.

(** The lexer only adds tokens after those it has. *)
Lemma lex_extends s :
  forall mode acc ts, lex s mode acc = Ret ts -> exists more, ts = (rev acc ++ more)%list.
Proof.
  assert (Hpre : forall (pre acc ts : list token),
            (exists more, ts = (rev (pre ++ acc) ++ more)%list) ->
            exists more, ts = (rev acc ++ more)%list).
  { intros pre acc ts (more & ->). exists (rev pre ++ more)%list.
    rewrite List.rev_app_distr, <- List.app_assoc. reflexivity. }
  induction s as [|c s IH]; intros mode acc ts H; simpl in H.
  { destruct mode; try discriminate H; inversion H.
    - exists []. rewrite List.app_nil_r. reflexivity.
    - simpl. eexists. reflexivity. }
  destruct mode as [|ps|ps|ps ds|w].
  - destruct (idle_step c acc) as [[m a]|e'] eqn:E; [|discriminate H].
    destruct (idle_step_extends _ _ _ _ E) as (pre & ->).
    exact (Hpre pre acc ts (IH _ _ _ H)).
  - destruct (ord c =? 34)%N; [exact (Hpre [_] acc ts (IH _ _ _ H))|].
    destruct (ord c =? 92)%N; [exact (IH _ _ _ H)|].
    destruct (ord c <? 32)%N; [discriminate H | exact (IH _ _ _ H)].
  - destruct (escape c) as [[c'|]|e']; try exact (IH _ _ _ H). discriminate H.
  - destruct (hex_val c); [|discriminate H].
    destruct ds as [|d2 [|d1 [|d0 [|d ds]]]]; exact (IH _ _ _ H).
  - destruct (is_word_char c); [exact (IH _ _ _ H)|].
    destruct (idle_step c _) as [[m a]|e'] eqn:E; [|discriminate H].
    destruct (idle_step_extends _ _ _ _ E) as (pre & ->).
    apply (Hpre (pre ++ [TWord (String.rev w)])%list acc ts).
    rewrite <- List.app_assoc. exact (IH _ _ _ H).
Qed.

(** The text the Gemini client returns for a failure is not JSON. *)
Lemma error_text_is_not_json (msg : string) :
  exists e, loads ("Error generating response: " +:+ msg) = Raise e.
Proof.
  unfold loads.
  change (lex ("Error generating response: " +:+ msg) LIdle [])
    with (lex msg LIdle [TColon; TWord "response"; TWord "generating"; TWord "Error"]).
  destruct (lex msg LIdle _) as [ts|e] eqn:E; [|eauto].
  destruct (lex_extends _ _ _ _ E) as (more & ->). eexists. reflexivity.
Qed.

End LexFacts.

(** X12. With a client that keeps its rule not to raise, and a context
    in which every message has a role that is a string and a content,
    [process_message] does not raise: it returns a value. *)
Theorem process_message_returns {World : Type} (rt : Runtime World)
    (self : Orchestrator World) (context : loc) (s : State World) :
  Forall formattable (lists s !!! context) ->
  never_raises (LLM_client self) ->
  exists v, fst (process_message rt self context s) = Ret (Some v).
Proof.
  intros Hf Hc. destruct (ask_model_returns rt self context s Hf Hc) as (r & s1 & Hask).
  exact (later_exceptions_are_caught rt self context s s1 r Hask).
Qed.

(** X13. What the history store hands out, the orchestrator can
    process. The messages [get_recent_messages] returns after a message
    was added are a context that is not empty and can be formatted, for
    every limit other than zero: with a client that does not raise,
    [process_message] returns a value on it and asks the model at least
    once. *)
Theorem stored_history_is_processed {World : Type} (rt : Runtime World)
    (self : Orchestrator World) (st : History.store) (now role content : string)
    (limit : Z) (context : loc) (s : State World) :
  limit <> 0 ->
  lists s !!! context
  = History.get_recent_messages (snd (History.add_message st now role content)) limit ->
  never_raises (LLM_client self) ->
  lists s !!! context <> []
  /\ Forall formattable (lists s !!! context)
  /\ (exists v, fst (process_message rt self context s) = Ret (Some v))
  /\ exists new,
       trace (snd (process_message rt self context s)) = (trace s ++ new)%list
       /\ (1 <= model_calls new)%nat.
Proof.
  intros Hlimit Hctx Hc.
  assert (Hne : lists s !!! context <> []).
  { intros Hnone. pose proof (eq_trans (eq_sym Hctx) Hnone) as Hnil. clear Hnone. apply (f_equal (@length _)) in Hnil. revert Hnil.
    unfold History.get_recent_messages, History.limited.
    rewrite List.length_map, List.length_rev.
    destruct (limit <? 0) eqn:E.
    - rewrite HistoryFacts.newest_first_length. simpl. rewrite List.length_app. simpl. lia.
    - apply Z.ltb_ge in E.
      rewrite List.length_firstn, HistoryFacts.newest_first_length. simpl.
      rewrite List.length_app. simpl. lia. }
  assert (Hf : Forall formattable (lists s !!! context)).
  { cut (Forall formattable
           (History.get_recent_messages (snd (History.add_message st now role content))
              limit)).
    { intros H. exact (eq_ind_r (Forall formattable) H Hctx). }
    unfold History.get_recent_messages. apply Forall_forall.
    intros msg Hin. apply list_elem_of_In in Hin. apply List.in_map_iff in Hin.
    destruct Hin as (r & <- & _). eexists _, _. split; reflexivity. }
  split; [exact Hne|]. split; [exact Hf|]. split.
  - destruct (ask_model_returns rt self context s Hf Hc) as (r & s1 & Hask).
    exact (later_exceptions_are_caught rt self context s s1 r Hask).
  - destruct (process_message_trace rt self context s) as (new & Ht & Hp & Hnil).
    exists new. split; [exact Ht|].
    destruct Hp as [->|[(q & e & w & -> & _)|(q & r & w & rest & -> & _)]].
    + destruct (proj1 Hnil eq_refl) as [H|H]; contradiction.
    + unfold model_calls. simpl. lia.
    + unfold model_calls. simpl. lia.
Qed.

(** X14. The Gemini client turns every failure of the service into the
    text [Error generating response: ...], and so never raises. That
    text is not JSON: when the service fails on the first request,
    [process_message] answers that the model's response was invalid
    JSON, dispatches nothing and leaves the context as it is. *)
Theorem service_failure_becomes_a_reply {World : Type} (rt : Runtime World)
    (self : Orchestrator World) (generate_content : string -> effect World string)
    (context : loc) (s : State World) :
  LLM_client self = GeminiClient generate_content ->
  lists s !!! context <> [] ->
  Forall formattable (lists s !!! context) ->
  (forall request, exists e w, generate_content request (world s) = (Raise e, w)) ->
  never_raises (LLM_client self)
  /\ exists reason request failure,
       fst (process_message rt self context s)
       = Ret (Some (PStr ("Invalid JSON response from model: " +:+ reason
                          +:+ ". Please try again.")))
       /\ trace (snd (process_message rt self context s))
          = (trace s ++ [EvGenerate request;
                         EvInterpret ("Error generating response: " +:+ failure)])%list
       /\ lists (snd (process_message rt self context s)) = lists s.
Proof.
  intros Hclient Hne Hf Hfail. split.
  { rewrite Hclient. intros prompt w. unfold GeminiClient. simpl.
    destruct (generate_content prompt w) as [[text|e] w']; eauto. }
  destruct (ask_model_run rt self context s Hf) as (request & Hask).
  rewrite Hclient in Hask. unfold GeminiClient in Hask. simpl in Hask.
  destruct (Hfail request) as (e & w & He). rewrite He in Hask. simpl in Hask.
  destruct (LexFacts.error_text_is_not_json (exc_msg e)) as (e' & Hloads).
  pose proof (malformed_json_is_reply rt self _ e' Hloads) as Hreply.
  destruct (lists s !!! context) as [|msg rest] eqn:Hctx; [contradiction|].
  exists (exc_msg e'), request, (exc_msg e).
  rewrite (reply_ends_the_call rt self context s _ _ _ msg rest Hctx Hask Hreply).
  simpl. rewrite <- List.app_assoc. auto.
Qed.

(** ** The prompt *)

Section Prompt.
Context {World : Type} (rt : Runtime World).

Lemma format_messages_each (messages : list message) (vs : list value) :
  format_messages rt messages = Ret vs -> Forall2 (formatted_as rt) messages vs.
Proof.
  revert vs. induction messages as [|msg rest IH]; intros vs H; simpl in H.
  - injection H as <-. constructor.
  - unfold format_message, getitem in H.
    destruct (Dict.get msg "role") as [role|] eqn:Er; simpl in H; [|discriminate].
    destruct role as [| | | |r| |]; simpl in H; try discriminate.
    destruct (Dict.get msg "content") as [content|] eqn:Ec; simpl in H; [|discriminate].
    destruct (format_messages rt rest) as [vs'|e]; simpl in H; [|discriminate].
    injection H as <-. constructor; [|exact (IH vs' eq_refl)].
    exists r, content. split; [exact Er|]. split; [exact Ec | reflexivity].
Qed.

(** The exception of a message that cannot be formatted. *)
Lemma format_message_error (msg : message) (e : exn) :
  format_message rt msg = Raise e ->
  (Dict.get msg "role" = None /\ e = KeyError "role")
  \/ (exists role, Dict.get msg "role" = Some role
                   /\ (forall r, role <> PStr r) /\ e = AttributeError role "lower")
  \/ ((exists r, Dict.get msg "role" = Some (PStr r))
      /\ Dict.get msg "content" = None /\ e = KeyError "content").
Proof.
  unfold format_message, getitem.
  destruct (Dict.get msg "role") as [role|]; simpl;
    [|intros H; injection H as <-; left; auto].
  destruct role; simpl;
    try (intros H; injection H as <-; right; left; eexists; split; [reflexivity|];
         split; [intros r; discriminate | reflexivity]).
  destruct (Dict.get msg "content") as [content|]; simpl; [discriminate|].
  intros H. injection H as <-. right. right. eauto.
Qed.

Lemma format_messages_first_error (good : list message) (bad : message)
    (rest : list message) (e : exn) :
  Forall formattable good ->
  format_message rt bad = Raise e ->
  format_messages rt (good ++ bad :: rest) = Raise e.
Proof.
  intros Hgood Hbad. induction good as [|msg good IH]; simpl.
  - rewrite Hbad. reflexivity.
  - apply Forall_cons in Hgood. destruct Hgood as [Hmsg Hgood].
    apply (format_message_ok rt) in Hmsg. destruct Hmsg as (v & ->). simpl.
    rewrite (IH Hgood). reflexivity.
Qed.

End Prompt.

(** X15. [build_prompt] changes nothing. When every message has a role
    that is a string and a content, it returns the prompt with the keys
    [system], [tools], [messages], [current_time] and, if examples are
    given, [examples], in this order, with one formatted message for
    each message and one entry for each tool, in their order. Otherwise
    it raises what the first message that cannot be formatted makes it
    raise: a [KeyError] for a missing [role] or [content], an
    [AttributeError] for a role that is not a string. *)
Theorem build_prompt_formats_every_message {World : Type} (rt : Runtime World)
    (messages : list message) (tools : list Tool.t) (system : option string)
    (examples : option value) (s : State World) :
  (Forall formattable messages ->
   exists formatted,
     build_prompt rt messages tools system examples s
     = (Ret (PDict ([("system", PStr (default default_system system));
                     ("tools", PList (map format_tool tools));
                     ("messages", PList formatted);
                     ("current_time", PStr (datetime_now rt (world s)))]
                    ++ examples_entry examples)), s)
     /\ Forall2 (formatted_as rt) messages formatted)
  /\ (forall good bad rest,
        messages = (good ++ bad :: rest)%list ->
        Forall formattable good ->
        ~ formattable bad ->
        exists e,
          build_prompt rt messages tools system examples s = (Raise e, s)
          /\ format_message rt bad = Raise e
          /\ (e = KeyError "role" \/ e = KeyError "content"
              \/ exists role, Dict.get bad "role" = Some role
                              /\ e = AttributeError role "lower")).
Proof.
  split.
  - intros Hf. apply (format_messages_ok rt) in Hf. destruct Hf as (vs & Hvs).
    exists vs. split; [|exact (format_messages_each rt _ _ Hvs)].
    unfold build_prompt, bind, lift, now, ret. rewrite Hvs.
    destruct system as [sys|]; destruct examples as [ex|]; simpl;
      try destruct (truthy ex); reflexivity.
  - intros good bad rest -> Hgood Hbad.
    destruct (format_message rt bad) as [v|e] eqn:E.
    { exfalso. apply Hbad. apply (format_message_ok rt). eauto. }
    exists e. split; [|split; [reflexivity|]].
    + unfold build_prompt, bind, lift.
      rewrite (format_messages_first_error rt good bad rest e Hgood E). reflexivity.
    + destruct (format_message_error rt bad e E)
        as [[_ ->]|[(role & Hr & _ & ->)|(_ & _ & ->)]]; eauto.
Qed.

(** ** The interpreter *)

(** X16. The interpreter returns a tool call exactly for a JSON object
    whose [type] is a string that reads [tool_call] in any case, and
    whose [tool] is a string, not empty, that names a tool of the
    registry. The call carries that name, the [params] of the object,
    or an empty dict, and its [confirm], or [False]. *)
Theorem tool_call_is_validated {World : Type} (rt : Runtime World)
    (self : Orchestrator World) (response tool : string) (params confirm : value) :
  _handle_model_response rt self response = Ret (ToolCall tool params confirm)
  <-> exists data type,
        Json.loads response = Ret (PDict data)
        /\ Dict.get data "type" = Some (PStr type)
        /\ lower type = "tool_call"
        /\ Dict.get data "tool" = Some (PStr tool)
        /\ tool <> EmptyString
        /\ Dict.mem (_tool_mapping self) tool = true
        /\ params = Dict.get_default data "params" (PDict [])
        /\ confirm = Dict.get_default data "confirm" (PBool false).
Proof.
  unfold _handle_model_response, reply. split.
  - destruct (Json.loads response) as [v|e];
      [|destruct (isinstance e "JSONDecodeError"); discriminate].
    destruct v as [| | | | | |data]; try discriminate.
    unfold Dict.get_default at 1.
    destruct (Dict.get data "type") as [[| | | |type| |]|] eqn:Et; try discriminate.
    destruct (String.eqb (lower type) "reply"); [discriminate|].
    destruct (String.eqb (lower type) "tool_call") eqn:Ec; [|discriminate].
    apply String.eqb_eq in Ec.
    unfold Dict.get_default at 1 2.
    destruct (Dict.get data "tool") as [t|] eqn:Etool; [|simpl; discriminate].
    destruct (negb (truthy t)) eqn:Etruthy; [discriminate|].
    destruct t as [| | | |name| |];
      try (destruct (hashable _); discriminate).
    destruct (Dict.mem (_tool_mapping self) name) eqn:Em; simpl; [|discriminate].
    intros H. injection H as <- <- <-.
    exists data, type. repeat split; auto.
    intros ->. simpl in Etruthy. discriminate.
  - intros (data & type & -> & Et & Ec & Etool & Hne & Hm & -> & ->).
    unfold Dict.get_default at 1. rewrite Et, Ec. simpl String.eqb. cbv iota.
    unfold Dict.get_default at 1 2. rewrite Etool.
    assert (Htruthy : truthy (PStr tool) = true).
    { simpl. apply negb_true_iff. apply String.eqb_neq. exact Hne. }
    rewrite Htruthy, Hm. reflexivity.
Qed.

(** ** The adapter cache *)

Section Cache.
Context {World : Type} (rt : Runtime World) (self : Orchestrator World).

Lemma resolve_adapter_cached adapter_name adapter (s : State World) :
  Dict.get (_tool_cache s) adapter_name = Some adapter ->
  resolve_adapter rt self adapter_name s = (Ret (Some adapter), s).
Proof.
  intros H. unfold resolve_adapter, bind, cached_adapter. rewrite H. reflexivity.
Qed.

Lemma load_adapter_class_cache adapter_name (s : State World) :
  _tool_cache (snd (_load_adapter_class rt self adapter_name s)) = _tool_cache s.
Proof.
  unfold _load_adapter_class.
  destruct (MemoryDB.select_adapter _ _); [|reflexivity].
  unfold try_except_only, try_except, bind, external, ret, raise.
  destruct (import_module rt _ (world s)) as [[module|e] w]; simpl; [reflexivity|].
  destruct (isinstance e "ImportError"); reflexivity.
Qed.

(** What [resolve_adapter] does to the cache: nothing, or one entry
    more, for an adapter that had none. *)
Lemma resolve_adapter_cache adapter_name (s : State World) :
  (_tool_cache (snd (resolve_adapter rt self adapter_name s)) = _tool_cache s
   /\ forall adapter, fst (resolve_adapter rt self adapter_name s) = Ret (Some adapter) ->
                      Dict.get (_tool_cache s) adapter_name = Some adapter)
  \/ exists adapter,
       Dict.get (_tool_cache s) adapter_name = None
       /\ fst (resolve_adapter rt self adapter_name s) = Ret (Some adapter)
       /\ _tool_cache (snd (resolve_adapter rt self adapter_name s))
          = Dict.set (_tool_cache s) adapter_name adapter.
Proof.
  pose proof (load_adapter_class_cache adapter_name s) as Hload.
  unfold resolve_adapter, cached_adapter, bind. cbv beta.
  destruct (Dict.get (_tool_cache s) adapter_name) as [cached|] eqn:Ec.
  { left. simpl. split; [reflexivity|]. intros adapter H. injection H as <-. reflexivity. }
  destruct (_load_adapter_class rt self adapter_name s) as [[[cls|]|e] s1];
    simpl in Hload; try (left; simpl; split; [exact Hload | discriminate]).
  unfold external, cache_adapter, ret.
  destruct (construct cls (world s1)) as [[adapter|e] w]; simpl.
  - right. exists adapter. rewrite Hload. auto.
  - left. split; [exact Hload | discriminate].
Qed.

Lemma call_cache tool_name sig (run : Dict.t value -> effect World value) valid_params
    (s : State World) :
  _tool_cache (snd (call tool_name sig run valid_params s)) = _tool_cache s.
Proof.
  unfold call, bind, lift, record, external.
  destruct (bind_call sig valid_params) as [args|e]; [|reflexivity]. simpl.
  destruct (run args (world s)); reflexivity.
Qed.

(** After the adapter is resolved, the dispatcher leaves the cache. *)
Lemma execute_body_cache tool_name adapter_name params (s : State World) :
  _tool_cache (snd (execute_body rt self tool_name adapter_name params s))
  = _tool_cache (snd (resolve_adapter rt self adapter_name s)).
Proof.
  unfold execute_body, bind at 1.
  destruct (resolve_adapter rt self adapter_name s) as [[[adapter|]|e] s1];
    try reflexivity.
  simpl snd. destruct (getattr adapter _) as [[sig run|v]|]; try reflexivity.
  unfold bind, lift. destruct (bind_params sig params []) as [[missing|valid]|e];
    try reflexivity.
  apply call_cache.
Qed.

Lemma execute_tool_cache tool_name params (s : State World) :
  _tool_cache (snd (_execute_tool rt self tool_name params s)) = _tool_cache s
  \/ exists tool_info adapter,
       Dict.get (_tool_mapping self) tool_name = Some tool_info
       /\ Dict.get (_tool_cache s) (Tool.adapter tool_info) = None
       /\ _tool_cache (snd (_execute_tool rt self tool_name params s))
          = Dict.set (_tool_cache s) (Tool.adapter tool_info) adapter.
Proof.
  unfold _execute_tool.
  set (s0 := snd (record (EvDispatch tool_name params) s)).
  rewrite (bind_ret_eq _ _ s tt s0) by reflexivity.
  destruct (Dict.get (_tool_mapping self) tool_name) as [tool_info|]; [|left; reflexivity].
  assert (Hsame :
    _tool_cache (snd (try_except
                        (execute_body rt self tool_name (Tool.adapter tool_info) params)
                        (fun e => ret (structured_error e tool_name params)) s0))
    = _tool_cache (snd (resolve_adapter rt self (Tool.adapter tool_info) s0))).
  { rewrite <- execute_body_cache with (tool_name := tool_name) (params := params).
    unfold try_except.
    destruct (execute_body rt self tool_name (Tool.adapter tool_info) params s0)
      as [[v|e] s1]; reflexivity. }
  rewrite Hsame.
  destruct (resolve_adapter_cache (Tool.adapter tool_info) s0)
    as [[Hc _]|(adapter & Hnone & _ & Hc)].
  - left. exact Hc.
  - right. exists tool_info, adapter. auto.
Qed.

End Cache.

(** X17. An adapter object is made once. When [resolve_adapter] returns
    an adapter, the cache holds it under its name, and resolving the name
    again in any state whose cache holds it returns the same object and
    changes nothing: no import, no constructor call. A dispatch never
    drops or replaces an adapter of the cache. *)
Theorem adapter_is_constructed_once {World : Type} (rt : Runtime World)
    (self : Orchestrator World) (adapter_name : string) (adapter : Adapter World)
    (s s1 : State World) :
  resolve_adapter rt self adapter_name s = (Ret (Some adapter), s1) ->
  Dict.get (_tool_cache s1) adapter_name = Some adapter
  /\ (forall s2, Dict.get (_tool_cache s2) adapter_name = Some adapter ->
                 resolve_adapter rt self adapter_name s2 = (Ret (Some adapter), s2))
  /\ (forall tool_name params s2 name cached,
        Dict.get (_tool_cache s2) name = Some cached ->
        Dict.get (_tool_cache (snd (_execute_tool rt self tool_name params s2))) name
        = Some cached).
Proof.
  intros Hres. split; [|split].
  - destruct (resolve_adapter_cache rt self adapter_name s)
      as [[Hc Hget]|(a & Hnone & Hfst & Hc)]; rewrite Hres in *; simpl in *.
    + rewrite Hc. apply Hget. reflexivity.
    + injection Hfst as ->. rewrite Hc. apply RegistryFacts.get_set_same.
  - intros s2. apply resolve_adapter_cached.
  - intros tool_name params s2 name cached Hget.
    destruct (execute_tool_cache rt self tool_name params s2)
      as [->|(tool_info & a & _ & Hnone & ->)]; [exact Hget|].
    rewrite RegistryFacts.get_set_other; [exact Hget|].
    intros <-. congruence.
Qed.

(** ** Adapters that cannot be used *)

(** X18. A registered tool whose adapter cannot be loaded: the catalog
    has no adapter of that name, or its module cannot be imported, or
    the module has no class of the name the catalog gives. The
    dispatcher then returns the error [Could not load adapter], runs no
    operation and caches nothing, so that the next dispatch tries
    again. *)
Theorem adapter_that_cannot_be_loaded {World : Type} (rt : Runtime World)
    (self : Orchestrator World) (tool_name : string) (tool_info : Tool.t)
    (params : value) (s : State World) :
  Dict.get (_tool_mapping self) tool_name = Some tool_info ->
  Dict.get (_tool_cache s) (Tool.adapter tool_info) = None ->
  (MemoryDB.select_adapter (memory_db self) (Tool.adapter tool_info) = None
   \/ exists row,
        MemoryDB.select_adapter (memory_db self) (Tool.adapter tool_info) = Some row
        /\ ((exists e w,
               import_module rt (adapter_module_path (Tool.adapter tool_info)) (world s)
               = (Raise e, w)
               /\ isinstance e "ImportError" = true)
            \/ (exists module w,
                  import_module rt (adapter_module_path (Tool.adapter tool_info)) (world s)
                  = (Ret module, w)
                  /\ module (MemoryDB.a_class_name row) = None))) ->
  fst (_execute_tool rt self tool_name params s)
  = Ret (PDict [("error", PStr ("Could not load adapter: " +:+ Tool.adapter tool_info))])
  /\ _tool_cache (snd (_execute_tool rt self tool_name params s)) = _tool_cache s
  /\ trace (snd (_execute_tool rt self tool_name params s))
     = (trace s ++ [EvDispatch tool_name params])%list
  /\ lists (snd (_execute_tool rt self tool_name params s)) = lists s.
Proof.
  intros Hinfo Hcache Hwhy.
  assert (Heq : exists w,
    _execute_tool rt self tool_name params s
    = (Ret (error_only ("Could not load adapter: " +:+ Tool.adapter tool_info)),
       {| world := w; lists := lists s; _tool_cache := _tool_cache s;
          trace := trace s ++ [EvDispatch tool_name params] |})).
  { unfold _execute_tool, try_except, execute_body, resolve_adapter, cached_adapter,
      _load_adapter_class, try_except_only, try_except, bind, record, external, ret, raise.
    cbv beta. rewrite Hinfo. cbn [_tool_cache world]. rewrite Hcache.
    destruct Hwhy
      as [->|(row & -> & [(e & w & Himport & Hcls)|(module & w & Himport & Hnone)])].
    - eexists. reflexivity.
    - cbn [world lists _tool_cache trace]. rewrite Himport, Hcls. eexists. reflexivity.
    - cbn [world lists _tool_cache trace]. rewrite Himport, Hnone. eexists. reflexivity. }
  destruct Heq as (w & ->). simpl. auto.
Qed.

(** X19. The operation of a tool is the attribute of its adapter named by
    what follows the last dot of the tool name. When the adapter has no
    such attribute, the dispatcher returns the error that names adapter
    and operation, and runs nothing. *)
Theorem missing_operation_is_reported {World : Type} (rt : Runtime World)
    (self : Orchestrator World) (tool_name : string) (tool_info : Tool.t)
    (adapter : Adapter World) (params : value) (s : State World) :
  Dict.get (_tool_mapping self) tool_name = Some tool_info ->
  Dict.get (_tool_cache s) (Tool.adapter tool_info) = Some adapter ->
  getattr adapter (last_segment "." tool_name) = None ->
  _execute_tool rt self tool_name params s
  = (Ret (PDict [("error",
                  PStr ("Adapter '" +:+ Tool.adapter tool_info +:+ "' has no method '"
                        +:+ last_segment "." tool_name +:+ "'"))]),
     snd (record (EvDispatch tool_name params) s)).
Proof.
  intros Hinfo Hcache Hattr. unfold _execute_tool.
  rewrite (bind_ret_eq _ _ s tt (snd (record (EvDispatch tool_name params) s)))
    by reflexivity.
  rewrite Hinfo. unfold try_except, execute_body.
  rewrite (bind_ret_eq _ _ _ _ _
             (resolve_adapter_cached rt self (Tool.adapter tool_info) adapter
                (snd (record (EvDispatch tool_name params) s)) Hcache)).
  rewrite Hattr. reflexivity.
Qed.

(** ** The catalog stays consistent *)

Module CatalogFacts.
Import MemoryDB.

Lemma nodup_snoc {A : Type} (l : list A) (x : A) :
  NoDup l -> ~ In x l -> NoDup (l ++ [x]).
Proof.
  intros Hl Hx. apply NoDup_app. split; [exact Hl|]. split; [|apply NoDup_singleton].
  intros y Hy Hin. apply list_elem_of_In in Hy. apply list_elem_of_In in Hin.
  destruct Hin as [<-|[]]. exact (Hx Hy).
Qed.

Lemma above_is_fresh {A : Type} (f : A -> Z) (l : list A) (top : Z) :
  Forall (fun x => f x <= top) l -> ~ In (top + 1) (map f l).
Proof.
  intros Hall Hin. apply List.in_map_iff in Hin. destruct Hin as (x & Hx & Hin).
  rewrite Forall_forall in Hall. specialize (Hall x (proj2 (list_elem_of_In _ _) Hin)).
  simpl in Hall. lia.
Qed.

Lemma counted_more {A : Type} (f : A -> Z) (l : list A) (top : Z) (x : A) :
  Forall (fun y => f y <= top) l -> f x = top + 1 ->
  Forall (fun y => f y <= top + 1) (l ++ [x]).
Proof.
  intros Hall Hx. apply Forall_app. split.
  - eapply Forall_impl; [exact Hall|]. intros y Hy. simpl in *. lia.
  - apply Forall_cons. split; [lia | apply Forall_nil; exact I].
Qed.

Lemma empty_consistent : consistent empty.
Proof.
  split; simpl; try (apply NoDup_nil; exact I); try (apply Forall_nil; exact I).
Qed.

Lemma register_adapter_consistent (d : db) (n c desc : string) :
  consistent d -> consistent (snd (register_adapter d n c desc)).
Proof.
  intros [Hids Hcount Hnames Htids Htcount Htnames Href].
  unfold register_adapter, insert_or_ignore_adapter. simpl.
  destruct (select_adapter d n) as [a|] eqn:E.
  { split; simpl; try assumption.
    eapply Forall_impl; [exact Hcount|]. intros x Hx. simpl in *. lia. }
  split; simpl; try assumption.
  - rewrite List.map_app. apply nodup_snoc; [exact Hids|].
    apply above_is_fresh. exact Hcount.
  - apply counted_more; [exact Hcount | reflexivity].
  - unfold unique_adapter_names. simpl. rewrite List.map_app.
    apply nodup_snoc; [exact Hnames|]. simpl. intros Hin.
    apply List.in_map_iff in Hin. destruct Hin as (a & Ha & Hin).
    unfold select_adapter in E. pose proof (List.find_none _ _ E a Hin) as Hno.
    simpl in Hno. apply String.eqb_neq in Hno. exact (Hno Ha).
  - unfold referential in *. simpl. eapply Forall_impl; [exact Href|].
    intros t (a & Ha & Hid). exists a. split; [|exact Hid].
    apply List.in_or_app. left. exact Ha.
Qed.

Lemma register_tool_consistent (d : db) (aid : Z) (n sd ex : string) (se : bool)
    (fn : option string) :
  consistent d ->
  (exists a, In a (adapters d) /\ a_id a = aid) ->
  consistent (snd (register_tool d aid n sd ex se fn)).
Proof.
  intros [Hids Hcount Hnames Htids Htcount Htnames Href] Had.
  unfold register_tool, insert_or_ignore_tool. simpl.
  destruct (select_tool d (effective_full_name aid n fn)) as [r|] eqn:E.
  { split; simpl; try assumption.
    eapply Forall_impl; [exact Htcount|]. intros x Hx. simpl in *. lia. }
  split; simpl; try assumption.
  - rewrite List.map_app. apply nodup_snoc; [exact Htids|].
    apply above_is_fresh. exact Htcount.
  - apply counted_more; [exact Htcount | reflexivity].
  - unfold unique_full_names. simpl. rewrite List.map_app.
    apply nodup_snoc; [exact Htnames|]. simpl. intros Hin.
    exact (MemoryDBFacts.find_none_not_in _ _ E Hin).
  - unfold referential in *. simpl. apply Forall_app. split; [exact Href|].
    apply Forall_cons. split; [exact Had | apply Forall_nil; exact I].
Qed.

Lemma register_tools_consistent {World : Type} (rt : Runtime World)
    (self : ToolAdapter.t) (aid : Z) (todo : list ToolAdapter.tool) :
  forall d ids,
  consistent d ->
  (exists a, In a (adapters d) /\ a_id a = aid) ->
  consistent (snd (ToolAdapter.register_tools rt self aid todo d ids)).
Proof.
  induction todo as [|tl rest IH]; intros d ids Hc Had; [exact Hc|].
  cbn [ToolAdapter.register_tools].
  set (sd := default EmptyString (ToolAdapter.tool_description tl)).
  set (ex := match ToolAdapter.tool_example tl with
             | Some example => str rt example
             | None => EmptyString
             end).
  set (se := default false (ToolAdapter.tool_side_effects tl)).
  pose proof (register_tool_consistent d aid (ToolAdapter.tool_name tl) sd ex se
                (Some (ToolAdapter.full_name self tl)) Hc Had) as Hc1.
  destruct (RegisterFacts.register_tool_row d aid (ToolAdapter.tool_name tl) sd ex se
              (ToolAdapter.full_name self tl)) as (r & Hret & _ & _ & Hads & _).
  destruct (register_tool d aid (ToolAdapter.tool_name tl) sd ex se
              (Some (ToolAdapter.full_name self tl))) as [o d1].
  simpl in Hret, Hads, Hc1. subst o.
  apply IH; [exact Hc1 | rewrite Hads; exact Had].
Qed.

(** In a list without two elements of the same key, the elements of one
    key are one element. *)
Lemma filter_unique {A : Type} (f : A -> Z) (l : list A) (a : A) :
  NoDup (map f l) -> In a l -> List.filter (fun x => f x =? f a) l = [a].
Proof.
  induction l as [|x l IH]; intros Hnd Hin; [contradiction|].
  simpl in Hnd. apply NoDup_cons in Hnd. destruct Hnd as [Hx Hnd]. simpl.
  assert (Hnone : forall k, ~ In k (map f l) -> List.filter (fun y => f y =? k) l = []).
  { clear. intros k. induction l as [|y l IH]; intros H; [reflexivity|]. simpl in *.
    destruct (f y =? k) eqn:E.
    - apply Z.eqb_eq in E. exfalso. apply H. left. exact E.
    - apply IH. intros Hin. apply H. right. exact Hin. }
  destruct Hin as [->|Hin].
  - rewrite Z.eqb_refl. f_equal. apply Hnone. intros H. apply Hx.
    apply list_elem_of_In. exact H.
  - destruct (f x =? f a) eqn:E.
    + apply Z.eqb_eq in E. exfalso. apply Hx. rewrite E. apply list_elem_of_In.
      apply List.in_map. exact Hin.
    + exact (IH Hnd Hin).
Qed.

Lemma find_unique {A : Type} (f : A -> Z) (l : list A) (a : A) :
  NoDup (map f l) -> In a l -> find (fun x => f x =? f a) l = Some a.
Proof.
  induction l as [|x l IH]; intros Hnd Hin; [contradiction|].
  simpl in Hnd. apply NoDup_cons in Hnd. destruct Hnd as [Hx Hnd]. simpl.
  destruct Hin as [->|Hin]; [rewrite Z.eqb_refl; reflexivity|].
  destruct (f x =? f a) eqn:E; [|exact (IH Hnd Hin)].
  apply Z.eqb_eq in E. exfalso. apply Hx. rewrite E. apply list_elem_of_In.
  apply List.in_map. exact Hin.
Qed.

(** With distinct names, the registry has the names in their order. *)
Lemma mapping_keys (tools : list Tool.t) :
  forall m,
  NoDup (Dict.keys m ++ map Tool.name tools) ->
  Dict.keys (mapping_from m tools) = (Dict.keys m ++ map Tool.name tools)%list.
Proof.
  induction tools as [|t tools IH]; intros m Hnd; simpl.
  - rewrite List.app_nil_r. reflexivity.
  - assert (Hfresh : Dict.mem m (Tool.name t) = false).
    { rewrite DictFacts.mem_get. destruct (Dict.get m (Tool.name t)) eqn:E; [|reflexivity].
      exfalso. apply NoDup_app in Hnd. destruct Hnd as (_ & Hdis & _).
      apply (Hdis (Tool.name t)).
      - apply list_elem_of_In. exact (DictFacts.get_some_in _ _ _ E).
      - apply list_elem_of_In. left. reflexivity. }
    change (mapping_from m (t :: tools))
      with (mapping_from (Dict.set m (Tool.name t) t) tools).
    assert (Hkeys : Dict.keys (Dict.set m (Tool.name t) t)
                    = (Dict.keys m ++ [Tool.name t])%list).
    { rewrite RegistryFacts.keys_set, Hfresh. reflexivity. }
    rewrite IH; rewrite Hkeys, <- List.app_assoc; [reflexivity | exact Hnd].
Qed.

End CatalogFacts.

(** X20. The catalog stays consistent. The empty catalog is consistent,
    and [register_adapter], [register_tool] for an adapter that exists
    and [ToolAdapter.register] keep it so: identifiers, adapter names
    and full tool names stay distinct, and every tool belongs to an
    adapter of the catalog. *)
Theorem catalog_stays_consistent {World : Type} (rt : Runtime World) :
  consistent MemoryDB.empty
  /\ (forall d name class_name description,
        consistent d ->
        consistent (snd (MemoryDB.register_adapter d name class_name description)))
  /\ (forall d adapter_id name short_desc example side_effects full_name,
        consistent d ->
        (exists a, In a (MemoryDB.adapters d) /\ MemoryDB.a_id a = adapter_id) ->
        consistent (snd (MemoryDB.register_tool d adapter_id name short_desc example
                           side_effects full_name)))
  /\ (forall adapter d,
        consistent d -> consistent (snd (ToolAdapter.register rt adapter d))).
Proof.
  split; [exact CatalogFacts.empty_consistent|].
  split; [intros; apply CatalogFacts.register_adapter_consistent; assumption|].
  split; [intros; apply CatalogFacts.register_tool_consistent; assumption|].
  intros adapter d Hc. unfold ToolAdapter.register.
  pose proof (CatalogFacts.register_adapter_consistent d (ToolAdapter.name adapter)
                (ToolAdapter.class_name adapter) (ToolAdapter.description adapter) Hc)
    as Hc1.
  destruct (RegisterFacts.register_adapter_row d (ToolAdapter.name adapter)
              (ToolAdapter.class_name adapter) (ToolAdapter.description adapter))
    as (a & Hret & Hin & _).
  destruct (MemoryDB.register_adapter d (ToolAdapter.name adapter)
              (ToolAdapter.class_name adapter) (ToolAdapter.description adapter))
    as [o d1].
  simpl in Hret, Hin, Hc1. subst o.
  pose proof (CatalogFacts.register_tools_consistent rt adapter (MemoryDB.a_id a)
                (ToolAdapter.tools adapter) d1 [] Hc1 (ex_intro _ a (conj Hin eq_refl)))
    as Hc2.
  destruct (ToolAdapter.register_tools rt adapter (MemoryDB.a_id a)
              (ToolAdapter.tools adapter) d1 []) as [[ids|e] d2]; exact Hc2.
Qed.

(** X21. On a consistent catalog [get_tools] lists every row of [tools]
    once, in row order, under its full name and with the name of its
    adapter; the names are distinct, and they are the keys of the
    registry an orchestrator builds from the catalog, in the same
    order. *)
Theorem get_tools_lists_each_tool_once {World : Type} (client : LLMClient World)
    (d : MemoryDB.db) :
  consistent d ->
  map Tool.name (MemoryDB.get_tools d) = map MemoryDB.t_full_name (MemoryDB.tools d)
  /\ map (fun tool => Some (Tool.adapter tool)) (MemoryDB.get_tools d)
     = map (adapter_of d) (MemoryDB.tools d)
  /\ NoDup (map Tool.name (MemoryDB.get_tools d))
  /\ Dict.keys (_tool_mapping (init client d))
     = map MemoryDB.t_full_name (MemoryDB.tools d).
Proof.
  intros [Hids _ _ _ _ Htnames Href].
  assert (Hjoin : forall t, In t (MemoryDB.tools d) ->
            exists a,
              List.filter (fun a => MemoryDB.a_id a =? MemoryDB.t_adapter_id t)
                (MemoryDB.adapters d) = [a]
              /\ adapter_of d t = Some (MemoryDB.a_name a)).
  { intros t Ht. unfold referential in Href. rewrite Forall_forall in Href.
    destruct (Href t (proj2 (list_elem_of_In _ _) Ht)) as (a & Ha & Hid).
    exists a. unfold adapter_of. rewrite <- Hid.
    rewrite (CatalogFacts.filter_unique MemoryDB.a_id _ a Hids Ha).
    rewrite (CatalogFacts.find_unique MemoryDB.a_id _ a Hids Ha). auto. }
  assert (Hnames : map Tool.name (MemoryDB.get_tools d)
                   = map MemoryDB.t_full_name (MemoryDB.tools d)).
  { unfold MemoryDB.get_tools. revert Hjoin.
    generalize (MemoryDB.tools d). intros l Hjoin.
    induction l as [|t l IH]; [reflexivity|]. simpl.
    destruct (Hjoin t (or_introl eq_refl)) as (a & -> & _). simpl. f_equal.
    apply IH. intros t' Ht'. apply Hjoin. right. exact Ht'. }
  split; [exact Hnames|]. split; [|split].
  - unfold MemoryDB.get_tools. revert Hjoin.
    generalize (MemoryDB.tools d). intros l Hjoin.
    induction l as [|t l IH]; [reflexivity|]. simpl.
    destruct (Hjoin t (or_introl eq_refl)) as (a & -> & ->). simpl. f_equal.
    apply IH. intros t' Ht'. apply Hjoin. right. exact Ht'.
  - rewrite Hnames. exact Htnames.
  - simpl. change (mapping_of (MemoryDB.get_tools d))
      with (mapping_from [] (MemoryDB.get_tools d)).
    rewrite CatalogFacts.mapping_keys; simpl; rewrite Hnames; [reflexivity | exact Htnames].
Qed.

(** ** A model that does not stop asking for tools *)

Section Exhaust.
Context {World : Type} (rt : Runtime World) (self : Orchestrator World).

Lemma model_calls_app (a b : list event) :
  model_calls (a ++ b) = (model_calls a + model_calls b)%nat.
Proof. unfold model_calls. rewrite List.filter_app, List.length_app. reflexivity. Qed.

Lemma operation_of_counts tool ran :
  operation_of tool ran -> dispatches ran = 0%nat /\ model_calls ran = 0%nat.
Proof. intros [->|(args & ->)]; split; reflexivity. Qed.

(** With a model that insists, the loop runs until its bound and ends
    on a tool call. *)
Lemma tool_loop_exhausts context fuel :
  insists rt self ->
  forall tool_name params confirm count (s : State World),
  0 <= count <= 3 ->
  (Z.to_nat (3 - count) < fuel)%nat ->
  Forall formattable (lists s !!! context) ->
  exists tool params' confirm' s' new,
    tool_loop rt self fuel context (ToolCall tool_name params confirm) count s
    = (Ret (Some (ToolCall tool params' confirm')), s')
    /\ trace s' = (trace s ++ new)%list
    /\ dispatches new = Z.to_nat (3 - count)
    /\ model_calls new = Z.to_nat (3 - count).
Proof.
  intros Hins. induction fuel as [|fuel IH];
    intros tool_name params confirm count s Hcount Hfuel Hf; [lia|].
  rewrite tool_loop_S. destruct (count <? 3) eqn:Hc.
  2:{ apply Z.ltb_ge in Hc. replace (Z.to_nat (3 - count)) with 0%nat by lia.
      exists tool_name, params, confirm, s, []. rewrite List.app_nil_r. auto. }
  apply Z.ltb_lt in Hc.
  destruct (execute_tool_trace rt self tool_name params s)
    as (v & s1 & ran & He & Hl1 & Ht1 & Hop).
  rewrite (bind_ret_eq _ _ _ _ _ He). cbv zeta.
  set (m1 := [("role", PStr "assistant");
              ("content", PStr ("Called " +:+ tool_name +:+ " with params: "
                                +:+ str rt params))]).
  set (m2 := [("role", PStr "system"); ("content", PStr (str rt v))]).
  rewrite (bind_ret_eq _ _ s1 tt (snd (append context m1 s1))) by reflexivity.
  set (s2 := snd (append context m1 s1)).
  rewrite (bind_ret_eq _ _ s2 tt (snd (append context m2 s2))) by reflexivity.
  set (s3 := snd (append context m2 s2)).
  assert (Ht3 : trace s3 = trace s1) by reflexivity.
  assert (Hf3 : Forall formattable (lists s3 !!! context)).
  { unfold s3, s2, append. simpl. rewrite !lookup_total_insert_eq, Hl1.
    apply formattable_appended. exact Hf. }
  destruct (ask_model_run rt self context s3 Hf3) as (request & Hask).
  destruct (Hins request (world s3)) as (text & w' & tool & p' & c' & Hgen & Hhandle).
  rewrite Hgen in Hask. cbn [fst snd] in Hask.
  rewrite (bind_ret_eq _ _ _ _ _ Hask).
  match type of Hask with _ = (_, ?st) => set (s4 := st) in * end.
  rewrite (bind_ret_eq _ _ s4 (ToolCall tool p' c') (snd (record (EvInterpret text) s4)))
    by (rewrite interpret_eq, Hhandle; reflexivity).
  set (s5 := snd (record (EvInterpret text) s4)).
  assert (Hf5 : Forall formattable (lists s5 !!! context)) by exact Hf3.
  destruct (IH tool p' c' (count + 1) s5 ltac:(lia) ltac:(lia) Hf5)
    as (tool' & p'' & c'' & s' & rest & Hloop & Ht6 & Hd6 & Hg6).
  exists tool', p'', c'', s',
    (EvDispatch tool_name params :: ran ++ EvGenerate request :: EvInterpret text :: rest)%list.
  split; [exact Hloop|]. split.
  - rewrite Ht6. unfold s5, s4. simpl. rewrite Ht1, <- !List.app_assoc. reflexivity.
  - destruct (operation_of_counts _ _ Hop) as [Hd Hg].
    change (EvDispatch tool_name params :: ran ++ EvGenerate request :: EvInterpret text :: rest)%list
      with ([EvDispatch tool_name params] ++ ran
              ++ [EvGenerate request; EvInterpret text] ++ rest)%list.
    rewrite !dispatches_app, !model_calls_app, Hd, Hg, Hd6, Hg6.
    unfold dispatches, model_calls. simpl. split; lia.
Qed.

End Exhaust.

(** X23. With a model that answers every request with a tool call, the
    loop stops at its bound: [process_message] dispatches three tools,
    asks the model four times, and, the fourth answer being a tool call
    without a [text], returns the text of the [KeyError] that the read of
    [response[text]] raises. *)
Theorem tool_calls_without_end {World : Type} (rt : Runtime World)
    (self : Orchestrator World) (context : loc) (s : State World) :
  lists s !!! context <> [] ->
  Forall formattable (lists s !!! context) ->
  insists rt self ->
  fst (process_message rt self context s)
  = Ret (Some (PStr "Error processing request: 'text'"))
  /\ exists new,
       trace (snd (process_message rt self context s)) = (trace s ++ new)%list
       /\ dispatches new = 3%nat
       /\ model_calls new = 4%nat.
Proof.
  intros Hne Hf Hins.
  destruct (ask_model_run rt self context s Hf) as (request & Hask).
  destruct (Hins request (world s)) as (text & w' & tool & p & c & Hgen & Hhandle).
  rewrite Hgen in Hask. cbn [fst snd] in Hask.
  match type of Hask with _ = (_, ?st) => set (s1 := st) in * end.
  set (s2 := snd (record (EvInterpret text) s1)).
  assert (Hf2 : Forall formattable (lists s2 !!! context)) by exact Hf.
  destruct (tool_loop_exhausts rt self context 4 Hins tool p c 0 s2
              ltac:(lia) ltac:(simpl; lia) Hf2)
    as (tool' & p' & c' & s' & rest & Hloop & Ht & Hd & Hg).
  assert (Hrun : process_message rt self context s
                 = (Ret (Some (PStr "Error processing request: 'text'")), s')).
  { unfold process_message, process_message_fuel.
    rewrite (bind_ret_eq _ _ s (lists s !!! context) s) by reflexivity.
    destruct (lists s !!! context) as [|msg more]; [contradiction|].
    rewrite (bind_ret_eq _ _ _ _ _ Hask). unfold try_except.
    rewrite (bind_ret_eq _ _ s1 (ToolCall tool p c) s2)
      by (rewrite interpret_eq, Hhandle; reflexivity).
    rewrite (bind_ret_eq _ _ _ _ _ Hloop). reflexivity. }
  rewrite Hrun. split; [reflexivity|].
  exists (EvGenerate request :: EvInterpret text :: rest)%list. split.
  - simpl. rewrite Ht. unfold s2, s1. simpl. rewrite <- !List.app_assoc. reflexivity.
  - change (EvGenerate request :: EvInterpret text :: rest)%list
      with ([EvGenerate request; EvInterpret text] ++ rest)%list.
    rewrite dispatches_app, model_calls_app, Hd, Hg. split; reflexivity.
Qed.

(** ** The further properties on the concrete installation *)

Section FurtherOnTheInstallation.
Import Demo Cases Samples.

Lemma diary_is_chronological : History.chronological diary.
Proof.
  split.
  - simpl. split; [|split; [constructor | exact I]].
    constructor; [|constructor]. split; [reflexivity | reflexivity].
  - simpl. constructor; [discriminate|]. constructor; [discriminate | constructor].
Defined.

Lemma scripted_never_raises : never_raises scripted.
Proof. intros prompt w. destruct w as [|answer rest]; eexists _, _; reflexivity. Defined.

Lemma question_is_formattable :
  Forall formattable (lists (start question [no_events]) !!! context).
Proof.
  change (lists (start question [no_events]) !!! context) with question.
  constructor; [|constructor]. eexists _, _. split; reflexivity.
Defined.

Lemma recent_messages_are_the_last_witness :
  History.chronological diary
  /\ 0 <= 1
  /\ History.get_recent_messages diary 1
     = [[("role", PStr "assistant"); ("content", PStr "Hi! How can I help?");
         ("timestamp", PStr "2025-06-01 09:00:01.500")]].
Proof.
  split; [exact diary_is_chronological|]. split; [discriminate|].
  rewrite (recent_messages_are_the_last diary 1 diary_is_chronological);
    [reflexivity | discriminate].
Defined.

Lemma added_message_is_most_recent_witness :
  History.chronological diary
  /\ Forall (fun r => String.leb (History.m_timestamp r) later = true) (History.rows diary)
  /\ 0 < 10
  /\ History.chronological (snd (History.add_message diary later "user" "What is next?"))
  /\ exists earlier,
       History.get_recent_messages
         (snd (History.add_message diary later "user" "What is next?")) 10
       = earlier ++ [[("role", PStr "user"); ("content", PStr "What is next?");
                      ("timestamp", PStr later)]].
Proof.
  assert (Hclock : Forall (fun r => String.leb (History.m_timestamp r) later = true)
                     (History.rows diary)).
  { simpl. constructor; [reflexivity|]. constructor; [reflexivity | constructor]. }
  split; [exact diary_is_chronological|]. split; [exact Hclock|].
  split; [reflexivity|].
  exact (added_message_is_most_recent diary later "user" "What is next?" 10
           diary_is_chronological Hclock eq_refl).
Defined.

Lemma message_ids_are_not_reused_witness :
  Forall (fun r => History.m_id r <= History.seq diary) (History.rows diary)
  /\ Forall (fun r => History.m_id r
                      < fst (History.add_message (History.clear_messages diary)
                               later "user" "Hello again"))
            (History.rows diary).
Proof.
  split; [exact (proj2 diary_is_chronological)|].
  exact (message_ids_are_not_reused diary later "user" "Hello again" "user" 1
           (proj2 diary_is_chronological) (History.clear_messages diary)
           (or_introl eq_refl)).
Defined.

Lemma catalog_adapter_names_are_unique : unique_adapter_names catalog.
Proof. unfold unique_adapter_names. apply (bool_decide_unpack _). vm_compute. exact I. Defined.

Lemma register_adapter_idempotent_witness :
  let first := MemoryDB.register_adapter catalog "lab" "LabAdapter" "an adapter" in
  let second := MemoryDB.register_adapter (snd first) "lab" "OtherAdapter" "another text" in
  unique_adapter_names catalog
  /\ exists row : MemoryDB.adapter_row,
       fst first = Ret (MemoryDB.a_id row)
       /\ fst second = Ret (MemoryDB.a_id row)
       /\ MemoryDB.adapters (snd second) = MemoryDB.adapters (snd first)
       /\ MemoryDB.adapters_seq (snd second) = MemoryDB.adapters_seq (snd first) + 1
       /\ List.filter (fun a => String.eqb (MemoryDB.a_name a) "lab")
            (MemoryDB.adapters (snd second)) = [row].
Proof.
  cbv zeta. split; [exact catalog_adapter_names_are_unique|].
  destruct (register_adapter_idempotent catalog "lab" "LabAdapter" "OtherAdapter"
              "an adapter" "another text" catalog_adapter_names_are_unique)
    as (row & Hfirst & Hsecond & Hsame & _ & _ & Hseq & Hrows & _).
  exists row. split; [exact Hfirst|]. split; [exact Hsecond|].
  split; [exact Hsame|]. split; [exact Hseq | exact Hrows].
Defined.

Lemma catalog_is_referential : referential catalog.
Proof.
  unfold referential. apply List.Forall_forall. intros t Ht.
  vm_compute in Ht.
  repeat (destruct Ht as [<-|Ht];
          [first [ eexists; split; [left; reflexivity | reflexivity]
                 | eexists; split; [right; left; reflexivity | reflexivity] ]|]).
  contradiction.
Defined.

Lemma register_makes_tools_available_witness :
  referential catalog
  /\ exists adapter_id tool_ids,
       fst (ToolAdapter.register runtime cloud catalog) = Ret (adapter_id, tool_ids)
       /\ In "cloud.sync"
            (map Tool.name
               (MemoryDB.get_tools (snd (ToolAdapter.register runtime cloud catalog))))
       /\ Dict.mem
            (_tool_mapping (init scripted (snd (ToolAdapter.register runtime cloud catalog))))
            "cloud.list" = true.
Proof.
  split; [exact catalog_is_referential|].
  destruct (register_makes_tools_available runtime scripted cloud catalog
              catalog_is_referential)
    as (adapter_id & tool_ids & Hret & _ & _ & _ & Hall & _).
  exists adapter_id, tool_ids. split; [exact Hret|]. split.
  - exact (proj1 (Hall _ (or_introl eq_refl))).
  - exact (proj2 (Hall _ (or_intror (or_introl eq_refl)))).
Defined.

Lemma process_message_returns_witness :
  Forall formattable (lists (start question [no_events]) !!! context)
  /\ never_raises (LLM_client orchestrator)
  /\ exists v,
       fst (process_message runtime orchestrator context (start question [no_events]))
       = Ret (Some v).
Proof.
  split; [exact question_is_formattable|]. split; [exact scripted_never_raises|].
  exact (process_message_returns runtime orchestrator context (start question [no_events])
           question_is_formattable scripted_never_raises).
Defined.

Lemma stored_history_is_processed_witness :
  let stored :=
    History.get_recent_messages
      (snd (History.add_message diary later "user" "What is next?")) 10 in
  10 <> 0
  /\ lists (start stored [no_events]) !!! context = stored
  /\ never_raises (LLM_client orchestrator)
  /\ (exists v,
        fst (process_message runtime orchestrator context (start stored [no_events]))
        = Ret (Some v))
  /\ exists new,
       trace (snd (process_message runtime orchestrator context (start stored [no_events])))
       = (trace (start stored [no_events]) ++ new)%list
       /\ (1 <= model_calls new)%nat.
Proof.
  cbv zeta.
  assert (Hlimit : 10 <> 0) by discriminate.
  split; [exact Hlimit|]. split; [reflexivity|].
  split; [exact scripted_never_raises|].
  destruct (stored_history_is_processed runtime orchestrator diary later "user"
              "What is next?" 10 context
              (start (History.get_recent_messages
                        (snd (History.add_message diary later "user" "What is next?")) 10)
                     [no_events])
              Hlimit eq_refl scripted_never_raises)
    as (_ & _ & Hret & Hasked).
  split; [exact Hret | exact Hasked].
Defined.

Lemma service_failure_becomes_a_reply_witness :
  LLM_client (init gemini catalog) = GeminiClient service_down
  /\ lists (start question []) !!! context <> []
  /\ Forall formattable (lists (start question []) !!! context)
  /\ (forall request, exists e w,
        service_down request (world (start question [])) = (Raise e, w))
  /\ exists reason request failure,
       fst (process_message runtime (init gemini catalog) context (start question []))
       = Ret (Some (PStr ("Invalid JSON response from model: " +:+ reason
                          +:+ ". Please try again.")))
       /\ trace (snd (process_message runtime (init gemini catalog) context
                        (start question [])))
          = (trace (start question [])
             ++ [EvGenerate request;
                 EvInterpret ("Error generating response: " +:+ failure)])%list.
Proof.
  assert (Hne : lists (start question []) !!! context <> []) by discriminate.
  assert (Hf : Forall formattable (lists (start question []) !!! context)).
  { change (lists (start question []) !!! context) with question.
    constructor; [|constructor]. eexists _, _. split; reflexivity. }
  assert (Hdown : forall request, exists e w,
            service_down request (world (start question [])) = (Raise e, w)).
  { intros request. eexists _, _. reflexivity. }
  split; [reflexivity|]. split; [exact Hne|]. split; [exact Hf|]. split; [exact Hdown|].
  destruct (service_failure_becomes_a_reply runtime (init gemini catalog) service_down
              context (start question []) eq_refl Hne Hf Hdown)
    as (_ & reason & request & failure & Hret & Htrace & _).
  exists reason, request, failure. split; [exact Hret | exact Htrace].
Defined.

Lemma adapter_is_constructed_once_witness :
  resolve_adapter runtime orchestrator "lab" (start [] []) = (Ret (Some lab), warm)
  /\ Dict.get (_tool_cache warm) "lab" = Some lab
  /\ resolve_adapter runtime orchestrator "lab" warm = (Ret (Some lab), warm)
  /\ Dict.get
       (_tool_cache (snd (_execute_tool runtime orchestrator "google_calendar.list_events"
                            (PDict []) warm))) "lab"
     = Some lab.
Proof.
  assert (Hres : resolve_adapter runtime orchestrator "lab" (start [] [])
                 = (Ret (Some lab), warm)) by reflexivity.
  destruct (adapter_is_constructed_once runtime orchestrator "lab" lab (start [] []) warm
              Hres) as (Hcached & Hagain & Hkept).
  split; [exact Hres|]. split; [exact Hcached|]. split; [exact (Hagain warm Hcached)|].
  exact (Hkept "google_calendar.list_events" (PDict []) warm "lab" lab Hcached).
Defined.

Lemma adapter_that_cannot_be_loaded_witness :
  let tool_info :=
    {| Tool.name := "cloud.sync"; Tool.description := "a tool"; Tool.example := "{}";
       Tool.side_effects := false; Tool.adapter := "cloud" |} in
  Dict.get (_tool_mapping clouded) "cloud.sync" = Some tool_info
  /\ Dict.get (_tool_cache (start [] [])) "cloud" = None
  /\ (exists row,
        MemoryDB.select_adapter (memory_db clouded) "cloud" = Some row
        /\ exists e w,
             import_module runtime (adapter_module_path "cloud") (world (start [] []))
             = (Raise e, w)
             /\ isinstance e "ImportError" = true)
  /\ fst (_execute_tool runtime clouded "cloud.sync" (PDict []) (start [] []))
     = Ret (PDict [("error", PStr "Could not load adapter: cloud")])
  /\ _tool_cache (snd (_execute_tool runtime clouded "cloud.sync" (PDict []) (start [] [])))
     = [].
Proof.
  cbv zeta.
  assert (Hwhy : exists row,
            MemoryDB.select_adapter (memory_db clouded) "cloud" = Some row
            /\ exists e w,
                 import_module runtime (adapter_module_path "cloud") (world (start [] []))
                 = (Raise e, w)
                 /\ isinstance e "ImportError" = true).
  { eexists. split; [reflexivity|]. eexists _, _. split; reflexivity. }
  split; [reflexivity|]. split; [reflexivity|]. split; [exact Hwhy|].
  destruct Hwhy as (row & Hrow & e & w & Himport & Hcls).
  destruct (adapter_that_cannot_be_loaded runtime clouded "cloud.sync"
              {| Tool.name := "cloud.sync"; Tool.description := "a tool";
                 Tool.example := "{}"; Tool.side_effects := false;
                 Tool.adapter := "cloud" |}
              (PDict []) (start [] []) eq_refl eq_refl
              (or_intror (ex_intro _ row
                 (conj Hrow (or_introl (ex_intro _ e (ex_intro _ w (conj Himport Hcls))))))))
    as (Hret & Hcache & _).
  split; [exact Hret | exact Hcache].
Defined.

Lemma missing_operation_is_reported_witness :
  let tool_info :=
    {| Tool.name := "lab.absent"; Tool.description := "a tool"; Tool.example := "{}";
       Tool.side_effects := false; Tool.adapter := "lab" |} in
  Dict.get (_tool_mapping orchestrator) "lab.absent" = Some tool_info
  /\ Dict.get (_tool_cache warm) "lab" = Some lab
  /\ getattr lab (last_segment "." "lab.absent") = None
  /\ fst (_execute_tool runtime orchestrator "lab.absent" (PDict []) warm)
     = Ret (PDict [("error", PStr "Adapter 'lab' has no method 'absent'")]).
Proof.
  cbv zeta. split; [reflexivity|]. split; [reflexivity|]. split; [reflexivity|].
  rewrite (missing_operation_is_reported runtime orchestrator "lab.absent"
             {| Tool.name := "lab.absent"; Tool.description := "a tool";
                Tool.example := "{}"; Tool.side_effects := false;
                Tool.adapter := "lab" |}
             lab (PDict []) warm eq_refl eq_refl eq_refl).
  reflexivity.
Defined.

Lemma catalog_is_consistent : consistent catalog.
Proof.
  split.
  - apply (bool_decide_unpack _). vm_compute. exact I.
  - vm_compute. repeat (constructor; [discriminate|]). constructor.
  - exact catalog_adapter_names_are_unique.
  - apply (bool_decide_unpack _). vm_compute. exact I.
  - vm_compute. repeat (constructor; [discriminate|]). constructor.
  - unfold MemoryDB.unique_full_names. apply (bool_decide_unpack _). vm_compute. exact I.
  - exact catalog_is_referential.
Defined.

Lemma get_tools_lists_each_tool_once_witness :
  consistent catalog
  /\ map Tool.name (MemoryDB.get_tools catalog)
     = map MemoryDB.t_full_name (MemoryDB.tools catalog)
  /\ Dict.keys (_tool_mapping orchestrator)
     = ["google_calendar.list_events"; "google_calendar.name"; "lab.op"; "lab.collect";
        "lab.boom"; "lab.strict"; "lab.absent"].
Proof.
  split; [exact catalog_is_consistent|].
  destruct (get_tools_lists_each_tool_once scripted catalog catalog_is_consistent)
    as (Hnames & _ & _ & Hkeys).
  split; [exact Hnames|]. unfold orchestrator. rewrite Hkeys. reflexivity.
Defined.

Lemma well_shaped_object_is_action_witness :
  let data := [("type", PStr "tool_call"); ("tool", PStr "google_calendar.list_events");
               ("params", PDict [("days", PInt 1)])] in
  Json.loads list_events = Ret (PDict data)
  /\ (forall v, Dict.get data "type" = Some v -> exists type, v = PStr type)
  /\ (forall v, Dict.get data "tool" = Some v -> hashable v = true)
  /\ exists action, _handle_model_response runtime orchestrator list_events = Ret action.
Proof.
  cbv zeta.
  assert (Htype : forall v,
            Dict.get [("type", PStr "tool_call");
                      ("tool", PStr "google_calendar.list_events");
                      ("params", PDict [("days", PInt 1)])] "type" = Some v ->
            exists type, v = PStr type).
  { intros v H. injection H as <-. eexists. reflexivity. }
  assert (Htool : forall v,
            Dict.get [("type", PStr "tool_call");
                      ("tool", PStr "google_calendar.list_events");
                      ("params", PDict [("days", PInt 1)])] "tool" = Some v ->
            hashable v = true).
  { intros v H. injection H as <-. reflexivity. }
  split; [reflexivity|]. split; [exact Htype|]. split; [exact Htool|].
  exact (well_shaped_object_is_action runtime orchestrator list_events _ eq_refl Htype Htool).
Defined.

Lemma tool_calls_without_end_witness :
  lists (start question []) !!! context <> []
  /\ Forall formattable (lists (start question []) !!! context)
  /\ insists runtime (init stubborn catalog)
  /\ fst (process_message runtime (init stubborn catalog) context (start question []))
     = Ret (Some (PStr "Error processing request: 'text'")).
Proof.
  assert (Hne : lists (start question []) !!! context <> []) by discriminate.
  assert (Hf : Forall formattable (lists (start question []) !!! context)).
  { change (lists (start question []) !!! context) with question.
    constructor; [|constructor]. eexists _, _. split; reflexivity. }
  assert (Hins : insists runtime (init stubborn catalog)).
  { intros prompt w. eexists _, _, _, _, _. split; reflexivity. }
  split; [exact Hne|]. split; [exact Hf|]. split; [exact Hins|].
  exact (proj1 (tool_calls_without_end runtime (init stubborn catalog) context
                  (start question []) Hne Hf Hins)).
Defined.

Lemma catalog_stays_consistent_witness :
  consistent catalog
  /\ consistent (snd (ToolAdapter.register runtime cloud catalog))
  /\ consistent (snd (MemoryDB.register_tool catalog 2 "measure" "Measure" "{}" false None)).
Proof.
  destruct (catalog_stays_consistent runtime) as (_ & _ & Htool & Hregister).
  split; [exact catalog_is_consistent|].
  split; [exact (Hregister cloud catalog catalog_is_consistent)|].
  apply Htool; [exact catalog_is_consistent|].
  eexists. split; [right; left; reflexivity | reflexivity].
Defined.

Lemma build_prompt_formats_every_message_witness :
  Forall formattable question
  /\ (exists formatted,
        build_prompt runtime question [] None None (start question [])
        = (Ret (PDict [("system", PStr default_system);
                       ("tools", PList []);
                       ("messages", PList formatted);
                       ("current_time", PStr "2025-06-01T09:00:00")]),
           start question [])
        /\ Forall2 (formatted_as runtime) question formatted)
  /\ ~ formattable [("role", PStr "user")]
  /\ exists e,
       build_prompt runtime (question ++ [[("role", PStr "user")]]) [] None None
         (start question [])
       = (Raise e, start question [])
       /\ (e = KeyError "role" \/ e = KeyError "content"
           \/ exists role, Dict.get [("role", PStr "user")] "role" = Some role
                           /\ e = AttributeError role "lower").
Proof.
  assert (Hf : Forall formattable question).
  { constructor; [|constructor]. eexists _, _. split; reflexivity. }
  assert (Hbad : ~ formattable [("role", PStr "user")]).
  { intros (role & content & _ & H). discriminate H. }
  split; [exact Hf|].
  destruct (build_prompt_formats_every_message runtime question [] None None
              (start question [])) as [Hgood _].
  destruct (build_prompt_formats_every_message runtime
              (question ++ [[("role", PStr "user")]]) [] None None (start question []))
    as [_ Hfails].
  split; [exact (Hgood Hf)|]. split; [exact Hbad|].
  destruct (Hfails question [("role", PStr "user")] [] eq_refl Hf Hbad)
    as (e & Hraise & _ & Hkind).
  exists e. split; [exact Hraise | exact Hkind].
Defined.

End FurtherOnTheInstallation.
